(** * dbx: the query-session engine of [db.go]

    A shallow embedding of the pure core of [db.go] (history store, response
    classification, table projection, sort handler, detail projection) and
    the properties of it that the design document states.

    Conventions.
    - A Go [string] is a sequence of bytes: Rocq's [string] (a list of 8-bit
      [ascii]).  [len(s)] is [slen s], a byte count.
    - A Go [int] is a 64-bit signed integer: a [Z] in [[min_int, max_int]];
      the only arithmetic of the modelled code that can leave that range is
      written with [wrap_int].
    - A run-time panic is the [None] of an [option]. *)

From Stdlib Require Import ZArith Ascii String List Lia Bool.
From stdpp Require Import base numbers list strings gmap sorting pretty.

Local Open Scope Z_scope.

(** ** Go integers and strings *)

Definition min_int : Z := - 2 ^ 63.
Definition max_int : Z := 2 ^ 63 - 1.

Definition in_int (x : Z) : Prop := min_int <= x <= max_int.

(** Two's-complement wrap-around of a 64-bit signed result. *)
Definition wrap_int (x : Z) : Z := (x + 2 ^ 63) mod 2 ^ 64 - 2 ^ 63.

(** [len(s)] *)
Definition slen (s : string) : Z := Z.of_nat (String.length s).

(** The first [n] bytes of [s] (all of [s] when it is shorter). *)
Fixpoint take_bytes (n : nat) (s : string) : string :=
  match n, s with
  | S n', String c s' => String c (take_bytes n' s')
  | _, _ => EmptyString
  end.

(** The slice expression [s[:n]]: it panics unless [0 <= n <= len(s)]. *)
Definition slice_to (s : string) (n : Z) : option string :=
  if (0 <=? n) && (n <=? slen s) then Some (take_bytes (Z.to_nat n) s) else None.

Definition byte (n : nat) : ascii := ascii_of_nat n.
Definition byte_val (c : ascii) : Z := Z.of_nat (nat_of_ascii c).

(** The string literal ["…"] of the source: U+2026 in UTF-8, three bytes. *)
Definition ellipsis : string :=
  String (byte 226) (String (byte 128) (String (byte 166) EmptyString)).

(** ** [truncateString] *)

(** [[
func truncateString(s string, maxLen int) string {
	if len(s) <= maxLen {
		return s
	}
	return s[:maxLen-1] + "…"
}
]] *)
Definition truncateString (s : string) (maxLen : Z) : option string :=
  if slen s <=? maxLen then Some s
  else p ← slice_to s (wrap_int (maxLen - 1)); Some (p +:+ ellipsis).

(** ** UTF-8 ([unicode/utf8]) *)

Definition RuneError : Z := 65533.

(** Bytes [n.. ] of [s]. *)
Fixpoint drop_bytes (n : nat) (s : string) : string :=
  match n, s with
  | S n', String _ s' => drop_bytes n' s'
  | _, _ => s
  end.

Definition is_cont (b : Z) : bool := (128 <=? b) && (b <=? 191).

(** The table [first] of the library, read as: the encoded size announced by
    a leading byte and the range accepted for the second byte; [None] for a
    byte that cannot start a multi-byte encoding. *)
Definition first_byte (b0 : Z) : option (nat * Z * Z) :=
  if (194 <=? b0) && (b0 <=? 223) then Some (2%nat, 128, 191)
  else if b0 =? 224 then Some (3%nat, 160, 191)
  else if (225 <=? b0) && (b0 <=? 236) then Some (3%nat, 128, 191)
  else if b0 =? 237 then Some (3%nat, 128, 159)
  else if (238 <=? b0) && (b0 <=? 239) then Some (3%nat, 128, 191)
  else if b0 =? 240 then Some (4%nat, 144, 191)
  else if (241 <=? b0) && (b0 <=? 243) then Some (4%nat, 128, 191)
  else if b0 =? 244 then Some (4%nat, 128, 143)
  else None.

(** [utf8.DecodeRuneInString]: the first rune of [s] and its width in bytes;
    [(RuneError, 0)] on the empty string, [(RuneError, 1)] on an encoding
    that is invalid or cut short. *)
Definition decodeRune (s : string) : Z * nat :=
  match s with
  | EmptyString => (RuneError, 0%nat)
  | String c0 s1 =>
    let b0 := byte_val c0 in
    if b0 <? 128 then (b0, 1%nat)
    else
      match first_byte b0 with
      | None => (RuneError, 1%nat)
      | Some (sz, lo, hi) =>
        match s1 with
        | EmptyString => (RuneError, 1%nat)
        | String c1 s2 =>
          let b1 := byte_val c1 in
          if (b1 <? lo) || (hi <? b1) then (RuneError, 1%nat)
          else if (sz <=? 2)%nat
          then (Z.lor (Z.shiftl (Z.land b0 31) 6) (Z.land b1 63), 2%nat)
          else
            match s2 with
            | EmptyString => (RuneError, 1%nat)
            | String c2 s3 =>
              let b2 := byte_val c2 in
              if negb (is_cont b2) then (RuneError, 1%nat)
              else if (sz <=? 3)%nat
              then (Z.lor (Z.shiftl (Z.land b0 15) 12)
                      (Z.lor (Z.shiftl (Z.land b1 63) 6) (Z.land b2 63)), 3%nat)
              else
                match s3 with
                | EmptyString => (RuneError, 1%nat)
                | String c3 _ =>
                  let b3 := byte_val c3 in
                  if negb (is_cont b3) then (RuneError, 1%nat)
                  else (Z.lor (Z.shiftl (Z.land b0 7) 18)
                          (Z.lor (Z.shiftl (Z.land b1 63) 12)
                             (Z.lor (Z.shiftl (Z.land b2 63) 6) (Z.land b3 63))),
                        4%nat)
                end
            end
        end
      end
  end.

(** [utf8.RuneStart] *)
Definition RuneStart (b : Z) : bool := negb (Z.land b 192 =? 128).

(** Byte [i] of [s], as a number; 0 out of range (never read there). *)
Definition byte_at (s : string) (i : nat) : Z :=
  match String.get i s with Some c => byte_val c | None => 0 end.

(** [utf8.DecodeLastRuneInString]: the last rune of [s] and its width. *)
Definition decodeLastRune (s : string) : Z * nat :=
  let n := String.length s in
  match n with
  | O => (RuneError, 0%nat)
  | S e =>
    let r := byte_at s e in
    if r <? 128 then (r, 1%nat)
    else
      (* walk back over at most [UTFMax - 1] bytes to a rune start *)
      let start :=
        if (2 <=? n)%nat && RuneStart (byte_at s (n - 2)) then (n - 2)%nat
        else if (3 <=? n)%nat && RuneStart (byte_at s (n - 3)) then (n - 3)%nat
        else if (4 <=? n)%nat && RuneStart (byte_at s (n - 4)) then (n - 4)%nat
        else (n - 5)%nat in
      let '(r', size) := decodeRune (drop_bytes start s) in
      if (start + size =? n)%nat then (r', size) else (RuneError, 1%nat)
  end.

(** [utf8.ValidString], by repeated decoding; [fuel] bounds the number of
    runes and [String.length s] is always enough. *)
Fixpoint valid_from (fuel : nat) (s : string) : bool :=
  match fuel with
  | O => match s with EmptyString => true | _ => false end
  | S fuel' =>
    match s with
    | EmptyString => true
    | _ =>
      let '(r, size) := decodeRune s in
      if (r =? RuneError) && (size =? 1)%nat then false
      else valid_from fuel' (drop_bytes size s)
    end
  end.

Definition ValidString (s : string) : bool := valid_from (String.length s) s.

(** ** [strings.TrimSpace] *)

(** [unicode.IsSpace]: the code points with the White_Space property. *)
Definition IsSpace (r : Z) : bool :=
  ((9 <=? r) && (r <=? 13)) || (r =? 32) || (r =? 133) || (r =? 160)
  || (r =? 5760) || ((8192 <=? r) && (r <=? 8202))
  || (r =? 8232) || (r =? 8233) || (r =? 8239) || (r =? 8287) || (r =? 12288).

(** [strings.TrimLeftFunc(s, unicode.IsSpace)] *)
Fixpoint trimLeft (fuel : nat) (s : string) : string :=
  match fuel with
  | O => s
  | S fuel' =>
    let '(r, size) := decodeRune s in
    if (0 <? size)%nat && IsSpace r then trimLeft fuel' (drop_bytes size s) else s
  end.

(** [strings.TrimRightFunc(s, unicode.IsSpace)] *)
Fixpoint trimRight (fuel : nat) (s : string) : string :=
  match fuel with
  | O => s
  | S fuel' =>
    let '(r, size) := decodeLastRune s in
    if (0 <? size)%nat && IsSpace r
    then trimRight fuel' (take_bytes (String.length s - size) s) else s
  end.

(** [strings.TrimSpace]: the library takes a fast path over ASCII bytes and
    otherwise calls the two functions above; the result is the same. *)
Definition TrimSpace (s : string) : string :=
  let l := trimLeft (String.length s) s in
  trimRight (String.length l) l.

(** ** The history store *)

(** A [time.Time], as the instant it denotes: nanoseconds since the Unix
    epoch. *)
Definition Time : Type := Z.

Record HistoryEntry : Type := mkEntry { Query : string; Timestamp : Time }.

Record History : Type := mkHistory { Entries : list HistoryEntry }.

Definition emptyHistory : History := mkHistory [].

(** [len(l)] of a slice. *)
Definition len {A} (l : list A) : Z := Z.of_nat (length l).

(** The slice expression [l[:n]] where [n] is not above the capacity: it
    panics when [n] is negative. *)
Definition slice_list_to {A} (l : list A) (n : Z) : option (list A) :=
  if (0 <=? n) && (n <=? len l) then Some (take (Z.to_nat n) l) else None.

Definition touch (now : Time) (e : HistoryEntry) : HistoryEntry :=
  mkEntry (Query e) now.

(** [[
func appendHistory(h *History, query string, maxLen int) {
	query = strings.TrimSpace(query)
	if query == "" {
		return
	}
	// avoid consecutive duplicates
	if len(h.Entries) > 0 && h.Entries[0].Query == query {
		// touch timestamp
		h.Entries[0].Timestamp = time.Now()
		return
	}
	h.Entries = append([]HistoryEntry{{Query: query, Timestamp: time.Now()}}, h.Entries...)
	if len(h.Entries) > maxLen {
		h.Entries = h.Entries[:maxLen]
	}
}
]]
    [now] is the reading of [time.Now()] during the call; the result is the
    history [h] points to afterwards, [None] when the call panics.
    [prependHistory] is the last four lines. *)
Definition prependHistory (h : History) (query : string) (maxLen : Z) (now : Time)
  : option History :=
  let es := mkEntry query now :: Entries h in
  if maxLen <? len es then mkHistory <$> slice_list_to es maxLen
  else Some (mkHistory es).

Definition appendHistory (h : History) (query : string) (maxLen : Z) (now : Time)
  : option History :=
  let query := TrimSpace query in
  if String.eqb query "" then Some h
  else
    match Entries h with
    | e0 :: rest =>
      if String.eqb (Query e0) query then Some (mkHistory (touch now e0 :: rest))
      else prependHistory h query maxLen now
    | [] => prependHistory h query maxLen now
    end.

(** The delete handler of the history list (key [d]), its effect on the
    history:
[[
	currentItem := historyList.GetCurrentItem()
	if currentItem >= 0 && currentItem < len(hist.Entries) {
		hist.Entries = append(hist.Entries[:currentItem], hist.Entries[currentItem+1:]...)
]] *)
Definition deleteHistory (h : History) (currentItem : Z) : History :=
  if (0 <=? currentItem) && (currentItem <? len (Entries h))
  then mkHistory (take (Z.to_nat currentItem) (Entries h)
                  ++ drop (S (Z.to_nat currentItem)) (Entries h))
  else h.

(** The operations on a history, and runs of them. *)
Inductive HistoryOp : Type :=
| OpAppend (query : string) (now : Time)
| OpDelete (index : Z).

Definition stepHistory (maxLen : Z) (h : History) (o : HistoryOp) : option History :=
  match o with
  | OpAppend q now => appendHistory h q maxLen now
  | OpDelete i => Some (deleteHistory h i)
  end.

Fixpoint runHistory (maxLen : Z) (h : History) (ops : list HistoryOp) : option History :=
  match ops with
  | [] => Some h
  | o :: ops' => h' ← stepHistory maxLen h o; runHistory maxLen h' ops'
  end.

Definition isAppend (o : HistoryOp) : bool :=
  match o with OpAppend _ _ => true | OpDelete _ => false end.

(** [h] is reachable from the empty history by appends (with [maxLen]) and
    deletes. *)
Definition reachable (maxLen : Z) (h : History) : Prop :=
  ∃ ops, runHistory maxLen emptyHistory ops = Some h.

(** The same by appends alone. *)
Definition reachable_by_append (maxLen : Z) (h : History) : Prop :=
  ∃ ops, forallb isAppend ops = true ∧ runHistory maxLen emptyHistory ops = Some h.

(** The two invariants of the data model. *)
Definition within_max (maxLen : Z) (h : History) : Prop := len (Entries h) <= maxLen.

Fixpoint no_consec_dup (qs : list string) : Prop :=
  match qs with
  | q1 :: (q2 :: _) as rest => q1 ≠ q2 ∧ no_consec_dup rest
  | _ => True
  end.

Definition queries (h : History) : list string := Query <$> Entries h.

Definition history_inv (maxLen : Z) (h : History) : Prop :=
  within_max maxLen h ∧ no_consec_dup (queries h).

(** ** JSON ([encoding/json]) *)

(** What [json.Unmarshal] stores in an [interface{}]: [nil], a [bool], a
    [float64], a [string], a [[]interface{}] or a [map[string]interface{}].
    A [float64] is kept as the number literal it was read from; the members
    of an object are kept in document order (the map that Go builds holds,
    for a repeated key, the last value: see [toRow]). *)
#[warnings="-register-all"]
Inductive value : Type :=
| VNil
| VBool (b : bool)
| VFloat (lit : string)
| VString (s : string)
| VSlice (l : list value)
| VMap (m : list (string * value)).

Definition is_ws (b : Z) : bool := (b =? 32) || (b =? 9) || (b =? 13) || (b =? 10).

Fixpoint skip_ws (s : string) : string :=
  match s with
  | String c s' => if is_ws (byte_val c) then skip_ws s' else s
  | EmptyString => s
  end.

(** [s] without its prefix [p], when it starts with [p]. *)
Fixpoint strip_prefix (p s : string) : option string :=
  match p, s with
  | EmptyString, _ => Some s
  | String a p', String b s' => if Ascii.eqb a b then strip_prefix p' s' else None
  | String _ _, EmptyString => None
  end.

Definition is_digit (b : Z) : bool := (48 <=? b) && (b <=? 57).

(** The leading digits of [s], and what follows them. *)
Fixpoint span_digits (s : string) : string * string :=
  match s with
  | String c s' =>
    if is_digit (byte_val c)
    then let '(ds, r) := span_digits s' in (String c ds, r)
    else (EmptyString, s)
  | EmptyString => (EmptyString, s)
  end.

(** A number literal at the head of [s]: an optional minus sign; a zero, or
    a non-zero digit and more digits; optionally a point and one or more
    digits; optionally [e] or [E], an optional sign and one or more digits. *)
Definition scan_number (s : string) : option (string * string) :=
  let '(sign, s1) :=
    match s with
    | String c s' => if byte_val c =? 45 then ("-", s') else ("", s)
    | EmptyString => ("", s)
    end in
  let '(int, s2) := span_digits s1 in
  match int with
  | EmptyString => None
  | String d0 int' =>
    if (byte_val d0 =? 48) && negb (String.eqb int' "") then None
    else
      '(frac, s3) ←
        match s2 with
        | String c s' =>
          if byte_val c =? 46 then
            let '(fd, r) := span_digits s' in
            if String.eqb fd "" then None else Some ("." +:+ fd, r)
          else Some ("", s2)
        | EmptyString => Some ("", s2)
        end;
      '(exp, s4) ←
        match s3 with
        | String c s' =>
          if (byte_val c =? 101) || (byte_val c =? 69) then
            let '(esign, s'') :=
              match s' with
              | String c' r =>
                if (byte_val c' =? 43) || (byte_val c' =? 45)
                then (String c' "", r) else ("", s')
              | EmptyString => ("", s')
              end in
            let '(ed, r) := span_digits s'' in
            if String.eqb ed "" then None else Some (String c esign +:+ ed, r)
          else Some ("", s3)
        | EmptyString => Some ("", s3)
        end;
      Some (sign +:+ int +:+ frac +:+ exp, s4)
  end.

Definition hexval (b : Z) : option Z :=
  if (48 <=? b) && (b <=? 57) then Some (b - 48)
  else if (97 <=? b) && (b <=? 102) then Some (b - 87)
  else if (65 <=? b) && (b <=? 70) then Some (b - 55)
  else None.

(** [getu4]: the code unit of an escape [\uXXXX] at the head of [s], and
    what follows it. *)
Definition getu4 (s : string) : option (Z * string) :=
  match s with
  | String bs (String u (String h1 (String h2 (String h3 (String h4 r))))) =>
    if (byte_val bs =? 92) && (byte_val u =? 117) then
      d1 ← hexval (byte_val h1); d2 ← hexval (byte_val h2);
      d3 ← hexval (byte_val h3); d4 ← hexval (byte_val h4);
      Some (d1 * 4096 + d2 * 256 + d3 * 16 + d4, r)
    else None
  | _ => None
  end.

Definition IsSurrogate (r : Z) : bool := (55296 <=? r) && (r <? 57344).

(** [utf16.DecodeRune] *)
Definition utf16_DecodeRune (r1 r2 : Z) : Z :=
  if (55296 <=? r1) && (r1 <? 56320) && (56320 <=? r2) && (r2 <? 57344)
  then Z.lor (Z.shiftl (r1 - 55296) 10) (r2 - 56320) + 65536
  else RuneError.

Definition bytes (l : list Z) : string :=
  foldr (λ b s, String (byte (Z.to_nat b)) s) EmptyString l.

(** [utf8.EncodeRune] (through [utf8.AppendRune]) *)
Definition EncodeRune (r : Z) : string :=
  if (0 <=? r) && (r <=? 127) then bytes [r]
  else if (0 <=? r) && (r <=? 2047) then
    bytes [Z.lor 192 (Z.shiftr r 6); Z.lor 128 (Z.land r 63)]
  else if (r <? 0) || (1114111 <? r) || IsSurrogate r then
    bytes [239; 191; 189]
  else if r <=? 65535 then
    bytes [Z.lor 224 (Z.shiftr r 12); Z.lor 128 (Z.land (Z.shiftr r 6) 63);
           Z.lor 128 (Z.land r 63)]
  else
    bytes [Z.lor 240 (Z.shiftr r 18); Z.lor 128 (Z.land (Z.shiftr r 12) 63);
           Z.lor 128 (Z.land (Z.shiftr r 6) 63); Z.lor 128 (Z.land r 63)].

(** What one escape sequence (the backslash is already read, [s] starts at
    the character after it) stands for, and what follows it. *)
Definition scan_escape (s : string) : option (string * string) :=
  match s with
  | EmptyString => None
  | String c s' =>
    let b := byte_val c in
    if (b =? 34) || (b =? 92) || (b =? 47) then Some (String c "", s')
    else if b =? 98 then Some (bytes [8], s')
    else if b =? 102 then Some (bytes [12], s')
    else if b =? 110 then Some (bytes [10], s')
    else if b =? 114 then Some (bytes [13], s')
    else if b =? 116 then Some (bytes [9], s')
    else if b =? 117 then
      '(rr, r) ← getu4 (String (byte 92) s);
      if IsSurrogate rr then
        match getu4 r with
        | Some (rr1, r') =>
          let dec := utf16_DecodeRune rr rr1 in
          if dec =? RuneError then Some (EncodeRune RuneError, r)
          else Some (EncodeRune dec, r')
        | None => Some (EncodeRune RuneError, r)
        end
      else Some (EncodeRune rr, r)
    else None
  end.

(** A string literal whose opening quote is already read: its value
    (escapes replaced, invalid UTF-8 replaced by U+FFFD, as [unquote] does)
    and what follows the closing quote.  [fuel] bounds the number of
    characters; [String.length s] is always enough. *)
Fixpoint scan_string (fuel : nat) (s : string) : option (string * string) :=
  match fuel with
  | O => None
  | S fuel' =>
    match s with
    | EmptyString => None
    | String c s' =>
      let b := byte_val c in
      if b =? 34 then Some (EmptyString, s')
      else if b =? 92 then
        '(piece, r) ← scan_escape s';
        '(body, rest) ← scan_string fuel' r;
        Some (piece +:+ body, rest)
      else if b <? 32 then None
      else if b <? 128 then
        '(body, rest) ← scan_string fuel' s';
        Some (String c body, rest)
      else
        let '(rr, size) := decodeRune s in
        '(body, rest) ← scan_string fuel' (drop_bytes size s);
        Some (EncodeRune rr +:+ body, rest)
    end
  end.

(** [maxNestingDepth] of the scanner. *)
Definition maxNestingDepth : nat := Z.to_nat 10000.

(** A recursive-descent reading of the grammar the scanner accepts.  [d] is
    the number of arrays and objects that may still be opened; [fuel]
    bounds the number of calls, and [2 * String.length s + 2] is enough. *)
Fixpoint parse_value (fuel d : nat) (s : string) {struct fuel} : option (value * string) :=
  match fuel with
  | O => None
  | S fuel' =>
    match skip_ws s with
    | EmptyString => None
    | String c s' =>
      let b := byte_val c in
      if b =? 123 then
        match d with
        | O => None
        | S d' =>
          match strip_prefix "}" (skip_ws s') with
          | Some r => Some (VMap [], r)
          | None => '(m, r) ← parse_members fuel' d' s'; Some (VMap m, r)
          end
        end
      else if b =? 91 then
        match d with
        | O => None
        | S d' =>
          match strip_prefix "]" (skip_ws s') with
          | Some r => Some (VSlice [], r)
          | None => '(l, r) ← parse_elems fuel' d' s'; Some (VSlice l, r)
          end
        end
      else if b =? 34 then
        '(str, r) ← scan_string (String.length s') s'; Some (VString str, r)
      else if b =? 116 then r ← strip_prefix "rue" s'; Some (VBool true, r)
      else if b =? 102 then r ← strip_prefix "alse" s'; Some (VBool false, r)
      else if b =? 110 then r ← strip_prefix "ull" s'; Some (VNil, r)
      else '(lit, r) ← scan_number (String c s'); Some (VFloat lit, r)
    end
  end
with parse_elems (fuel d : nat) (s : string) {struct fuel} : option (list value * string) :=
  match fuel with
  | O => None
  | S fuel' =>
    '(v, s1) ← parse_value fuel' d s;
    match skip_ws s1 with
    | EmptyString => None
    | String c s2 =>
      if byte_val c =? 44 then
        '(vs, s3) ← parse_elems fuel' d s2; Some (v :: vs, s3)
      else if byte_val c =? 93 then Some ([v], s2)
      else None
    end
  end
with parse_members (fuel d : nat) (s : string) {struct fuel}
  : option (list (string * value) * string) :=
  match fuel with
  | O => None
  | S fuel' =>
    s1 ← strip_prefix (bytes [34]) (skip_ws s);
    '(k, s2) ← scan_string (String.length s1) s1;
    s3 ← strip_prefix ":" (skip_ws s2);
    '(v, s4) ← parse_value fuel' d s3;
    match skip_ws s4 with
    | EmptyString => None
    | String c s5 =>
      if byte_val c =? 44 then
        '(m, s6) ← parse_members fuel' d s5; Some ((k, v) :: m, s6)
      else if byte_val c =? 125 then Some ([(k, v)], s5)
      else None
    end
  end.

(** A whole document: one value, white space around it, nothing else. *)
Definition parse (s : string) : option value :=
  '(v, rest) ← parse_value (2 * String.length s + 2) maxNestingDepth s;
  if String.eqb (skip_ws rest) "" then Some v else None.

(** *** Numbers

    A number literal becomes a [float64] by [strconv.ParseFloat], which
    fails (and [Unmarshal] with it) when the literal is at or above the
    midpoint between the largest [float64] and [2^1024].  The comparison is
    made here on the exact decimal value [m * 10^e] of the literal. *)

Definition digits_val (s : string) : Z :=
  let fix go (acc : Z) (s : string) : Z :=
    match s with
    | String c s' => go (acc * 10 + (byte_val c - 48)) s'
    | EmptyString => acc
    end in
  go 0 s.

Definition float64_overflow_bound : Z := 2 ^ 1024 - 2 ^ 970.

Definition float_in_range (lit : string) : bool :=
  let s0 := match lit with
            | String c s' => if byte_val c =? 45 then s' else lit
            | EmptyString => lit
            end in
  let '(int, s1) := span_digits s0 in
  let '(frac, s2) :=
    match s1 with
    | String c s' => if byte_val c =? 46 then span_digits s' else (EmptyString, s1)
    | EmptyString => (EmptyString, s1)
    end in
  let exp :=
    match s2 with
    | String _ (String c s') =>
      if byte_val c =? 45 then - digits_val s'
      else if byte_val c =? 43 then digits_val s'
      else digits_val (String c s')
    | _ => 0
    end in
  let m := digits_val (int +:+ frac) in
  let e := exp - slen frac in
  if m =? 0 then true
  else if 0 <=? e then
    if 400 <? e then false else m * 10 ^ e <? float64_overflow_bound
  else if slen (int +:+ frac) <=? - e then true
  else m <? float64_overflow_bound * 10 ^ (- e).

Fixpoint floats_ok (v : value) : bool :=
  match v with
  | VFloat lit => float_in_range lit
  | VSlice l => forallb floats_ok l
  | VMap m => forallb (λ kv, floats_ok kv.2) m
  | _ => true
  end.

(** [json.Unmarshal(b, &gen)] with [gen] an [interface{}]: the value stored,
    [None] when an error is returned. *)
Definition Unmarshal_any (b : string) : option value :=
  v ← parse b; if floats_ok v then Some v else None.

(** A [map[string]interface{}]. *)
Abbreviation Row := (gmap string value).

(** The map built from the members of an object, in document order: a later
    member replaces an earlier one with the same key. *)
Definition toRow (m : list (string * value)) : Row :=
  foldl (λ acc kv, <[kv.1 := kv.2]> acc) ∅ m.

Definition decodeRow (v : value) : option Row :=
  match v with
  | VNil => Some ∅
  | VMap m => if floats_ok v then Some (toRow m) else None
  | _ => None
  end.

(** [json.Unmarshal(b, &arr)] with [arr] a [[]map[string]interface{}]: the
    slice stored, [None] when an error is returned.  A document [null]
    stores the nil slice and an element [null] the nil map; a nil slice and
    an empty one are both the empty list here, a nil map the empty map (the
    modelled code only takes their length, ranges over them and reads
    keys). *)
Definition decodeRows (v : value) : option (list Row) :=
  match v with
  | VNil => Some []
  | VSlice l => mapM decodeRow l
  | _ => None
  end.

Definition Unmarshal_rows (b : string) : option (list Row) :=
  v ← parse b; decodeRows v.

(** ** The query client *)

Inductive Result (A : Type) : Type :=
| ROk (a : A)
| RErr (msg : string).
Arguments ROk {A} a.
Arguments RErr {A} msg.

(** The dynamic type and value of the [interface{}] that [fetchQuery]
    returns. *)
Inductive Payload : Type :=
| PRows (arr : list Row)      (* []map[string]interface{} *)
| PValue (gen : value)        (* what Unmarshal stored in an interface{} *)
| PText (raw : string).       (* string *)

(** The response shapes of the design. *)
Inductive ResponseShape : Type := TabularRows | ScalarStructured | Text.

Definition shapeOf (p : Payload) : ResponseShape :=
  match p with
  | PRows _ => TabularRows
  | PValue _ => ScalarStructured
  | PText _ => Text
  end.

Definition hexdigit (n : Z) : ascii :=
  byte (Z.to_nat (if n <? 10 then 48 + n else 55 + n)).

(** [url.QueryEscape] *)
Fixpoint QueryEscape (s : string) : string :=
  match s with
  | EmptyString => EmptyString
  | String c s' =>
    let b := byte_val c in
    if ((97 <=? b) && (b <=? 122)) || ((65 <=? b) && (b <=? 90)) || is_digit b
       || (b =? 45) || (b =? 95) || (b =? 46) || (b =? 126)
    then String c (QueryEscape s')
    else if b =? 32 then String "+" (QueryEscape s')
    else String "%" (String (hexdigit (b / 16)) (String (hexdigit (b mod 16))
           (QueryEscape s')))
  end.

(** The classification of a response body, the second half of [fetchQuery]:
[[
	raw := string(b)
	// try parse JSON
	var arr []map[string]interface{}
	if err := json.Unmarshal(b, &arr); err == nil {
		return arr, "json", raw, nil
	}
	// try parse generic JSON
	var gen interface{}
	if err := json.Unmarshal(b, &gen); err == nil {
		return gen, "json", raw, nil
	}
	// fallback to raw text
	return raw, "text", raw, nil
]] *)
Definition classifyBody (b : string) : Payload * string * string :=
  let raw := b in
  match Unmarshal_rows b with
  | Some arr => (PRows arr, "json", raw)
  | None =>
    match Unmarshal_any b with
    | Some gen => (PValue gen, "json", raw)
    | None => (PText raw, "text", raw)
    end
  end.

(** [fetchQuery]; [httpGet url] is the outcome of [http.Get(url)] followed
    by [io.ReadAll] of the body: the body, or the error of either call. *)
Definition fetchQuery (httpGet : string → Result string) (apiBase query : string)
  : Result (Payload * string * string) :=
  let encoded := QueryEscape query in
  let full := apiBase +:+ encoded in
  match httpGet full with
  | RErr err => RErr err
  | ROk b => ROk (classifyBody b)
  end.

(** ** Writing JSON *)

(** The bytes [appendString] copies as they are ([htmlSafeSet]): printable
    ASCII other than the double quote, the backslash and the three
    characters [<], [>], [&]. *)
Definition htmlSafe (b : Z) : bool :=
  (32 <=? b) && (b <? 128)
  && negb ((b =? 34) || (b =? 92) || (b =? 60) || (b =? 62) || (b =? 38)).

Definition hexlower (n : Z) : ascii :=
  byte (Z.to_nat (if n <? 10 then 48 + n else 87 + n)).

(** The escape written for an ASCII byte that is not [htmlSafe]. *)
Definition escapeByte (b : Z) : string :=
  if (b =? 92) || (b =? 34) then bytes [92; b]
  else if b =? 8 then bytes [92; 98]
  else if b =? 12 then bytes [92; 102]
  else if b =? 10 then bytes [92; 110]
  else if b =? 13 then bytes [92; 114]
  else if b =? 9 then bytes [92; 116]
  else bytes [92; 117; 48; 48] +:+ String (hexlower (b / 16)) (String (hexlower (b mod 16)) "").

(** The body of the string literal that [appendString] (with HTML escaping,
    as [Marshal] asks for) writes for [s], without the two quotes. *)
Fixpoint escapeString (fuel : nat) (s : string) : string :=
  match fuel with
  | O => EmptyString
  | S fuel' =>
    match s with
    | EmptyString => EmptyString
    | String c s' =>
      let b := byte_val c in
      if b <? 128 then
        (if htmlSafe b then String c "" else escapeByte b) +:+ escapeString fuel' s'
      else
        let '(r, size) := decodeRune s in
        if (r =? RuneError) && (size =? 1)%nat then
          bytes [92; 117; 102; 102; 102; 100] +:+ escapeString fuel' s'
        else if (r =? 8232) || (r =? 8233) then
          bytes [92; 117; 50; 48; 50] +:+ String (hexlower (Z.land r 15)) ""
          +:+ escapeString fuel' (drop_bytes size s)
        else take_bytes size s +:+ escapeString fuel' (drop_bytes size s)
    end
  end.

Definition dquote : string := bytes [34].
Definition newline : string := bytes [10].

(** A string as a JSON literal. *)
Definition quoteString (s : string) : string :=
  dquote +:+ escapeString (String.length s) s +:+ dquote.

Fixpoint join (sep : string) (l : list string) : string :=
  match l with
  | [] => EmptyString
  | [x] => x
  | x :: l' => x +:+ sep +:+ join sep l'
  end.

(** ** Files *)

(** The part of the file system the program touches: the files by path, and
    the paths on which every operation fails (permissions and the like). *)
Record FS : Type := mkFS { fs_files : gmap string string; fs_denied : gset string }.

Inductive ReadResult : Type :=
| ReadOk (b : string)
| ReadNotExist           (* an error for which os.IsNotExist holds *)
| ReadErr (msg : string).

(** [ioutil.ReadFile] *)
Definition ReadFile (fs : FS) (p : string) : ReadResult :=
  if decide (p ∈ fs_denied fs) then ReadErr "permission denied"
  else match fs_files fs !! p with
       | Some b => ReadOk b
       | None => ReadNotExist
       end.

(** [os.MkdirAll]: directories are not tracked, only the failure is. *)
Definition MkdirAll (fs : FS) (dir : string) : option string :=
  if decide (dir ∈ fs_denied fs) then Some "permission denied" else None.

(** [ioutil.WriteFile]: the new file system and the error, if any.  The
    failure here is the refusal to open the file, which leaves it as it
    was; a write that fails after the file was opened and truncated is not
    part of this file system. *)
Definition WriteFile (fs : FS) (p b : string) : FS * option string :=
  if decide (p ∈ fs_denied fs) then (fs, Some "permission denied")
  else (mkFS (<[p := b]> (fs_files fs)) (fs_denied fs), None).

(** The environment: [$XDG_CONFIG_HOME], and the home directory that
    [user.Current()] reports ([None] when it fails). *)
Record Env : Type := mkEnv { XDG_CONFIG_HOME : string; HomeDir : option string }.

(** [filepath.Join] of path elements; the cleaning of the result ([.], [..],
    doubled separators) is not modelled. *)
Definition filepath_Join (elems : list string) : string :=
  join "/" (filter (λ e, e ≠ "") elems).

(** [filepath.Dir]: the path without its last element. *)
Fixpoint dir_prefix (p : string) : option string :=
  match p with
  | EmptyString => None
  | String c p' =>
    match dir_prefix p' with
    | Some d => Some (String c d)
    | None => if byte_val c =? 47 then Some EmptyString else None
    end
  end.

Definition filepath_Dir (p : string) : string :=
  match dir_prefix p with
  | Some EmptyString => "/"
  | Some d => d
  | None => "."
  end.

(** [[
func historyPath() (string, error) {
	if env := os.Getenv("XDG_CONFIG_HOME"); env != "" {
		return filepath.Join(env, "dbx", "history.json"), nil
	}
	usr, err := user.Current()
	if err != nil {
		return "", err
	}
	return filepath.Join(usr.HomeDir, ".config", "dbx", "history.json"), nil
}
]] *)
Definition historyPath (env : Env) : Result string :=
  if negb (String.eqb (XDG_CONFIG_HOME env) "")
  then ROk (filepath_Join [XDG_CONFIG_HOME env; "dbx"; "history.json"])
  else match HomeDir env with
       | None => RErr "user: Current"
       | Some home => ROk (filepath_Join [home; ".config"; "dbx"; "history.json"])
       end.

(** [time.Time{}], the zero time: January 1, year 1, 00:00 UTC. *)
Definition zeroTime : Time := -62135596800 * 10 ^ 9.

(** The field of a struct that an object key selects is found by name,
    ignoring case: ASCII letters are folded, and so are the two letters
    outside ASCII that fold to [s] (U+017F) and [k] (U+212A). *)
Fixpoint foldName (s : string) : string :=
  match s with
  | EmptyString => EmptyString
  | String c1 s1 =>
    let b1 := byte_val c1 in
    let plain :=
      String (if (65 <=? b1) && (b1 <=? 90) then byte (Z.to_nat (b1 + 32)) else c1)
             (foldName s1) in
    match s1 with
    | String c2 s2 =>
      if (b1 =? 197) && (byte_val c2 =? 191) then String "s" (foldName s2)
      else
        match s2 with
        | String c3 s3 =>
          if (b1 =? 226) && (byte_val c2 =? 132) && (byte_val c3 =? 170)
          then String "k" (foldName s3) else plain
        | EmptyString => plain
        end
    | EmptyString => plain
    end
  end.

(** Does the object key [key] select the field tagged [name]? *)
Definition selects (key name : string) : bool := String.eqb (foldName key) name.

(** ** The engine

    Two library behaviours are left as parameters: how [fmt] prints a
    [float64] with [%v] (given here the literal the number was read from),
    and how [time.Time] writes and reads its RFC 3339 text ([formatTime]
    fails for a year outside [0, 9999]). *)
Section Engine.

Context (fmtFloat : string → string).
Context (formatTime : Time → option string) (parseTime : string → option Time).

(** *** Persistence of the history *)

(** One entry as [MarshalIndent(h, "", "  ")] lays it out, at depth 2. *)
Definition marshalEntry (e : HistoryEntry) : option string :=
  t ← formatTime (Timestamp e);
  Some ("{" +:+ newline +:+
        "      " +:+ dquote +:+ "query" +:+ dquote +:+ ": " +:+ quoteString (Query e)
        +:+ "," +:+ newline +:+
        "      " +:+ dquote +:+ "timestamp" +:+ dquote +:+ ": " +:+ dquote +:+ t +:+ dquote
        +:+ newline +:+
        "    }").

(** [json.MarshalIndent(h, "", "  ")] for a [*History]; [None] when a
    timestamp cannot be written.  (A nil [Entries] is written [null]; the
    list here does not tell it from the empty slice, written [[]]; both read
    back as no entries.) *)
Definition MarshalIndent_history (h : History) : option string :=
  ents ← mapM marshalEntry (Entries h);
  Some ("{" +:+ newline +:+
        "  " +:+ dquote +:+ "entries" +:+ dquote +:+ ": " +:+
        match ents with
        | [] => "[]"
        | _ => "[" +:+ newline +:+ "    "
               +:+ join ("," +:+ newline +:+ "    ") ents
               +:+ newline +:+ "  ]"
        end
        +:+ newline +:+ "}").

(** Decoding into a [HistoryEntry]: members are taken in document order,
    each into the field its key selects; [null] leaves a field as it is, a
    value of the wrong kind is an error, other keys are skipped. *)
Fixpoint decodeEntryFields (m : list (string * value)) (e : HistoryEntry)
  : option HistoryEntry :=
  match m with
  | [] => Some e
  | (k, v) :: m' =>
    if selects k "query" then
      match v with
      | VString s => decodeEntryFields m' (mkEntry s (Timestamp e))
      | VNil => decodeEntryFields m' e
      | _ => None
      end
    else if selects k "timestamp" then
      match v with
      | VString s => t ← parseTime s; decodeEntryFields m' (mkEntry (Query e) t)
      | VNil => decodeEntryFields m' e
      | _ => None
      end
    else decodeEntryFields m' e
  end.

(** Decoding into the element of a slice that holds [old]: [null] leaves
    a struct as it is. *)
Definition decodeEntry (v : value) (old : HistoryEntry) : option HistoryEntry :=
  match v with
  | VNil => Some old
  | VMap m => decodeEntryFields m old
  | _ => None
  end.

(** Decoding the elements of an array into a slice whose backing array
    holds [olds]: element [i] is decoded into what index [i] holds, the
    zero entry past the end of [olds]. *)
Fixpoint decodeEntries (l : list value) (olds : list HistoryEntry)
  : option (list HistoryEntry) :=
  match l with
  | [] => Some []
  | v :: l' =>
    e ← decodeEntry v (default (mkEntry "" zeroTime) (head olds));
    es ← decodeEntries l' (tail olds);
    Some (e :: es)
  end.

(** Decoding into a [History], members in document order.  An array is
    decoded into the elements that the slice holds already (a key that
    comes twice): [stale] is what the backing array holds past the length
    of the slice, left there when a shorter array was decoded.  The empty
    array and [null] give the slice a new, empty value. *)
Fixpoint decodeHistoryFields (m : list (string * value)) (h : History)
    (stale : list HistoryEntry) : option History :=
  match m with
  | [] => Some h
  | (k, v) :: m' =>
    if selects k "entries" then
      match v with
      | VSlice [] => decodeHistoryFields m' (mkHistory []) []
      | VSlice l =>
        es ← decodeEntries l (Entries h ++ stale);
        decodeHistoryFields m' (mkHistory es) (drop (length es) (Entries h ++ stale))
      | VNil => decodeHistoryFields m' (mkHistory []) []
      | _ => None
      end
    else decodeHistoryFields m' h stale
  end.

(** [json.Unmarshal(b, &h)] with [h] a [History]: the value of [h]
    afterwards, [None] when an error is returned. *)
Definition Unmarshal_history (b : string) : option History :=
  v ← parse b;
  match v with
  | VNil => Some (mkHistory [])
  | VMap m => decodeHistoryFields m (mkHistory []) []
  | _ => None
  end.

(** [[
func loadHistory() ( *History, error ) {
	p, err := historyPath()
	if err != nil {
		return nil, err
	}
	b, err := ioutil.ReadFile(p)
	if os.IsNotExist(err) {
		return &History{Entries: []HistoryEntry{}}, nil
	}
	if err != nil {
		return nil, err
	}
	var h History
	if err := json.Unmarshal(b, &h); err != nil {
		// if corrupted, return empty history rather than fail the app
		return &History{Entries: []HistoryEntry{}}, nil
	}
	return &h, nil
}
]] *)
Definition loadHistory (env : Env) (fs : FS) : Result History :=
  match historyPath env with
  | RErr err => RErr err
  | ROk p =>
    match ReadFile fs p with
    | ReadNotExist => ROk (mkHistory [])
    | ReadErr err => RErr err
    | ReadOk b =>
      match Unmarshal_history b with
      | None => ROk (mkHistory [])
      | Some h => ROk h
      end
    end
  end.

(** [[
func saveHistory(h *History) error {
	p, err := historyPath()
	if err != nil {
		return err
	}
	if err := os.MkdirAll(filepath.Dir(p), 0o755); err != nil {
		return err
	}
	b, err := json.MarshalIndent(h, "", "  ")
	if err != nil {
		return err
	}
	return ioutil.WriteFile(p, b, 0o644)
}
]]
    The result is the file system afterwards and the error returned
    ([None] for [nil]). *)
Definition saveHistory (env : Env) (fs : FS) (h : History) : FS * option string :=
  match historyPath env with
  | RErr err => (fs, Some err)
  | ROk p =>
    match MkdirAll fs (filepath_Dir p) with
    | Some err => (fs, Some err)
    | None =>
      match MarshalIndent_history h with
      | None => (fs, Some "json: error calling MarshalJSON for type time.Time")
      | Some b => WriteFile fs p b
      end
    end
  end.

(** *** Configuration *)

Record Config : Type := mkConfig {
  ScrollAcceleration : Z;
  ScrollRepeatThreshold : Z;
  ScrollRepeatTimeoutMs : Z;
  PageScrollStep : Z;
  MaxHistoryEntries : Z;
  ConnectionCheckSec : Z;
  MaxColumnWidth : Z
}.

Definition DefaultConfig : Config := mkConfig 3 3 150 10 200 5 40.

(** *** Printing values *)

(** [sort.Strings]: increasing for [<] on Go strings, which compares bytes,
    lexicographically. *)
Definition sortStrings (l : list string) : list string := merge_sort String.le l.

(** The members of a map as [fmt] prints them: each key once, with the value
    the map holds for it, in key order. *)
Definition printedMembers (m : list (string * string)) : list (string * string) :=
  let held : gmap string string := foldl (λ acc kv, <[kv.1 := kv.2]> acc) ∅ m in
  omap (λ k, (k,.) <$> held !! k) (sortStrings (map_to_list held).*1).

(** [fmt.Sprintf("%v", v)] for a value read from JSON. *)
Fixpoint sprintv (v : value) : string :=
  match v with
  | VNil => "<nil>"
  | VBool b => if b then "true" else "false"
  | VFloat lit => fmtFloat lit
  | VString s => s
  | VSlice l => "[" +:+ join " " (map sprintv l) +:+ "]"
  | VMap m =>
    "map[" +:+
    join " " (map (λ kv, kv.1 +:+ ":" +:+ kv.2)
                (printedMembers (map (λ kv, (kv.1, sprintv kv.2)) m)))
    +:+ "]"
  end.

(** [row[k]]: the value under [k], [nil] when the key is absent. *)
Definition rowGet (row : Row) (k : string) : value := default VNil (row !! k).

(** The keys that [for k := range row] visits; Go leaves their order
    unspecified, and both loops of this kind sort what they collect. *)
Definition rangeKeys (row : Row) : list string := (map_to_list row).*1.

(** *** The table *)

(** A cell of the [tview.Table]: its text and its maximum width. *)
Record TableCell : Type := mkCell { CellText : string; CellMaxWidth : Z }.

(** The cells given to the table with [SetCell], by row; row 0 is the
    header.  A row of the list that holds no cell got none: the table of
    [tview] has rows up to the last one that was given a cell, so it has no
    row at all when every row of the list is empty. *)
Definition Table : Type := list (list TableCell).

Definition minColWidth : Z := 8.

(** The width of column [k]:
[[
		// Start with header width
		width := len(k)
		if width < minColWidth {
			width = minColWidth
		}
		// Check first few rows to determine good width
		for i := 0; i < len(data) && i < 5; i++ {
			val := fmt.Sprintf("%v", data[i][k])
			if len(val) > width {
				width = len(val)
			}
		}
		if width > maxColWidth {
			width = maxColWidth
		}
		colWidths[k] = width
]] *)
Definition colWidth (maxColWidth : Z) (data : list Row) (k : string) : Z :=
  let width := slen k in
  let width := if width <? minColWidth then minColWidth else width in
  let width :=
    foldl (λ width row,
             let val := sprintv (rowGet row k) in
             if width <? slen val then slen val else width)
          width (take 5 data) in
  if maxColWidth <? width then maxColWidth else width.

(** The text of a data cell:
[[
			s := fmt.Sprintf("%v", val)
			// Truncate if needed
			if len(s) > colWidths[k] {
				s = truncateString(s, colWidths[k])
			}
]] *)
Definition cellText (width : Z) (val : value) : option string :=
  let s := sprintv val in
  if width <? slen s then truncateString s width else Some s.

(** The columns of a result: the keys of its first row, sorted.
[[
	cols := make([]string, 0, len(data[0]))
	for k := range data[0] {
		cols = append(cols, k)
	}
	// Sort columns alphabetically
	sort.Strings(cols)
	*columns = cols
]] *)
Definition tableColumns (first : Row) : list string := sortStrings (rangeKeys first).

(** [renderJSONToTable(data, table, columns, cfg)]: what [*columns] holds
    afterwards, and the cells given to the table, row by row, [None] when
    filling them panics.  With no rows the table is cleared and [*columns]
    keeps its value.  (When the first row has no key, no cell is set and
    every row of the result is empty.) *)
Definition renderJSONToTable (data : list Row) (columns : list string) (cfg : Config)
  : list string * option Table :=
  match data with
  | [] => (columns, Some [])
  | first :: _ =>
    let cols := tableColumns first in
    let maxColWidth := MaxColumnWidth cfg in
    let colWidths k := colWidth maxColWidth data k in
    let header := (λ k, mkCell k (colWidths k)) <$> cols in
    let rows :=
      mapM (λ row,
              mapM (λ k, s ← cellText (colWidths k) (rowGet row k);
                         Some (mkCell s (colWidths k))) cols)
           data in
    (cols, (header ::.) <$> rows)
  end.

(** *** The session

    The variables that the closures of [main] share, and the state of the
    widgets that the modelled handlers read or write. *)

Inductive Pane : Type := Editor | HistoryPane | Results | Detail | Raw.

Record Session : Type := mkSession {
  hist : History;
  currentRowCount : Z;
  currentData : list Row;
  currentColumns : list string;
  sortColumn : Z;
  sortAscending : bool;
  tableCells : Table;
  tableTitle : string;
  selection : Z * Z;
  detailText : string;
  rawText : string;
  statusText : string;
  focus : Pane
}.

(** Field updates. *)
Definition set_hist (x : History) (st : Session) : Session :=
  mkSession x (currentRowCount st) (currentData st) (currentColumns st) (sortColumn st)
    (sortAscending st) (tableCells st) (tableTitle st) (selection st) (detailText st)
    (rawText st) (statusText st) (focus st).
Definition set_currentRowCount (x : Z) (st : Session) : Session :=
  mkSession (hist st) x (currentData st) (currentColumns st) (sortColumn st)
    (sortAscending st) (tableCells st) (tableTitle st) (selection st) (detailText st)
    (rawText st) (statusText st) (focus st).
Definition set_currentData (x : list Row) (st : Session) : Session :=
  mkSession (hist st) (currentRowCount st) x (currentColumns st) (sortColumn st)
    (sortAscending st) (tableCells st) (tableTitle st) (selection st) (detailText st)
    (rawText st) (statusText st) (focus st).
Definition set_currentColumns (x : list string) (st : Session) : Session :=
  mkSession (hist st) (currentRowCount st) (currentData st) x (sortColumn st)
    (sortAscending st) (tableCells st) (tableTitle st) (selection st) (detailText st)
    (rawText st) (statusText st) (focus st).
Definition set_sortColumn (x : Z) (st : Session) : Session :=
  mkSession (hist st) (currentRowCount st) (currentData st) (currentColumns st) x
    (sortAscending st) (tableCells st) (tableTitle st) (selection st) (detailText st)
    (rawText st) (statusText st) (focus st).
Definition set_sortAscending (x : bool) (st : Session) : Session :=
  mkSession (hist st) (currentRowCount st) (currentData st) (currentColumns st)
    (sortColumn st) x (tableCells st) (tableTitle st) (selection st) (detailText st)
    (rawText st) (statusText st) (focus st).
Definition set_tableCells (x : Table) (st : Session) : Session :=
  mkSession (hist st) (currentRowCount st) (currentData st) (currentColumns st)
    (sortColumn st) (sortAscending st) x (tableTitle st) (selection st) (detailText st)
    (rawText st) (statusText st) (focus st).
Definition set_tableTitle (x : string) (st : Session) : Session :=
  mkSession (hist st) (currentRowCount st) (currentData st) (currentColumns st)
    (sortColumn st) (sortAscending st) (tableCells st) x (selection st) (detailText st)
    (rawText st) (statusText st) (focus st).
Definition set_selection (x : Z * Z) (st : Session) : Session :=
  mkSession (hist st) (currentRowCount st) (currentData st) (currentColumns st)
    (sortColumn st) (sortAscending st) (tableCells st) (tableTitle st) x (detailText st)
    (rawText st) (statusText st) (focus st).
Definition set_detailText (x : string) (st : Session) : Session :=
  mkSession (hist st) (currentRowCount st) (currentData st) (currentColumns st)
    (sortColumn st) (sortAscending st) (tableCells st) (tableTitle st) (selection st) x
    (rawText st) (statusText st) (focus st).
Definition set_rawText (x : string) (st : Session) : Session :=
  mkSession (hist st) (currentRowCount st) (currentData st) (currentColumns st)
    (sortColumn st) (sortAscending st) (tableCells st) (tableTitle st) (selection st)
    (detailText st) x (statusText st) (focus st).
Definition set_statusText (x : string) (st : Session) : Session :=
  mkSession (hist st) (currentRowCount st) (currentData st) (currentColumns st)
    (sortColumn st) (sortAscending st) (tableCells st) (tableTitle st) (selection st)
    (detailText st) (rawText st) x (focus st).
Definition set_focus (x : Pane) (st : Session) : Session :=
  mkSession (hist st) (currentRowCount st) (currentData st) (currentColumns st)
    (sortColumn st) (sortAscending st) (tableCells st) (tableTitle st) (selection st)
    (detailText st) (rawText st) (statusText st) x.

Definition initialSession (h : History) : Session :=
  mkSession h 0 [] [] (-1) true [] "Results" (0, 0) "" "" "" Editor.

(** [l[i]] for a Go index: a panic outside [0 <= i < len(l)]. *)
Definition index {A} (l : list A) (i : Z) : option A :=
  if i <? 0 then None else l !! Z.to_nat i.

(** [%d] *)
Definition itoa (n : Z) : string := pretty n.

(** One line of the detail view:
[[
			v := rowData[k]
			valStr := fmt.Sprintf("%v", v)
			// Compact display: field: value
			if len(valStr) > 200 {
				valStr = valStr[:200] + "…"
			}
			details.WriteString(fmt.Sprintf("[yellow]%s:[white] %s\n", k, valStr))
]] *)
Definition detailValue (v : value) : string :=
  let valStr := sprintv v in
  if 200 <? slen valStr then take_bytes 200 valStr +:+ ellipsis else valStr.

Definition detailLine (rowData : Row) (k : string) : string :=
  "[yellow]" +:+ k +:+ ":[white] " +:+ detailValue (rowGet rowData k) +:+ newline.

(** The keys of the detail view, in display order:
[[
		keys := make([]string, 0, len(rowData))
		for k := range rowData {
			keys = append(keys, k)
		}
		sort.Strings(keys)
]] *)
Definition detailKeys (rowData : Row) : list string := sortStrings (rangeKeys rowData).

Definition detailOf (row : Z) (total : Z) (rowData : Row) : string :=
  "[yellow::b]Row " +:+ itoa row +:+ "/" +:+ itoa total +:+ "[white]" +:+ newline
  +:+ String.concat "" (detailLine rowData <$> detailKeys rowData).

(** [updateDetailView] *)
Definition updateDetailView (st : Session) : Session :=
  let row := (selection st).1 in
  if (row <=? 0) || (len (currentData st) <? row)
  then set_detailText "[yellow]No row selected" st
  else
    match index (currentData st) (row - 1) with
    | Some rowData => set_detailText (detailOf row (len (currentData st)) rowData) st
    | None => st (* not reached: the index is in range *)
    end.

(** [resultsTable.Select(row, col)]: the table records the selection and
    calls the handler installed with [SetSelectionChangedFunc]:
[[
		if row > 0 && len(currentData) > 0 {
			updateDetailView()
		}
]] *)
Definition tableSelect (row col : Z) (st : Session) : Session :=
  let st := set_selection (row, col) st in
  if (0 <? row) && (0 <? len (currentData st)) then updateDetailView st else st.

(** [sort.Slice(data, less)] puts [data] in an order in which no element is
    [less] than one before it.  The library's algorithm is not stable; the
    merge sort here is one of the orders it may produce, the only one when
    no two keys are equal. *)
Definition notLessRev {A} (less : A → A → bool) (a b : A) : Prop := less b a = false.

Global Instance notLessRev_dec {A} (less : A → A → bool) a b : Decision (notLessRev less a b).
Proof. unfold notLessRev. apply _. Defined.

Definition sortSlice {A} (less : A → A → bool) (data : list A) : list A :=
  merge_sort (notLessRev less) data.

(** The comparison of the sort handler:
[[
				vi := fmt.Sprintf("%v", currentData[i][colName])
				vj := fmt.Sprintf("%v", currentData[j][colName])
				if sortAscending {
					return vi < vj
				}
				return vi > vj
]] *)
Definition sortLess (colName : string) (ascending : bool) (ri rj : Row) : bool :=
  let vi := sprintv (rowGet ri colName) in
  let vj := sprintv (rowGet rj colName) in
  if ascending then String.ltb vi vj else String.ltb vj vi.

Definition arrow (ascending : bool) : string :=
  if ascending then bytes [226; 134; 145] else bytes [226; 134; 147].

(** Rendering into the session's table: [None] when it panics. *)
Definition renderInto (cfg : Config) (data : list Row) (st : Session) : option Session :=
  let '(cols, cells) := renderJSONToTable data (currentColumns st) cfg in
  cells ← cells;
  Some (set_tableCells cells (set_currentColumns cols st)).

(** The handler installed with [resultsTable.SetSelectedFunc], called with
    the selected cell: a header cell sorts by its column. *)
Definition selectedFunc (cfg : Config) (row col : Z) (st : Session) : option Session :=
  if (row =? 0) && (0 <? len (currentData st)) && (col <? len (currentColumns st)) then
    colName ← index (currentColumns st) col;
    let st :=
      if sortColumn st =? col
      then set_sortAscending (negb (sortAscending st)) st
      else set_sortAscending true (set_sortColumn col st) in
    let st := set_currentData
                (sortSlice (sortLess colName (sortAscending st)) (currentData st)) st in
    st ← renderInto cfg (currentData st) st;
    let st := set_tableTitle
                ("Results (" +:+ itoa (len (currentData st)) +:+ " rows) [sorted by "
                 +:+ colName +:+ " " +:+ arrow (sortAscending st) +:+ "]") st in
    let st := tableSelect 1 0 st in
    Some (updateDetailView st)
  else Some st.

(** [runQuery], up to the start of the background fetch; [now] is the
    reading of the clock in [appendHistory]. *)
Definition runQuery (cfg : Config) (env : Env) (fs : FS) (query : string) (now : Time)
    (st : Session) : option (Session * FS) :=
  let st := set_statusText "[yellow]Running query..." st in
  let st := set_sortAscending true (set_sortColumn (-1) st) in
  h ← appendHistory (hist st) query (MaxHistoryEntries cfg) now;
  let st := set_hist h st in
  let '(fs, err) := saveHistory env fs h in
  let st := match err with
            | Some e => set_statusText ("[red]Failed to save history: " +:+ e) st
            | None => st
            end in
  let st := set_focus Results st in
  let st := set_currentRowCount 0 st in
  Some (set_tableCells [] st, fs).

(** The elements of a [[]interface{}] that are maps. *)
Definition mapsOf (items : list value) : list Row :=
  omap (λ item, match item with VMap m => Some (toRow m) | _ => None end) items.

Definition showRows (cfg : Config) (rows : list Row) (st : Session) : option Session :=
  let st := set_currentData rows st in
  st ← renderInto cfg rows st;
  let st := set_currentRowCount (len rows) st in
  Some (set_tableTitle ("Results (" +:+ itoa (currentRowCount st) +:+ " rows)") st).

Definition clearResult (detail status : string) (st : Session) : Session :=
  set_statusText status (set_detailText detail
    (set_currentRowCount 0 (set_currentData [] (set_tableCells [] st)))).

(** The update that the background fetch of [runQuery] queues with its
    result [(res, kind, raw, err)]. *)
Definition applyResult (cfg : Config) (r : Result (Payload * string * string))
    (st : Session) : option Session :=
  match r with
  | RErr err =>
    Some (set_rawText ("Error: " +:+ err) (set_statusText ("[red]Error: " +:+ err) st))
  | ROk (res, kind, raw) =>
    let st := set_rawText raw st in
    let text := clearResult "[yellow]Text result (see raw output)" "[green]Text result" st in
    if String.eqb kind "json" then
      match res with
      | PRows v =>
        st ← showRows cfg v st;
        let st := if 0 <? currentRowCount st
                  then updateDetailView (tableSelect 1 0 st)
                  else set_detailText "[yellow]No results" st in
        Some (set_statusText ("[green]Fetched " +:+ itoa (len v) +:+ " rows") st)
      | PValue (VSlice items) =>
        let maps := mapsOf items in
        if 0 <? len maps then
          st ← showRows cfg maps st;
          let st := updateDetailView (tableSelect 1 0 st) in
          Some (set_statusText ("[green]Fetched " +:+ itoa (len maps) +:+ " rows") st)
        else
          Some (clearResult "[yellow]JSON result (non-tabular)"
                            "[green]JSON result (non-tabular)" st)
      | _ =>
        Some (clearResult "[yellow]JSON result (see raw output)" "[green]JSON result" st)
      end
    else Some text
  end.

End Engine.

(** ** Notions used in the statements *)

(** The largest number of a list of lengths (0 for none). *)
Definition maxZ (l : list Z) : Z := foldr Z.max 0 l.

(** A text cut to [w] bytes: itself when it fits, else its first [w - 1]
    bytes and the ellipsis. *)
Definition shownText (w : Z) (s : string) : string :=
  if w <? slen s then take_bytes (Z.to_nat (w - 1)) s +:+ ellipsis else s.

(** The text a row is sorted by, and the order of two rows in a column
    sorted by it: increasing texts when ascending, decreasing otherwise. *)
Definition sortKey (fmtFloat : string → string) (colName : string) (r : Row) : string :=
  sprintv fmtFloat (rowGet r colName).

Definition inOrder (fmtFloat : string → string) (colName : string) (ascending : bool)
    (a b : Row) : Prop :=
  if ascending then String.le (sortKey fmtFloat colName a) (sortKey fmtFloat colName b)
  else String.le (sortKey fmtFloat colName b) (sortKey fmtFloat colName a).

(** A text that a JSON string literal holds as it is: bytes from 32 to 127
    other than the double quote and the backslash. *)
Fixpoint all_plain (s : string) : bool :=
  match s with
  | EmptyString => true
  | String c s' =>
    (32 <=? byte_val c) && (byte_val c <? 128) && negb (byte_val c =? 34)
    && negb (byte_val c =? 92) && all_plain s'
  end.

(** A list of [(query, time)] pairs as a run of appends, the entries they
    become, and the queries after trimming. *)
Definition appendOps (qs : list (string * Time)) : list HistoryOp :=
  (λ p, OpAppend p.1 p.2) <$> qs.

Definition entriesOf (qs : list (string * Time)) : list HistoryEntry :=
  (λ p, mkEntry (TrimSpace p.1) p.2) <$> qs.

Definition trimmed (qs : list (string * Time)) : list string :=
  (λ p, TrimSpace p.1) <$> qs.

(** [utf8.RuneCountInString]: the number of characters of a string, by
    repeated decoding; [String.length s] is always enough fuel. *)
Fixpoint count_runes (fuel : nat) (s : string) : Z :=
  match fuel with
  | O => 0
  | S fuel' =>
    match s with
    | EmptyString => 0
    | _ => let '(_, size) := decodeRune s in 1 + count_runes fuel' (drop_bytes size s)
    end
  end.

Definition RuneCountInString (s : string) : Z := count_runes (String.length s) s.

(** ** The layout of a saved history

    The text that [MarshalIndent] writes, grouped the way the parser reads
    it: [entryText q t rest] is one entry followed by [rest]; [entryString]
    is the same entry as [marshalEntry] writes it. *)
Fixpoint all_ws (s : string) : bool :=
  match s with
  | EmptyString => true
  | String c s' => is_ws (byte_val c) && all_ws s'
  end.

Definition ws6 : string := newline +:+ "      ".
Definition ws4 : string := newline +:+ "    ".
Definition ws2 : string := newline +:+ "  ".

Definition entryText (q t rest : string) : string :=
  "{" +:+ ws6 +:+ dquote +:+ "query" +:+ dquote +:+ ":" +:+
    (" " +:+ dquote +:+ (escapeString (String.length q) q +:+ dquote +:+
       ("" +:+ "," +:+
        (ws6 +:+ dquote +:+ "timestamp" +:+ dquote +:+ ":" +:+
           (" " +:+ dquote +:+ (t +:+ dquote +:+ (ws4 +:+ "}" +:+ rest))))))).

Fixpoint elemsText (q t : string) (more : list (string * string)) (rest : string) : string :=
  match more with
  | [] => ws4 +:+ entryText q t (ws2 +:+ "]" +:+ rest)
  | (q', t') :: more' => ws4 +:+ entryText q t ("" +:+ "," +:+ elemsText q' t' more' rest)
  end.

Definition entryValue (qt : string * string) : value :=
  VMap [("query", VString qt.1); ("timestamp", VString qt.2)].

Definition arrText (qts : list (string * string)) (rest : string) : string :=
  match qts with
  | [] => "[]" +:+ rest
  | (q, t) :: more => "[" +:+ elemsText q t more rest
  end.

Definition docText (qts : list (string * string)) : string :=
  "" +:+ "{" +:+ ws2 +:+ dquote +:+ "entries" +:+ dquote +:+ ":" +:+
    (" " +:+ arrText qts (newline +:+ "}" +:+ "")).

Definition docValue (qts : list (string * string)) : value :=
  VMap [("entries", VSlice (entryValue <$> qts))].

Definition entryString (q t : string) : string :=
  "{" +:+ newline +:+
  "      " +:+ dquote +:+ "query" +:+ dquote +:+ ": " +:+ quoteString q
  +:+ "," +:+ newline +:+
  "      " +:+ dquote +:+ "timestamp" +:+ dquote +:+ ": " +:+ dquote +:+ t +:+ dquote
  +:+ newline +:+
  "    }".

Definition sepText : string := "," +:+ newline +:+ "    ".

(** ** Sample data *)

(** [n] copies of a string, and the letter e with an acute accent: one
    character, two bytes. *)
Fixpoint copies (n : nat) (s : string) : string :=
  match n with
  | O => EmptyString
  | S n' => s +:+ copies n' s
  end.

Definition e_acute : string := bytes [195; 169].

(** The body [[{"a":1}]]. *)
Definition body_rows : string := "[{" +:+ dquote +:+ "a" +:+ dquote +:+ ":1}]".

Definition sample_row : Row :=
  {[ "id" := VString "10";
     "name" := VString "a name that is longer than the forty bytes of a column" ]}.

(** A second row with keys that are not columns of the first. *)
Definition drift_row : Row := {[ "zeta" := VString "z"; "alpha" := VBool true ]}.

Definition drift_session : Session :=
  set_selection (2, 0)
    (set_currentColumns ["id"; "name"]
       (set_currentData [sample_row; drift_row] (initialSession emptyHistory))).

Definition toggle_session : Session :=
  set_currentColumns ["id"; "name"]
    (set_currentData [ {[ "id" := VString "2"; "name" := VString "b" ]};
                       {[ "id" := VString "1"; "name" := VString "a" ]} ]
       (initialSession emptyHistory)).

(** A time codec that knows one instant, the Unix epoch. *)
Definition epochFormat (t : Time) : option string :=
  if t =? 0 then Some "1970-01-01T00:00:00Z" else None.

Definition epochParse (s : string) : option Time :=
  if String.eqb s "1970-01-01T00:00:00Z" then Some 0 else None.

Definition home_env : Env := mkEnv "" (Some "/home/op").

Definition saved_history : History :=
  mkHistory [mkEntry ("select " +:+ dquote +:+ "a<b" +:+ dquote +:+ newline
                      +:+ "from t -- " +:+ ellipsis) 0;
             mkEntry "select 1" 0].

(** * The rest of the program

    The configuration file, the handlers of [main] that the data model does
    not name (scrolling, focus, the history list), and the older copy of
    the table and detail projections. *)

(** ** The configuration file *)

(** [[
func configPath() (string, error) {
	if env := os.Getenv("XDG_CONFIG_HOME"); env != "" {
		return filepath.Join(env, "dbx", "config.json"), nil
	}
	usr, err := user.Current()
	if err != nil {
		return "", err
	}
	return filepath.Join(usr.HomeDir, ".config", "dbx", "config.json"), nil
}
]] *)
Definition configPath (env : Env) : Result string :=
  if negb (String.eqb (XDG_CONFIG_HOME env) "")
  then ROk (filepath_Join [XDG_CONFIG_HOME env; "dbx"; "config.json"])
  else match HomeDir env with
       | None => RErr "user: Current"
       | Some home => ROk (filepath_Join [home; ".config"; "dbx"; "config.json"])
       end.

Fixpoint all_digits (s : string) : bool :=
  match s with
  | EmptyString => true
  | String c s' => is_digit (byte_val c) && all_digits s'
  end.

(** [strconv.ParseInt(s, 10, 64)]: an optional sign and one or more decimal
    digits, for a value that fits 64 bits. *)
Definition ParseInt (s : string) : option Z :=
  let '(neg, ds) :=
    match s with
    | String c s' =>
      if byte_val c =? 45 then (true, s')
      else if byte_val c =? 43 then (false, s')
      else (false, s)
    | EmptyString => (false, s)
    end in
  if String.eqb ds "" then None
  else if negb (all_digits ds) then None
  else
    let n := if neg then - digits_val ds else digits_val ds in
    if (min_int <=? n) && (n <=? max_int) then Some n else None.

(** [var cfg Config] *)
Definition zeroConfig : Config := mkConfig 0 0 0 0 0 0 0.

(** Decoding into a field of kind [int] that holds [old]: a number literal
    goes through [ParseInt], [null] leaves the field as it is, a value of any
    other kind is an error. *)
Definition decodeInt (v : value) (old : Z) : option Z :=
  match v with
  | VFloat lit => ParseInt lit
  | VNil => Some old
  | _ => None
  end.

(** Decoding into a [Config]: members in document order, each into the field
    whose tag its key selects; other keys are skipped. *)
Fixpoint decodeConfigFields (m : list (string * value)) (c : Config) : option Config :=
  match m with
  | [] => Some c
  | (k, v) :: m' =>
    let '(mkConfig a r t p h s w) := c in
    if selects k "scroll_acceleration" then
      n ← decodeInt v a; decodeConfigFields m' (mkConfig n r t p h s w)
    else if selects k "scroll_repeat_threshold" then
      n ← decodeInt v r; decodeConfigFields m' (mkConfig a n t p h s w)
    else if selects k "scroll_repeat_timeout_ms" then
      n ← decodeInt v t; decodeConfigFields m' (mkConfig a r n p h s w)
    else if selects k "page_scroll_step" then
      n ← decodeInt v p; decodeConfigFields m' (mkConfig a r t n h s w)
    else if selects k "max_history_entries" then
      n ← decodeInt v h; decodeConfigFields m' (mkConfig a r t p n s w)
    else if selects k "connection_check_sec" then
      n ← decodeInt v s; decodeConfigFields m' (mkConfig a r t p h n w)
    else if selects k "max_column_width" then
      n ← decodeInt v w; decodeConfigFields m' (mkConfig a r t p h s n)
    else decodeConfigFields m' c
  end.

(** [json.Unmarshal(b, &cfg)] with [cfg] a zero [Config]: the value of [cfg]
    afterwards, [None] when an error is returned. *)
Definition Unmarshal_config (b : string) : option Config :=
  v ← parse b;
  match v with
  | VNil => Some zeroConfig
  | VMap m => decodeConfigFields m zeroConfig
  | _ => None
  end.

Definition configMember (name : string) (n : Z) : string :=
  "  " +:+ dquote +:+ name +:+ dquote +:+ ": " +:+ itoa n.

(** [json.MarshalIndent(cfg, "", "  ")] for a [*Config]; it has no error. *)
Definition MarshalIndent_config (c : Config) : string :=
  "{" +:+ newline +:+
  join ("," +:+ newline)
    [configMember "scroll_acceleration" (ScrollAcceleration c);
     configMember "scroll_repeat_threshold" (ScrollRepeatThreshold c);
     configMember "scroll_repeat_timeout_ms" (ScrollRepeatTimeoutMs c);
     configMember "page_scroll_step" (PageScrollStep c);
     configMember "max_history_entries" (MaxHistoryEntries c);
     configMember "connection_check_sec" (ConnectionCheckSec c);
     configMember "max_column_width" (MaxColumnWidth c)]
  +:+ newline +:+ "}".

(** [[
func saveConfig(cfg *Config) error {
	p, err := configPath()
	if err != nil {
		return err
	}
	if err := os.MkdirAll(filepath.Dir(p), 0o755); err != nil {
		return err
	}
	b, err := json.MarshalIndent(cfg, "", "  ")
	if err != nil {
		return err
	}
	return ioutil.WriteFile(p, b, 0o644)
}
]] *)
Definition saveConfig (env : Env) (fs : FS) (cfg : Config) : FS * option string :=
  match configPath env with
  | RErr err => (fs, Some err)
  | ROk p =>
    match MkdirAll fs (filepath_Dir p) with
    | Some err => (fs, Some err)
    | None => WriteFile fs p (MarshalIndent_config cfg)
    end
  end.

(** [[
func loadConfig() ( *Config, error ) {
	p, err := configPath()
	if err != nil {
		cfg := DefaultConfig()
		return &cfg, nil
	}
	b, err := ioutil.ReadFile(p)
	if os.IsNotExist(err) {
		// Create default config file
		cfg := DefaultConfig()
		saveConfig(&cfg)
		return &cfg, nil
	}
	if err != nil {
		cfg := DefaultConfig()
		return &cfg, nil
	}
	var cfg Config
	if err := json.Unmarshal(b, &cfg); err != nil {
		// If corrupted, return default config
		defCfg := DefaultConfig()
		return &defCfg, nil
	}
	return &cfg, nil
}
]]
    The error returned is always [nil]; the result here is the
    configuration and the file system afterwards. *)
Definition loadConfig (env : Env) (fs : FS) : Config * FS :=
  match configPath env with
  | RErr _ => (DefaultConfig, fs)
  | ROk p =>
    match ReadFile fs p with
    | ReadNotExist => (DefaultConfig, (saveConfig env fs DefaultConfig).1)
    | ReadErr _ => (DefaultConfig, fs)
    | ReadOk b =>
      match Unmarshal_config b with
      | None => (DefaultConfig, fs)
      | Some cfg => (cfg, fs)
      end
    end
  end.

(** ** Keys, focus and borders *)

(** The keys of [tcell] that the handlers tell apart; [KeyNUL] is the zero
    value of the type. *)
Inductive Key : Type :=
  KeyNUL | KeyPgDn | KeyPgUp | KeyDown | KeyUp | KeyTab | KeyEnter | KeyRune.

Global Instance Key_eq_dec : EqDecision Key.
Proof. solve_decision. Defined.

Inductive Color : Type := ColorWhite | ColorGreen.

(** A [tview.Primitive]: one of the five panes, or another widget. *)
Inductive Primitive : Type := PaneWidget (p : Pane) | OtherWidget.

(** The border colours of the five panes. *)
Record Borders : Type := mkBorders {
  historyListBorder : Color;
  editorBorder : Color;
  resultsTableBorder : Color;
  detailViewBorder : Color;
  rawViewBorder : Color
}.

(** [[
	updateFocusColors = func(focused tview.Primitive) {
		// Reset all borders to default color
		historyList.SetBorderColor(tcell.ColorWhite)
		editor.SetBorderColor(tcell.ColorWhite)
		resultsTable.SetBorderColor(tcell.ColorWhite)
		detailView.SetBorderColor(tcell.ColorWhite)
		rawView.SetBorderColor(tcell.ColorWhite)

		// Highlight focused pane with green
		switch focused {
		case historyList:
			historyList.SetBorderColor(tcell.ColorGreen)
		case editor:
			editor.SetBorderColor(tcell.ColorGreen)
		case resultsTable:
			resultsTable.SetBorderColor(tcell.ColorGreen)
		case detailView:
			detailView.SetBorderColor(tcell.ColorGreen)
		case rawView:
			rawView.SetBorderColor(tcell.ColorGreen)
		}
	}
]] *)
Definition updateFocusColors (focused : Primitive) (b : Borders) : Borders :=
  let b := mkBorders ColorWhite ColorWhite ColorWhite ColorWhite ColorWhite in
  match focused with
  | PaneWidget HistoryPane =>
    mkBorders ColorGreen (editorBorder b) (resultsTableBorder b) (detailViewBorder b)
      (rawViewBorder b)
  | PaneWidget Editor =>
    mkBorders (historyListBorder b) ColorGreen (resultsTableBorder b) (detailViewBorder b)
      (rawViewBorder b)
  | PaneWidget Results =>
    mkBorders (historyListBorder b) (editorBorder b) ColorGreen (detailViewBorder b)
      (rawViewBorder b)
  | PaneWidget Detail =>
    mkBorders (historyListBorder b) (editorBorder b) (resultsTableBorder b) ColorGreen
      (rawViewBorder b)
  | PaneWidget Raw =>
    mkBorders (historyListBorder b) (editorBorder b) (resultsTableBorder b)
      (detailViewBorder b) ColorGreen
  | OtherWidget => b
  end.

(** The pane that [Tab] moves to:
[[
			switch app.GetFocus() {
			case editor:
				nextFocus = historyList
			case historyList:
				nextFocus = resultsTable
			case resultsTable:
				nextFocus = detailView
			case detailView:
				nextFocus = rawView
			default:
				nextFocus = editor
			}
]] *)
Definition nextFocus (focused : Primitive) : Pane :=
  match focused with
  | PaneWidget Editor => HistoryPane
  | PaneWidget HistoryPane => Results
  | PaneWidget Results => Detail
  | PaneWidget Detail => Raw
  | _ => Editor
  end.

(** ** Scrolling the results table *)

(** The variables [lastKeyTime], [lastKey] and [keyRepeatCount]. *)
Record KeyRepeat : Type := mkKeyRepeat {
  lastKeyTime : Time;
  lastKey : Key;
  keyRepeatCount : Z
}.

Definition initialKeyRepeat : KeyRepeat := mkKeyRepeat zeroTime KeyNUL 0.

(** [t.Sub(u)]: the duration between two instants in nanoseconds, the
    largest or smallest [Duration] when it does not fit. *)
Definition time_Sub (t u : Time) : Z :=
  if max_int <? t - u then max_int
  else if t - u <? min_int then min_int
  else t - u.

(** [time.Millisecond], in nanoseconds. *)
Definition Millisecond : Z := 1000000.

(** [GetRowCount] of the table: rows exist up to the last one that was given
    a cell. *)
Fixpoint GetRowCount (t : Table) : Z :=
  match t with
  | [] => 0
  | r :: t' =>
    let n := GetRowCount t' in
    if (n =? 0) && (match r with [] => true | _ => false end) then 0 else n + 1
  end.

(** The rows that the table has. *)
Definition tableRows (t : Table) : Table := take (Z.to_nat (GetRowCount t)) t.

(** The step of an arrow key, and the three variables afterwards:
[[
			isRepeat := false
			if event.Key() == lastKey && now.Sub(lastKeyTime) < time.Duration(cfg.ScrollRepeatTimeoutMs)*time.Millisecond {
				keyRepeatCount++
				isRepeat = true
			} else {
				keyRepeatCount = 0
			}
			lastKey = event.Key()
			lastKeyTime = now

			// Calculate scroll step: start with 1, accelerate after threshold
			step := 1
			if isRepeat && keyRepeatCount > cfg.ScrollRepeatThreshold {
				step = cfg.ScrollAcceleration
			}
]] *)
Definition repeatStep (cfg : Config) (key : Key) (now : Time) (kr : KeyRepeat)
  : Z * KeyRepeat :=
  let isRepeat :=
    bool_decide (key = lastKey kr)
    && (time_Sub now (lastKeyTime kr) <? wrap_int (ScrollRepeatTimeoutMs cfg * Millisecond)) in
  let count := if isRepeat then wrap_int (keyRepeatCount kr + 1) else 0 in
  let step :=
    if isRepeat && (ScrollRepeatThreshold cfg <? count) then ScrollAcceleration cfg else 1 in
  (step, mkKeyRepeat now key count).

(** The row a downward move selects, and the row an upward move selects:
[[
				newRow = row + step
				if newRow >= rowCount {
					newRow = rowCount - 1
				}
]]
[[
				newRow = row - step
				if newRow < 1 {
					newRow = 1
				}
]] *)
Definition rowDown (row step rowCount : Z) : Z :=
  let newRow := wrap_int (row + step) in
  if rowCount <=? newRow then rowCount - 1 else newRow.

Definition rowUp (row step : Z) : Z :=
  let newRow := wrap_int (row - step) in
  if newRow <? 1 then 1 else newRow.

Section Application.

Context (fmtFloat : string → string).
Context (formatTime : Time → option string).
(** [t.Format("2006-01-02 15:04:05")] *)
Context (formatStamp : Time → string).

(** The handler installed with [resultsTable.SetInputCapture], called with
    the key of the event and the reading [now] of the clock: the three
    variables and the session afterwards, and whether the key was taken
    ([return nil]) rather than passed on ([return event]). *)
Definition scrollCapture (cfg : Config) (key : Key) (now : Time) (kr : KeyRepeat)
    (st : Session) : KeyRepeat * Session * bool :=
  let '(row, col) := selection st in
  let rowCount := GetRowCount (tableCells st) in
  match key with
  | KeyPgDn =>
    (kr, tableSelect fmtFloat (rowDown row (PageScrollStep cfg) rowCount) col st, true)
  | KeyPgUp =>
    (kr, tableSelect fmtFloat (rowUp row (PageScrollStep cfg)) col st, true)
  | KeyDown =>
    let '(step, kr') := repeatStep cfg key now kr in
    (kr', tableSelect fmtFloat (rowDown row step rowCount) col st, true)
  | KeyUp =>
    let '(step, kr') := repeatStep cfg key now kr in
    (kr', tableSelect fmtFloat (rowUp row step) col st, true)
  | _ => (kr, st, false)
  end.

(** ** The history list *)

(** An item of the list: its text, and the index that its callback holds. *)
Record ListItem : Type := mkItem { itemLabel : string; itemIndex : Z }.

(** The string literal of the source between the time and the query: U+2014
    in UTF-8, with a space on each side. *)
Definition emdash : string := bytes [226; 128; 148].

Definition historyLabel (e : HistoryEntry) : string :=
  formatStamp (Timestamp e) +:+ " " +:+ emdash +:+ " " +:+ Query e.

(** [[
	refreshHistoryList := func() {
		historyList.Clear()
		for i, e := range hist.Entries {
			label := fmt.Sprintf("%s — %s", e.Timestamp.Format("2006-01-02 15:04:05"), e.Query)
			// capture index
			idx := i
			historyList.AddItem(label, "", 0, func() {
				editor.SetText(hist.Entries[idx].Query, true)
				app.SetFocus(editor)
				updateFocusColors(editor)
			})
			if i >= 100 {
				break
			}
		}
	}
]]
    [refreshFrom i es] is the loop from index [i] on. *)
Fixpoint refreshFrom (i : Z) (es : list HistoryEntry) : list ListItem :=
  match es with
  | [] => []
  | e :: es' =>
    mkItem (historyLabel e) i :: (if 100 <=? i then [] else refreshFrom (i + 1) es')
  end.

Definition refreshHistoryList (h : History) : list ListItem := refreshFrom 0 (Entries h).

(** The part of the screen that the handlers below share: the session, the
    borders, the text of the editor and the items of the history list.  (The
    preview pane, which the list updates through its own callback, is not
    part of it.) *)
Record App : Type := mkApp {
  session : Session;
  borders : Borders;
  editorText : string;
  listItems : list ListItem
}.

(** The callback of the list item that holds [idx]; [None] when the index
    expression panics. *)
Definition itemSelected (idx : Z) (app : App) : option App :=
  e ← index (Entries (hist (session app))) idx;
  Some (mkApp (set_focus Editor (session app))
              (updateFocusColors (PaneWidget Editor) (borders app))
              (Query e) (listItems app)).

(** [Tab], with [focused] what [app.GetFocus()] returns:
[[
			app.SetFocus(nextFocus)
			updateFocusColors(nextFocus)
]] *)
Definition tabKey (focused : Primitive) (app : App) : App :=
  let next := nextFocus focused in
  mkApp (set_focus next (session app)) (updateFocusColors (PaneWidget next) (borders app))
        (editorText app) (listItems app).

(** [runQuery] with the list: the list is refreshed when the history was
    saved.
[[
		appendHistory(hist, query, cfg.MaxHistoryEntries)
		if err := saveHistory(hist); err != nil {
			setStatus("[red]Failed to save history: %v", err)
		} else {
			refreshHistoryList()
		}
]] *)
Definition runQueryApp (cfg : Config) (env : Env) (fs : FS) (query : string) (now : Time)
    (app : App) : option (App * FS) :=
  '(st, fs') ← runQuery formatTime cfg env fs query now (session app);
  let items :=
    match (saveHistory formatTime env fs (hist st)).2 with
    | Some _ => listItems app
    | None => refreshHistoryList (hist st)
    end in
  Some (mkApp st (borders app) (editorText app) items, fs').

(** [Enter], with the editor focused:
[[
		if ev.Key() == tcell.KeyEnter && app.GetFocus() == editor {
			q := editor.GetText()
			runQuery(q)
			return nil
		}
]] *)
Definition enterKey (cfg : Config) (env : Env) (fs : FS) (now : Time) (app : App)
  : option (App * FS) :=
  runQueryApp cfg env fs (editorText app) now app.

(** The key [d] in the history list, with [currentItem] what
    [historyList.GetCurrentItem()] returns: the screen and the file system
    afterwards, and the argument of [SetCurrentItem] when it is called.
[[
			currentItem := historyList.GetCurrentItem()
			if currentItem >= 0 && currentItem < len(hist.Entries) {
				// Remove the entry from history
				hist.Entries = append(hist.Entries[:currentItem], hist.Entries[currentItem+1:]...)
				// Save updated history
				if err := saveHistory(hist); err != nil {
					setStatus("[red]Failed to save history: %v", err)
				} else {
					// Refresh the list
					refreshHistoryList()
					// Try to select the same position or the last item
					newCount := historyList.GetItemCount()
					if newCount > 0 {
						if currentItem >= newCount {
							historyList.SetCurrentItem(newCount - 1)
						} else {
							historyList.SetCurrentItem(currentItem)
						}
					} else {
						historyPreview.SetText("[gray]No history")
					}
					setStatus("[green]History entry deleted")
				}
			}
]] *)
Definition deleteKey (env : Env) (fs : FS) (currentItem : Z) (app : App)
  : App * FS * option Z :=
  let st := session app in
  if (0 <=? currentItem) && (currentItem <? len (Entries (hist st))) then
    let st := set_hist (deleteHistory (hist st) currentItem) st in
    let '(fs', err) := saveHistory formatTime env fs (hist st) in
    match err with
    | Some e =>
      (mkApp (set_statusText ("[red]Failed to save history: " +:+ e) st)
             (borders app) (editorText app) (listItems app), fs', None)
    | None =>
      let items := refreshHistoryList (hist st) in
      let newCount := len items in
      let selected :=
        if 0 <? newCount
        then Some (if newCount <=? currentItem then newCount - 1 else currentItem)
        else None in
      (mkApp (set_statusText "[green]History entry deleted" st)
             (borders app) (editorText app) items, fs', selected)
    end
  else (app, fs, None).

(** ** The older copy ([part_000])

    [renderJSONToTable] with [const maxColWidth = 40] in place of the
    configured width. *)
Definition renderJSONToTable40 (data : list Row) (columns : list string)
  : list string * option Table :=
  match data with
  | [] => (columns, Some [])
  | first :: _ =>
    let cols := tableColumns first in
    let maxColWidth := 40 in
    let colWidths k := colWidth fmtFloat maxColWidth data k in
    let header := (λ k, mkCell k (colWidths k)) <$> cols in
    let rows :=
      mapM (λ row,
              mapM (λ k, s ← cellText fmtFloat (colWidths k) (rowGet row k);
                         Some (mkCell s (colWidths k))) cols)
           data in
    (cols, (header ::.) <$> rows)
  end.

(** [updateDetailView] without [sort.Strings(keys)]: the lines follow the
    order [visit] in which [for k := range rowData] yields the keys, which
    Go leaves unspecified. *)
Definition updateDetailView_range (visit : Row → list string) (st : Session) : Session :=
  let row := (selection st).1 in
  if (row <=? 0) || (len (currentData st) <? row)
  then set_detailText "[yellow]No row selected" st
  else
    match index (currentData st) (row - 1) with
    | Some rowData =>
      set_detailText
        ("[yellow::b]Row " +:+ itoa row +:+ "/" +:+ itoa (len (currentData st)) +:+ "[white]"
         +:+ newline +:+ String.concat "" (detailLine fmtFloat rowData <$> visit rowData)) st
    | None => st
    end.

End Application.

(** ** Notions used in the statements *)

(** The fields of a [Config] by the key of their tag. *)
Definition configFields : list (string * (Config → Z)) :=
  [("scroll_acceleration", ScrollAcceleration);
   ("scroll_repeat_threshold", ScrollRepeatThreshold);
   ("scroll_repeat_timeout_ms", ScrollRepeatTimeoutMs);
   ("page_scroll_step", PageScrollStep);
   ("max_history_entries", MaxHistoryEntries);
   ("connection_check_sec", ConnectionCheckSec);
   ("max_column_width", MaxColumnWidth)].

(** A configuration as Go holds it: seven 64-bit integers. *)
Definition config_in_int (c : Config) : Prop :=
  Forall (λ f, in_int (f.2 c)) configFields.

Definition borderOf (b : Borders) (p : Pane) : Color :=
  match p with
  | Editor => editorBorder b
  | HistoryPane => historyListBorder b
  | Results => resultsTableBorder b
  | Detail => detailViewBorder b
  | Raw => rawViewBorder b
  end.

(** The green border is on the focused pane and on no other. *)
Definition highlights (b : Borders) (p : Pane) : Prop :=
  ∀ q, borderOf b q = ColorGreen ↔ q = p.

(** The session's table agrees with its rows: the count is the number of
    rows and, when there are rows, the columns are those of the first row;
    the table then has no row when there is no column, and otherwise a
    header and one row per data row, each row with one cell per column. *)
Definition table_agrees (st : Session) : Prop :=
  currentRowCount st = len (currentData st) ∧
  match currentData st with
  | [] => tableCells st = []
  | first :: _ =>
    currentColumns st = tableColumns first ∧
    GetRowCount (tableCells st)
    = match currentColumns st with [] => 0 | _ => len (currentData st) + 1 end ∧
    Forall (λ r, length r = length (currentColumns st)) (tableRows (tableCells st))
  end.

(** The bytes that [url.QueryEscape] leaves or produces: letters, digits,
    [-], [_], [.], [~], and [+] and [%]. *)
Definition url_byte (b : Z) : bool :=
  ((97 <=? b) && (b <=? 122)) || ((65 <=? b) && (b <=? 90)) || is_digit b
  || (b =? 45) || (b =? 95) || (b =? 46) || (b =? 126) || (b =? 43) || (b =? 37).

Fixpoint all_url_bytes (s : string) : bool :=
  match s with
  | EmptyString => true
  | String c s' => url_byte (byte_val c) && all_url_bytes s'
  end.

(** White space at neither end: the first rune and the last rune are not
    spaces. *)
Definition no_outer_space (s : string) : Prop :=
  IsSpace (decodeRune s).1 = false ∧ IsSpace (decodeLastRune s).1 = false.

(** The times of a run of operations, in the order of the run. *)
Definition opTimes (ops : list HistoryOp) : list Time :=
  omap (λ o, match o with OpAppend _ now => Some now | OpDelete _ => None end) ops.

Definition timestamps (h : History) : list Time := Timestamp <$> Entries h.

(** Arrow-key presses at the given times, from the variables [kr]: the step
    of each press, and the variables after the last. *)
Fixpoint pressRun (cfg : Config) (key : Key) (times : list Time) (kr : KeyRepeat)
  : list Z * KeyRepeat :=
  match times with
  | [] => ([], kr)
  | now :: times' =>
    let '(step, kr') := repeatStep cfg key now kr in
    let '(steps, kr'') := pressRun cfg key times' kr' in
    (step :: steps, kr'')
  end.

(** Each time is less than [gap] nanoseconds after the one before. *)
Fixpoint rapid (gap : Z) (prev : Time) (times : list Time) : Prop :=
  match times with
  | [] => True
  | now :: times' => prev <= now < prev + gap ∧ rapid gap now times'
  end.



(** The reading of an escaped query, as the server makes it: [+] is a
    space, [%] and two hexadecimal digits are one byte. *)
Definition unescape_byte (h l : ascii) : option ascii :=
  d1 ← hexval (byte_val h); d2 ← hexval (byte_val l);
  Some (byte (Z.to_nat (d1 * 16 + d2))).

Fixpoint unescape (s : string) : option string :=
  match s with
  | EmptyString => Some EmptyString
  | String c s1 =>
    if byte_val c =? 37 then
      match s1 with
      | String h (String l s2) =>
        b ← unescape_byte h l; r ← unescape s2; Some (String b r)
      | _ => None
      end
    else if byte_val c =? 43 then String " " <$> unescape s1
    else String c <$> unescape s1
  end.

(** ** The layout of a saved configuration

    The text that [MarshalIndent] writes for a [Config], grouped the way
    the parser reads it: the members [(k, n)] and what follows each. *)
Fixpoint membersText (k : string) (n : Z) (more : list (string * Z)) (rest : string)
  : string :=
  match more with
  | [] =>
    ws2 +:+ dquote +:+ k +:+ dquote +:+ ":" +:+
      (" " +:+ itoa n +:+ (newline +:+ "}" +:+ rest))
  | (k', n') :: more' =>
    ws2 +:+ dquote +:+ k +:+ dquote +:+ ":" +:+
      (" " +:+ itoa n +:+ ("" +:+ "," +:+ membersText k' n' more' rest))
  end.

Definition memberValue (kn : string * Z) : string * value := (kn.1, VFloat (itoa kn.2)).

Definition configMembers (c : Config) : list (string * Z) :=
  (λ f, (f.1, f.2 c)) <$> configFields.

(** A value that cannot be stored in an [int]: not [null], and not a number
    literal that [ParseInt] accepts. *)
Definition not_an_int (v : value) : Prop :=
  match v with
  | VNil => False
  | VFloat lit => ParseInt lit = None
  | _ => True
  end.

(** ** Sample data *)

(** A file system on which the history file cannot be written. *)
Definition denied_fs : FS := mkFS ∅ {[ "/home/op/.config/dbx/history.json" ]}.

Definition stamp (t : Time) : string := itoa t.

Definition two_entries : App :=
  mkApp (initialSession (mkHistory [mkEntry "select 2" 0; mkEntry "select 1" 0]))
        (mkBorders ColorWhite ColorWhite ColorWhite ColorWhite ColorWhite) ""
        (refreshHistoryList stamp (mkHistory [mkEntry "select 2" 0; mkEntry "select 1" 0])).

(** * Properties *)

(** ** The history store *)

Lemma len_nonneg {A} (l : list A) : 0 <= len l.
Proof. unfold len. lia. Qed.

Lemma len_cons {A} (x : A) l : len (x :: l) = len l + 1.
Proof. unfold len. simpl. lia. Qed.

Lemma prependHistory_take h q maxLen now :
  0 <= maxLen →
  prependHistory h q maxLen now
  = Some (mkHistory (take (Z.to_nat maxLen) (mkEntry q now :: Entries h))).
Proof.
  intros Hm. unfold prependHistory, slice_list_to.
  destruct (Z.ltb_spec maxLen (len (mkEntry q now :: Entries h))) as [Hlt|Hge].
  - assert (Hc : (0 <=? maxLen) && (maxLen <=? len (mkEntry q now :: Entries h)) = true).
    { apply andb_true_iff. split; [apply Z.leb_le | apply Z.leb_le]; lia. }
    rewrite Hc. reflexivity.
  - rewrite take_ge; [reflexivity|]. unfold len in Hge. lia.
Qed.

Lemma prependHistory_negative h q maxLen now :
  maxLen < 0 → prependHistory h q maxLen now = None.
Proof.
  intros Hm. unfold prependHistory, slice_list_to.
  pose proof (len_nonneg (mkEntry q now :: Entries h)).
  destruct (Z.ltb_spec maxLen (len (mkEntry q now :: Entries h))); [|lia].
  destruct (Z.leb_spec 0 maxLen); [lia|]. reflexivity.
Qed.

Lemma appendHistory_blank h query maxLen now :
  TrimSpace query = "" → appendHistory h query maxLen now = Some h.
Proof. intros Hq. unfold appendHistory. rewrite Hq. reflexivity. Qed.

Lemma appendHistory_touch h query maxLen now e0 rest :
  TrimSpace query ≠ "" → Entries h = e0 :: rest → Query e0 = TrimSpace query →
  appendHistory h query maxLen now
  = Some (mkHistory (mkEntry (TrimSpace query) now :: rest)).
Proof.
  intros Hq He H0. unfold appendHistory.
  apply String.eqb_neq in Hq. rewrite Hq, He.
  rewrite (proj2 (String.eqb_eq _ _) H0). unfold touch. rewrite H0. reflexivity.
Qed.

Lemma appendHistory_prepend h query maxLen now :
  TrimSpace query ≠ "" → head (queries h) ≠ Some (TrimSpace query) →
  appendHistory h query maxLen now = prependHistory h (TrimSpace query) maxLen now.
Proof.
  intros Hq Hhd. unfold appendHistory. apply String.eqb_neq in Hq. rewrite Hq.
  unfold queries in Hhd. destruct (Entries h) as [|e0 rest]; [reflexivity|].
  destruct (String.eqb_spec (Query e0) (TrimSpace query)) as [E|E]; [|reflexivity].
  exfalso. apply Hhd. simpl. by rewrite E.
Qed.

(** After an append of a non-blank query with room for one entry, the
    query is at the head, stamped with the time of the call. *)
Lemma appendHistory_head h query maxLen now :
  1 <= maxLen → TrimSpace query ≠ "" →
  ∃ rest, appendHistory h query maxLen now
          = Some (mkHistory (mkEntry (TrimSpace query) now :: rest)).
Proof.
  intros Hm Hq.
  destruct (decide (head (queries h) = Some (TrimSpace query))) as [Hhd|Hhd].
  - unfold queries in Hhd. destruct (Entries h) as [|e0 rest] eqn:He; [done|].
    simpl in Hhd. injection Hhd as Hhd.
    exists rest. by apply (appendHistory_touch _ _ _ _ e0 rest).
  - rewrite appendHistory_prepend, prependHistory_take by (done || lia).
    exists (take (Z.to_nat maxLen - 1) (Entries h)).
    replace (Z.to_nat maxLen) with (S (Z.to_nat maxLen - 1)) at 1 by lia.
    reflexivity.
Qed.

Lemma appendHistory_twice h query maxLen t1 t2 :
  1 <= maxLen → TrimSpace query ≠ "" →
  ∃ rest,
    appendHistory h query maxLen t1
    = Some (mkHistory (mkEntry (TrimSpace query) t1 :: rest)) ∧
    appendHistory (mkHistory (mkEntry (TrimSpace query) t1 :: rest)) query maxLen t2
    = Some (mkHistory (mkEntry (TrimSpace query) t2 :: rest)).
Proof.
  intros Hm Hq. destruct (appendHistory_head h query maxLen t1 Hm Hq) as [rest Hr].
  exists rest. split; [done|].
  by apply (appendHistory_touch _ _ _ _ (mkEntry (TrimSpace query) t1) rest).
Qed.

Lemma take_cons_take {A} n (x : A) l : take n (x :: take n l) = take n (x :: l).
Proof.
  destruct n as [|n]; [done|]. simpl. f_equal.
  rewrite take_take. f_equal. lia.
Qed.

Lemma take_app_take_le {A} n m (l1 l2 : list A) :
  (n <= m)%nat → take n (l1 ++ take m l2) = take n (l1 ++ l2).
Proof.
  revert n. induction l1 as [|x l1 IH]; intros n Hn; simpl.
  - rewrite take_take. f_equal. lia.
  - destruct n as [|n]; [done|]. simpl. f_equal. apply IH. lia.
Qed.

Lemma take_app_take {A} n (l1 l2 : list A) : take n (l1 ++ take n l2) = take n (l1 ++ l2).
Proof. by apply take_app_take_le. Qed.

Lemma appendHistory_apart h q r maxLen t1 t2 t3 :
  3 <= maxLen → TrimSpace q ≠ "" → TrimSpace r ≠ "" → TrimSpace q ≠ TrimSpace r →
  ∃ h1 h2 rest,
    appendHistory h q maxLen t1 = Some h1 ∧
    appendHistory h1 r maxLen t2 = Some h2 ∧
    appendHistory h2 q maxLen t3
    = Some (mkHistory (mkEntry (TrimSpace q) t3 :: mkEntry (TrimSpace r) t2
                       :: mkEntry (TrimSpace q) t1 :: rest)).
Proof.
  intros Hm Hq Hr Hqr.
  destruct (appendHistory_head h q maxLen t1 ltac:(lia) Hq) as [rest1 H1].
  eexists _, _, (take (Z.to_nat maxLen - 3) rest1). split; [exact H1|].
  rewrite appendHistory_prepend, prependHistory_take; [|lia|done|].
  2:{ unfold queries. simpl. congruence. }
  split; [reflexivity|].
  rewrite appendHistory_prepend, prependHistory_take; [|lia|done|].
  2:{ unfold queries. simpl.
      replace (Z.to_nat maxLen) with (S (Z.to_nat maxLen - 1)) by lia. simpl. congruence. }
  simpl Entries. rewrite take_cons_take.
  replace (Z.to_nat maxLen) with (3 + (Z.to_nat maxLen - 3))%nat at 1 by lia.
  reflexivity.
Qed.

(** *** Eviction *)

Lemma NoDup_no_consec_dup qs : NoDup qs → no_consec_dup qs.
Proof.
  induction 1 as [|q qs Hq _ IH]; [done|].
  destruct qs as [|q2 qs]; [done|]. split; [|done].
  intros ->. apply Hq. left.
Qed.

Lemma no_consec_dup_tail q qs : no_consec_dup (q :: qs) → no_consec_dup qs.
Proof. destruct qs; simpl; tauto. Qed.

Lemma runHistory_appends maxLen qs :
  0 <= maxLen →
  ∀ es,
    len es <= maxLen →
    Forall (λ q, q ≠ "") (trimmed qs) →
    no_consec_dup (trimmed qs) →
    (∀ q, head (trimmed qs) = Some q → head (Query <$> es) ≠ Some q) →
    runHistory maxLen (mkHistory es) (appendOps qs)
    = Some (mkHistory (take (Z.to_nat maxLen) (reverse (entriesOf qs) ++ es))).
Proof.
  intros Hm. induction qs as [|[q t] qs IH]; intros es Hlen Hnb Hnd Hhd.
  - simpl. rewrite take_ge; [done|]. unfold len in Hlen. lia.
  - simpl in *. apply Forall_cons in Hnb as [Hq Hnb].
    rewrite appendHistory_prepend, prependHistory_take; [|lia|done|].
    2:{ unfold queries. simpl. by apply Hhd. }
    simpl. rewrite IH; clear IH.
    + f_equal. f_equal. rewrite reverse_cons, <- app_assoc. simpl.
      apply take_app_take.
    + unfold len. rewrite length_take. lia.
    + done.
    + by eapply no_consec_dup_tail.
    + intros q2 Hq2. destruct qs as [|[q2' t2] qs]; [done|].
      simpl in Hq2. injection Hq2 as <-. destruct Hnd as [Hne _].
      destruct (Z.to_nat maxLen); simpl; [done|]. intros [= E]. by apply Hne.
Qed.

Lemma appendHistory_eviction maxLen (qs : list (string * Time)) :
  0 <= maxLen → len qs = maxLen + 5 →
  Forall (λ q, q ≠ "") (trimmed qs) → NoDup (trimmed qs) →
  ∃ h, runHistory maxLen emptyHistory (appendOps qs) = Some h ∧
       Entries h = take (Z.to_nat maxLen) (reverse (entriesOf qs)) ∧
       len (Entries h) = maxLen.
Proof.
  intros Hm Hlen Hnb Hnd. eexists. split; [|split].
  - apply runHistory_appends; [done| | done | by apply NoDup_no_consec_dup | ].
    + unfold len. simpl. lia.
    + intros q _. simpl. done.
  - simpl. by rewrite app_nil_r.
  - simpl. rewrite app_nil_r. unfold len in *.
    rewrite length_take, length_reverse. unfold entriesOf. rewrite length_fmap. lia.
Qed.

(** *** The invariants *)

Lemma no_consec_dup_cons q qs :
  no_consec_dup (q :: qs) ↔ head qs ≠ Some q ∧ no_consec_dup qs.
Proof.
  destruct qs as [|q2 qs]; simpl; [naive_solver|].
  split; intros [H1 H2]; (split; [|done]); congruence.
Qed.

Lemma no_consec_dup_take n qs : no_consec_dup qs → no_consec_dup (take n qs).
Proof.
  revert n. induction qs as [|q qs IH]; intros n H; [by rewrite take_nil|].
  destruct n as [|n]; [done|]. simpl take.
  apply no_consec_dup_cons in H as [Hhd H]. apply no_consec_dup_cons. split; [|by apply IH].
  destruct qs, n; simpl in *; done.
Qed.

Lemma prependHistory_within_max h q maxLen now h' :
  prependHistory h q maxLen now = Some h' → within_max maxLen h'.
Proof.
  destruct (Z.lt_ge_cases maxLen 0) as [Hneg|Hm].
  - by rewrite prependHistory_negative.
  - rewrite prependHistory_take by done. intros [= <-].
    unfold within_max, len. simpl Entries. rewrite length_take. lia.
Qed.

Lemma appendHistory_within_max h query maxLen now h' :
  within_max maxLen h → appendHistory h query maxLen now = Some h' →
  within_max maxLen h'.
Proof.
  intros Hh. unfold appendHistory.
  destruct (String.eqb (TrimSpace query) ""); [by intros [= <-]|].
  destruct (Entries h) as [|e0 rest] eqn:He; [apply prependHistory_within_max|].
  destruct (String.eqb (Query e0) (TrimSpace query)); [|apply prependHistory_within_max].
  intros [= <-]. unfold within_max in *. rewrite He in Hh. exact Hh.
Qed.

Lemma deleteHistory_within_max h maxLen i :
  within_max maxLen h → within_max maxLen (deleteHistory h i).
Proof.
  unfold within_max, deleteHistory, len. intros Hh.
  destruct ((0 <=? i) && (i <? Z.of_nat (length (Entries h)))); [|done].
  simpl. rewrite length_app, length_take, length_drop. lia.
Qed.

Lemma appendHistory_no_consec_dup h query maxLen now h' :
  no_consec_dup (queries h) → appendHistory h query maxLen now = Some h' →
  no_consec_dup (queries h').
Proof.
  intros Hh.
  destruct (decide (TrimSpace query = "")) as [Hq|Hq].
  { rewrite appendHistory_blank by done. by intros [= <-]. }
  destruct (decide (head (queries h) = Some (TrimSpace query))) as [Hhd|Hhd].
  - unfold queries in Hhd, Hh. destruct (Entries h) as [|e0 rest] eqn:He; [done|].
    simpl in Hhd. injection Hhd as Hhd.
    rewrite (appendHistory_touch _ _ _ _ e0 rest) by done. intros [= <-].
    unfold queries. simpl in *. by rewrite <- Hhd.
  - rewrite appendHistory_prepend by done.
    destruct (Z.lt_ge_cases maxLen 0) as [Hneg|Hm].
    { by rewrite prependHistory_negative. }
    rewrite prependHistory_take by done. intros [= <-].
    unfold queries. simpl Entries. rewrite fmap_take. apply no_consec_dup_take.
    rewrite fmap_cons. apply no_consec_dup_cons. by split.
Qed.

Lemma reachable_within_max maxLen h :
  0 <= maxLen → reachable maxLen h → within_max maxLen h.
Proof.
  intros Hm [ops Hops]. revert Hops.
  assert (H0 : within_max maxLen emptyHistory) by (unfold within_max, len; simpl; lia).
  revert H0. generalize emptyHistory. induction ops as [|o ops IH]; intros h0 H0; simpl.
  - by intros [= <-].
  - destruct o as [q now|i]; simpl.
    + destruct (appendHistory h0 q maxLen now) as [h1|] eqn:E; [|done]. simpl.
      apply IH. by eapply appendHistory_within_max.
    + apply IH. by apply deleteHistory_within_max.
Qed.

Lemma reachable_by_append_inv maxLen h :
  0 <= maxLen → reachable_by_append maxLen h → history_inv maxLen h.
Proof.
  intros Hm [ops [Happ Hops]]. split.
  { apply reachable_within_max; [done|]. by exists ops. }
  revert Hops.
  assert (H0 : no_consec_dup (queries emptyHistory)) by done.
  revert H0. generalize emptyHistory. induction ops as [|o ops IH]; intros h0 H0; simpl.
  - by intros [= <-].
  - simpl in Happ. apply andb_true_iff in Happ as [Ho Happ].
    destruct o as [q now|i]; [|done]. simpl.
    destruct (appendHistory h0 q maxLen now) as [h1|] eqn:E; [|done]. simpl.
    apply IH; [done|]. by eapply appendHistory_no_consec_dup.
Qed.

(** Removing position [i] keeps the list free of consecutive duplicates
    when the two neighbours of [i] differ. *)
Lemma no_consec_dup_delete (qs : list string) (i : nat) :
  no_consec_dup qs →
  (∀ j a b, i = S j → qs !! j = Some a → qs !! S i = Some b → a ≠ b) →
  no_consec_dup (take i qs ++ drop (S i) qs).
Proof.
  revert qs. induction i as [|i IH]; intros qs Hqs Hnb.
  - destruct qs as [|q qs]; [done|]. simpl. rewrite drop_0. by eapply no_consec_dup_tail.
  - destruct qs as [|q qs]; [done|]. simpl.
    apply no_consec_dup_cons in Hqs as [Hhd Hqs]. apply no_consec_dup_cons. split.
    + destruct i as [|i].
      * simpl. destruct qs as [|q1 [|q2 qs]]; simpl; [done..|].
        intros [= ->]. by eapply (Hnb 0%nat q q).
      * destruct qs as [|q1 qs]; simpl in *; [done|]. exact Hhd.
    + apply IH; [done|]. intros j a b -> Ha Hb. by eapply (Hnb (S j) a b).
Qed.

Lemma queries_deleteHistory h i :
  0 <= i < len (Entries h) →
  queries (deleteHistory h i)
  = take (Z.to_nat i) (queries h) ++ drop (S (Z.to_nat i)) (queries h).
Proof.
  intros Hi. unfold deleteHistory, queries.
  replace ((0 <=? i) && (i <? len (Entries h))) with true
    by (symmetry; apply andb_true_iff; split; [apply Z.leb_le|apply Z.ltb_lt]; lia).
  simpl. by rewrite fmap_app, fmap_take, fmap_drop.
Qed.

(** C2, as the code has it — [appendHistory] trims the query and does
    nothing when the trimmed query is empty; when the entry at position 0
    carries the trimmed query, only that entry's timestamp is replaced
    (same entries otherwise, same length); in every other case, whatever
    the rest of the list holds, a new entry is put in front and the list is
    cut to its first [maxLen] entries.  Hence, for a [maxLen] that leaves
    room: the same query appended twice in a row is one entry, stamped by
    the second call ([maxLen] at least 1); appended again after a different
    query it is a separate entry ([maxLen] at least 3); [maxLen + 5]
    distinct queries appended to the empty history leave exactly [maxLen]
    entries, the most recent first.  (Queries are compared after
    trimming.) *)
Theorem appendHistory_correct :
  (∀ h query maxLen now,
     let q := TrimSpace query in
     (q = "" → appendHistory h query maxLen now = Some h) ∧
     (q ≠ "" → ∀ e0 rest, Entries h = e0 :: rest → Query e0 = q →
        appendHistory h query maxLen now = Some (mkHistory (mkEntry q now :: rest))
        ∧ len (mkEntry q now :: rest) = len (Entries h)) ∧
     (q ≠ "" → head (queries h) ≠ Some q → 0 <= maxLen →
        appendHistory h query maxLen now
        = Some (mkHistory (take (Z.to_nat maxLen) (mkEntry q now :: Entries h))))) ∧
  (∀ h query maxLen t1 t2,
     1 <= maxLen → TrimSpace query ≠ "" →
     ∃ rest,
       appendHistory h query maxLen t1
       = Some (mkHistory (mkEntry (TrimSpace query) t1 :: rest)) ∧
       appendHistory (mkHistory (mkEntry (TrimSpace query) t1 :: rest)) query maxLen t2
       = Some (mkHistory (mkEntry (TrimSpace query) t2 :: rest))) ∧
  (∀ h q r maxLen t1 t2 t3,
     3 <= maxLen → TrimSpace q ≠ "" → TrimSpace r ≠ "" → TrimSpace q ≠ TrimSpace r →
     ∃ h1 h2 rest,
       appendHistory h q maxLen t1 = Some h1 ∧
       appendHistory h1 r maxLen t2 = Some h2 ∧
       appendHistory h2 q maxLen t3
       = Some (mkHistory (mkEntry (TrimSpace q) t3 :: mkEntry (TrimSpace r) t2
                          :: mkEntry (TrimSpace q) t1 :: rest))) ∧
  (∀ maxLen (qs : list (string * Time)),
     0 <= maxLen → len qs = maxLen + 5 →
     Forall (λ q, q ≠ "") (trimmed qs) → NoDup (trimmed qs) →
     ∃ h, runHistory maxLen emptyHistory (appendOps qs) = Some h ∧
          Entries h = take (Z.to_nat maxLen) (reverse (entriesOf qs)) ∧
          len (Entries h) = maxLen).
Proof.
  split; [|split; [|split]].
  - intros h query maxLen now q. subst q. split; [|split].
    + apply appendHistory_blank.
    + intros Hq e0 rest He H0. split; [by apply (appendHistory_touch _ _ _ _ e0 rest)|].
      rewrite He. by rewrite !len_cons.
    + intros Hq Hhd Hm. by rewrite appendHistory_prepend, prependHistory_take.
  - apply appendHistory_twice.
  - apply appendHistory_apart.
  - apply appendHistory_eviction.
Qed.

Lemma appendHistory_correct_witness :
  (* blank query *)
  appendHistory (mkHistory [mkEntry "select 1" 5]) "   " 200 6
  = Some (mkHistory [mkEntry "select 1" 5]) ∧
  (* only position 0 is compared: the query is in the list, not in front *)
  appendHistory (mkHistory [mkEntry "select 2" 5; mkEntry "select 1" 4]) " select 1 " 200 6
  = Some (mkHistory [mkEntry "select 1" 6; mkEntry "select 2" 5; mkEntry "select 1" 4]) ∧
  (* twice in a row *)
  (∃ rest,
     appendHistory emptyHistory "select 1" 200 1
     = Some (mkHistory (mkEntry (TrimSpace "select 1") 1 :: rest)) ∧
     appendHistory (mkHistory (mkEntry (TrimSpace "select 1") 1 :: rest)) "select 1" 200 2
     = Some (mkHistory (mkEntry (TrimSpace "select 1") 2 :: rest))) ∧
  (* evicting with [maxLen = 2] *)
  (∃ h, runHistory 2 emptyHistory
          (appendOps [("q1", 1); ("q2", 2); ("q3", 3); ("q4", 4); ("q5", 5); ("q6", 6);
                      ("q7", 7)])
        = Some h ∧
        Entries h = take (Z.to_nat 2) (reverse
          (entriesOf [("q1", 1); ("q2", 2); ("q3", 3); ("q4", 4); ("q5", 5); ("q6", 6);
                      ("q7", 7)])) ∧
        len (Entries h) = 2).
Proof.
  destruct appendHistory_correct as (Hstep & Htwice & _ & Hevict).
  split; [|split; [|split]].
  - apply (Hstep (mkHistory [mkEntry "select 1" 5]) "   " 200 6). reflexivity.
  - apply (Hstep (mkHistory [mkEntry "select 2" 5; mkEntry "select 1" 4])
             " select 1 " 200 6); [vm_compute; discriminate..|lia].
  - apply (Htwice emptyHistory "select 1" 200 1 2); [lia|vm_compute; discriminate].
  - apply (Hevict 2); [lia|reflexivity| |].
    + vm_compute. repeat constructor; discriminate.
    + apply (bool_decide_unpack _). vm_compute. reflexivity.
Defined.

(** C2, as stated, fails for a small [maxLen]: with [maxLen = 0] (what a
    configuration file without the key gives) the same query appended twice
    in a row leaves no entry for it; with [maxLen = 2] a query appended
    again after a different one leaves two entries, not three; and with a
    negative [maxLen] the append of a new query panics.  So the consequence
    about two appends in a row does not hold for every [maxLen]. *)
Lemma appendHistory_small_max_counterexample :
  runHistory 0 emptyHistory (appendOps [("select 1", 1); ("select 1", 2)])
  = Some emptyHistory ∧
  runHistory 2 emptyHistory
    (appendOps [("select 1", 1); ("select 2", 2); ("select 1", 3)])
  = Some (mkHistory [mkEntry "select 1" 3; mkEntry "select 2" 2]) ∧
  appendHistory emptyHistory "select 1" (-1) 1 = None ∧
  ¬ (∀ h query maxLen t1 t2,
       TrimSpace query ≠ "" →
       ∃ h1 rest,
         appendHistory h query maxLen t1 = Some h1 ∧
         appendHistory h1 query maxLen t2
         = Some (mkHistory (mkEntry (TrimSpace query) t2 :: rest))).
Proof.
  split; [vm_compute; reflexivity|]. split; [vm_compute; reflexivity|].
  split; [vm_compute; reflexivity|].
  intros H.
  destruct (H emptyHistory "select 1" 0 1 2) as (h1 & rest & H1 & H2);
    [vm_compute; discriminate|].
  vm_compute in H1. injection H1 as <-. vm_compute in H2. discriminate.
Qed.

(** C3, as the code has it — for a maximum [maxLen >= 0]: the length bound
    holds in every history reachable from the empty one by appends and
    deletes; no two consecutive entries carry the same query in every
    history reachable by appends alone; a delete keeps the length bound,
    and keeps the list free of consecutive duplicates when the entries on
    the two sides of the removed one differ. *)
Theorem history_invariants maxLen :
  0 <= maxLen →
  (∀ h, reachable maxLen h → within_max maxLen h) ∧
  (∀ h, reachable_by_append maxLen h → history_inv maxLen h) ∧
  (∀ h i, within_max maxLen h → within_max maxLen (deleteHistory h i)) ∧
  (∀ h i, no_consec_dup (queries h) →
     (∀ a b, 1 <= i → queries h !! Z.to_nat (i - 1) = Some a →
             queries h !! Z.to_nat (i + 1) = Some b → a ≠ b) →
     no_consec_dup (queries (deleteHistory h i))).
Proof.
  intros Hm. split; [|split; [|split]].
  - intros h. by apply reachable_within_max.
  - intros h. by apply reachable_by_append_inv.
  - intros h i. apply deleteHistory_within_max.
  - intros h i Hh Hnb.
    destruct (decide (0 <= i < len (Entries h))) as [Hi|Hi].
    + rewrite queries_deleteHistory by done. apply no_consec_dup_delete; [done|].
      intros j a b Hj Ha Hb. apply (Hnb a b).
      * lia.
      * by replace (Z.to_nat (i - 1)) with j by lia.
      * by replace (Z.to_nat (i + 1)) with (S (Z.to_nat i)) by lia.
    + unfold deleteHistory.
      replace ((0 <=? i) && (i <? len (Entries h))) with false; [done|].
      symmetry. apply andb_false_iff.
      destruct (Z.leb_spec 0 i); [right; apply Z.ltb_ge; lia|by left].
Qed.

Lemma history_invariants_witness :
  0 <= 200 ∧
  within_max 200 (mkHistory [mkEntry "a" 3; mkEntry "a" 1]) ∧
  history_inv 200 (mkHistory [mkEntry "a" 3; mkEntry "b" 2; mkEntry "a" 1]).
Proof.
  assert (H200 : 0 <= 200) by lia.
  destruct (history_invariants 200 H200) as (Hlen & Happ & _ & _).
  split; [exact H200|split].
  - apply Hlen. exists [OpAppend "a" 1; OpAppend "b" 2; OpAppend "a" 3; OpDelete 1].
    reflexivity.
  - apply Happ. exists [OpAppend "a" 1; OpAppend "b" 2; OpAppend "a" 3].
    split; reflexivity.
Defined.

(** C3, as stated, fails: deleting the middle entry of a reachable history
    that satisfies both invariants leaves two consecutive entries with the
    same query. *)
Lemma history_inv_delete_counterexample :
  reachable 200 (mkHistory [mkEntry "a" 3; mkEntry "b" 2; mkEntry "a" 1]) ∧
  history_inv 200 (mkHistory [mkEntry "a" 3; mkEntry "b" 2; mkEntry "a" 1]) ∧
  deleteHistory (mkHistory [mkEntry "a" 3; mkEntry "b" 2; mkEntry "a" 1]) 1
  = mkHistory [mkEntry "a" 3; mkEntry "a" 1] ∧
  reachable 200 (mkHistory [mkEntry "a" 3; mkEntry "a" 1]) ∧
  ¬ history_inv 200 (mkHistory [mkEntry "a" 3; mkEntry "a" 1]).
Proof.
  split; [|split; [|split; [|split]]].
  - exists [OpAppend "a" 1; OpAppend "b" 2; OpAppend "a" 3]. reflexivity.
  - split; [unfold within_max, len; simpl; lia|]. simpl. repeat split; discriminate.
  - reflexivity.
  - exists [OpAppend "a" 1; OpAppend "b" 2; OpAppend "a" 3; OpDelete 1]. reflexivity.
  - intros [_ [Hne _]]. by apply Hne.
Qed.

(** ** Strings *)

Lemma length_take_bytes n s : String.length (take_bytes n s) = Nat.min n (String.length s).
Proof.
  revert s. induction n as [|n IH]; intros [|c s]; simpl; try done.
  by rewrite IH.
Qed.

Lemma slen_nonneg s : 0 <= slen s.
Proof. unfold slen. lia. Qed.

Lemma length_append a b :
  String.length (a +:+ b) = (String.length a + String.length b)%nat.
Proof. induction a as [|c a IH]; simpl; [done|]. by rewrite IH. Qed.

Lemma slen_append a b : slen (a +:+ b) = slen a + slen b.
Proof. unfold slen. rewrite length_append. lia. Qed.

Lemma slen_ellipsis : slen ellipsis = 3.
Proof. reflexivity. Qed.

Lemma wrap_int_id x : in_int x → wrap_int x = x.
Proof.
  unfold in_int, min_int, max_int, wrap_int. intros Hx.
  rewrite Z.mod_small; lia.
Qed.

Lemma slice_to_in_range s n :
  0 <= n <= slen s → slice_to s n = Some (take_bytes (Z.to_nat n) s).
Proof.
  intros Hn. unfold slice_to.
  replace ((0 <=? n) && (n <=? slen s)) with true; [done|].
  symmetry. apply andb_true_iff. split; apply Z.leb_le; lia.
Qed.

Lemma slice_to_out_of_range s n : n < 0 ∨ slen s < n → slice_to s n = None.
Proof.
  intros Hn. unfold slice_to.
  replace ((0 <=? n) && (n <=? slen s)) with false; [done|].
  symmetry. apply andb_false_iff.
  destruct Hn; [left; apply Z.leb_gt|right; apply Z.leb_gt]; lia.
Qed.

Lemma truncateString_short s maxLen :
  slen s <= maxLen → truncateString s maxLen = Some s.
Proof.
  intros H. unfold truncateString. by rewrite (proj2 (Z.leb_le _ _) H).
Qed.

Lemma truncateString_long s maxLen :
  maxLen < slen s → 1 <= maxLen → maxLen <= max_int →
  truncateString s maxLen = Some (take_bytes (Z.to_nat (maxLen - 1)) s +:+ ellipsis).
Proof.
  intros Hlong H1 Hmax. unfold truncateString.
  rewrite (proj2 (Z.leb_gt _ _) Hlong).
  rewrite wrap_int_id by (unfold in_int, min_int, max_int in *; lia).
  rewrite slice_to_in_range by lia. reflexivity.
Qed.

Lemma truncateString_panics s maxLen :
  maxLen < slen s → maxLen < 1 → in_int maxLen → slen s < max_int →
  truncateString s maxLen = None.
Proof.
  intros Hlong H1 Hint Hs. unfold truncateString.
  rewrite (proj2 (Z.leb_gt _ _) Hlong).
  rewrite slice_to_out_of_range; [done|].
  destruct (decide (maxLen = min_int)) as [->|Hne].
  - right. replace (wrap_int (min_int - 1)) with max_int by reflexivity. done.
  - left. rewrite wrap_int_id; [lia|].
    unfold in_int, min_int, max_int in *. lia.
Qed.

(** C10 — [truncateString(s, maxLen)], for a 64-bit [maxLen] and a string
    shorter than the largest [int]: [s] itself when [len(s) <= maxLen];
    when [s] is longer and [maxLen >= 1], the first [maxLen - 1] bytes of
    [s] followed by the three bytes of the ellipsis, [maxLen + 2] bytes in
    all, more than [maxLen]; when [s] is longer, the slice expression is in
    range exactly when [maxLen >= 1] (so [maxLen = 0] with a non-empty [s]
    panics); and the bytes kept can end inside a multi-byte character. *)
Theorem truncateString_correct (s : string) (maxLen : Z) :
  in_int maxLen → slen s < max_int →
  (slen s <= maxLen → truncateString s maxLen = Some s) ∧
  (maxLen < slen s → 1 <= maxLen →
     truncateString s maxLen = Some (take_bytes (Z.to_nat (maxLen - 1)) s +:+ ellipsis) ∧
     slen (take_bytes (Z.to_nat (maxLen - 1)) s) = maxLen - 1 ∧
     slen (take_bytes (Z.to_nat (maxLen - 1)) s +:+ ellipsis) = maxLen + 2) ∧
  (maxLen < slen s → (is_Some (truncateString s maxLen) ↔ 1 <= maxLen)) ∧
  (maxLen = 0 → s ≠ "" → truncateString s maxLen = None) ∧
  (∃ t n kept,
     ValidString t = true ∧ 1 <= n ∧
     truncateString t n = Some (kept +:+ ellipsis) ∧ ValidString kept = false).
Proof.
  intros Hint Hs. split; [|split; [|split; [|split]]].
  - apply truncateString_short.
  - intros Hlong H1.
    assert (Hk : slen (take_bytes (Z.to_nat (maxLen - 1)) s) = maxLen - 1).
    { unfold slen in *. rewrite length_take_bytes. lia. }
    split; [|split].
    + apply truncateString_long; [done..|]. apply Hint.
    + exact Hk.
    + rewrite slen_append, Hk, slen_ellipsis. lia.
  - intros Hlong. split.
    + intros Hsome. destruct (Z.lt_ge_cases maxLen 1) as [Hlt|]; [|done].
      rewrite truncateString_panics in Hsome by done. by destruct Hsome.
    + intros H1. rewrite truncateString_long; [by eexists|done..|apply Hint].
  - intros -> Hne. apply truncateString_panics; [|lia|done..].
    destruct s; [done|]. unfold slen. simpl. lia.
  - exists (ellipsis +:+ ellipsis), 5, (take_bytes 4 (ellipsis +:+ ellipsis)).
    repeat split; try reflexivity. lia.
Qed.

Lemma truncateString_correct_witness :
  in_int 5 ∧ slen "hello world" < max_int ∧
  truncateString "hello world" 5
  = Some (take_bytes (Z.to_nat (5 - 1)) "hello world" +:+ ellipsis) ∧
  truncateString "hello" 0 = None.
Proof.
  assert (H5 : in_int 5) by (unfold in_int, min_int, max_int; lia).
  assert (H0 : in_int 0) by (unfold in_int, min_int, max_int; lia).
  assert (Hs : slen "hello world" < max_int) by (vm_compute; reflexivity).
  assert (Hs' : slen "hello" < max_int) by (vm_compute; reflexivity).
  split; [exact H5|split; [exact Hs|split]].
  - destruct (truncateString_correct "hello world" 5 H5 Hs) as (_ & Hlong & _).
    apply Hlong; [vm_compute; reflexivity|lia].
  - destruct (truncateString_correct "hello" 0 H0 Hs') as (_ & _ & _ & Hzero & _).
    apply Hzero; [reflexivity|discriminate].
Defined.

(** ** The query client *)

(** C1 — [fetchQuery] returns the transport error when the request fails,
    and otherwise classifies the body in a fixed order: what parses as a
    list of row-maps is returned as such (kind [json]); what does not, but
    parses as JSON, is returned as the generic value (kind [json]); anything
    else is returned as the raw text (kind [text]).  The raw body is
    returned with each.  The bodies [[{"a":1}]], [[1,2,3]] and [not json]
    have the shapes tabular, scalar/structured and text. *)
Theorem fetchQuery_classification :
  (∀ httpGet apiBase query,
     fetchQuery httpGet apiBase query
     = match httpGet (apiBase +:+ QueryEscape query) with
       | RErr err => RErr err
       | ROk b => ROk (classifyBody b)
       end) ∧
  (∀ b,
     match Unmarshal_rows b with
     | Some arr => classifyBody b = (PRows arr, "json", b)
     | None =>
       match Unmarshal_any b with
       | Some gen => classifyBody b = (PValue gen, "json", b)
       | None => classifyBody b = (PText b, "text", b)
       end
     end) ∧
  (∀ b, shapeOf (classifyBody b).1.1 = TabularRows ↔ is_Some (Unmarshal_rows b)) ∧
  (∀ b, shapeOf (classifyBody b).1.1 = ScalarStructured
        ↔ Unmarshal_rows b = None ∧ is_Some (Unmarshal_any b)) ∧
  (∀ b, shapeOf (classifyBody b).1.1 = Text
        ↔ Unmarshal_rows b = None ∧ Unmarshal_any b = None) ∧
  classifyBody body_rows = (PRows [{[ "a" := VFloat "1" ]}], "json", body_rows) ∧
  classifyBody "[1,2,3]"
  = (PValue (VSlice [VFloat "1"; VFloat "2"; VFloat "3"]), "json", "[1,2,3]") ∧
  classifyBody "not json" = (PText "not json", "text", "not json").
Proof.
  split; [done|]. split; [|split; [|split; [|split]]].
  - intros b. unfold classifyBody.
    destruct (Unmarshal_rows b); [done|]. by destruct (Unmarshal_any b).
  - intros b. unfold classifyBody.
    destruct (Unmarshal_rows b); [|destruct (Unmarshal_any b)]; simpl;
      split; (done || by intros [? ?] || eauto).
  - intros b. unfold classifyBody.
    destruct (Unmarshal_rows b); [|destruct (Unmarshal_any b)]; simpl;
      split; try done; try (by intros [? ?]); try (by intros [? [? ?]]); eauto.
  - intros b. unfold classifyBody.
    destruct (Unmarshal_rows b); [|destruct (Unmarshal_any b)]; simpl;
      split; try done; by intros [? ?].
  - split; [|split]; vm_compute; reflexivity.
Qed.

(** C9 — a body that unmarshals into a list of row-maps with no element
    ([null] and [[]] are such bodies) is returned by [fetchQuery] as a list of
    row-maps with kind [json]: its shape is tabular, never scalar/structured
    or text, and the queued update shows a result with zero rows (table
    cleared, [No results] in the detail view). *)
Theorem empty_rows_are_tabular (fmtFloat : string → string) (b : string) :
  Unmarshal_rows b = Some [] →
  classifyBody b = (PRows [], "json", b) ∧
  shapeOf (classifyBody b).1.1 = TabularRows ∧
  (∀ httpGet apiBase query,
     httpGet (apiBase +:+ QueryEscape query) = ROk b →
     fetchQuery httpGet apiBase query = ROk (PRows [], "json", b)) ∧
  (∀ cfg st, ∃ st',
     applyResult fmtFloat cfg (ROk (classifyBody b)) st = Some st' ∧
     currentData st' = [] ∧ currentRowCount st' = 0 ∧ tableCells st' = [] ∧
     tableTitle st' = "Results (0 rows)" ∧
     detailText st' = "[yellow]No results" ∧
     statusText st' = "[green]Fetched 0 rows" ∧
     rawText st' = b) ∧
  Unmarshal_rows "null" = Some [] ∧ Unmarshal_rows "[]" = Some [].
Proof.
  intros Hb.
  assert (Hc : classifyBody b = (PRows [], "json", b)).
  { unfold classifyBody. by rewrite Hb. }
  split; [done|]. split; [by rewrite Hc|]. split; [|split].
  - intros httpGet apiBase query Hget. unfold fetchQuery. by rewrite Hget, Hc.
  - intros cfg st. rewrite Hc. eexists. split; [reflexivity|]. by repeat split.
  - split; vm_compute; reflexivity.
Qed.

Lemma empty_rows_are_tabular_witness :
  Unmarshal_rows "null" = Some [] ∧
  classifyBody "null" = (PRows [], "json", "null") ∧
  shapeOf (classifyBody " [ ] ").1.1 = TabularRows.
Proof.
  assert (Hnull : Unmarshal_rows "null" = Some []) by (vm_compute; reflexivity).
  assert (Harr : Unmarshal_rows " [ ] " = Some []) by (vm_compute; reflexivity).
  split; [exact Hnull|split].
  - apply (empty_rows_are_tabular (λ lit, lit) "null" Hnull).
  - apply (empty_rows_are_tabular (λ lit, lit) " [ ] " Harr).
Defined.

(** ** Sorted key lists *)

Lemma sortStrings_Permutation l : sortStrings l ≡ₚ l.
Proof. apply merge_sort_Permutation. Qed.

Lemma sortStrings_Sorted l : Sorted String.le (sortStrings l).
Proof. apply (Sorted_merge_sort String.le). Qed.

(** The sorted list does not depend on the order in which the keys were
    collected. *)
Lemma sortStrings_perm l1 l2 : l1 ≡ₚ l2 → sortStrings l1 = sortStrings l2.
Proof.
  intros Hp. apply (Sorted_unique String.le); try apply sortStrings_Sorted.
  by rewrite !sortStrings_Permutation.
Qed.

Lemma elem_of_rangeKeys (row : Row) k : k ∈ rangeKeys row ↔ is_Some (row !! k).
Proof.
  unfold rangeKeys. rewrite list_elem_of_fmap. split.
  - intros [[k' v] [-> Hin]]. apply elem_of_map_to_list in Hin. by exists v.
  - intros [v Hv]. exists (k, v). split; [done|]. by apply elem_of_map_to_list.
Qed.

Lemma NoDup_rangeKeys (row : Row) : NoDup (rangeKeys row).
Proof. apply NoDup_fst_map_to_list. Qed.

Lemma sorted_keys_spec (row : Row) :
  (∀ k, k ∈ sortStrings (rangeKeys row) ↔ is_Some (row !! k)) ∧
  NoDup (sortStrings (rangeKeys row)) ∧
  Sorted String.le (sortStrings (rangeKeys row)) ∧
  (∀ ks, ks ≡ₚ rangeKeys row → sortStrings ks = sortStrings (rangeKeys row)).
Proof.
  split; [|split; [|split]].
  - intros k. rewrite sortStrings_Permutation. apply elem_of_rangeKeys.
  - rewrite sortStrings_Permutation. apply NoDup_rangeKeys.
  - apply sortStrings_Sorted.
  - intros ks Hks. by apply sortStrings_perm.
Qed.

(** ** The table *)

(** C6 — for a non-empty list of row-maps, the columns that
    [renderJSONToTable] stores are the keys of the first row, each once, in
    increasing order, whatever order the keys were visited in and whatever
    the other rows (or the configuration, or the columns stored before)
    are. *)
Theorem table_columns_of_first_row (fmtFloat : string → string)
    (first : Row) (rest : list Row) (columns : list string) (cfg : Config) :
  (renderJSONToTable fmtFloat (first :: rest) columns cfg).1 = tableColumns first ∧
  (∀ k, k ∈ tableColumns first ↔ is_Some (first !! k)) ∧
  NoDup (tableColumns first) ∧
  Sorted String.le (tableColumns first) ∧
  (∀ ks, ks ≡ₚ rangeKeys first → sortStrings ks = tableColumns first) ∧
  (∀ rest' columns' cfg',
     (renderJSONToTable fmtFloat (first :: rest') columns' cfg').1
     = (renderJSONToTable fmtFloat (first :: rest) columns cfg).1).
Proof.
  split; [reflexivity|]. destruct (sorted_keys_spec first) as (H1 & H2 & H3 & H4).
  unfold tableColumns. repeat split; try done; apply H1.
Qed.

Lemma maxZ_cons x l : maxZ (x :: l) = Z.max x (maxZ l).
Proof. reflexivity. Qed.

Lemma maxZ_nonneg l : 0 <= maxZ l.
Proof. induction l; [done|]. rewrite maxZ_cons. lia. Qed.

Lemma foldl_max_step {A} (f : A → Z) (l : list A) (w : Z) :
  0 <= w →
  foldl (λ width x, if width <? f x then f x else width) w l
  = Z.max w (maxZ (f <$> l)).
Proof.
  revert w. induction l as [|x l IH]; intros w Hw.
  - simpl. change (maxZ []) with 0. lia.
  - rewrite fmap_cons, maxZ_cons. cbn [foldl].
    rewrite IH by (destruct (Z.ltb_spec w (f x)); lia).
    destruct (Z.ltb_spec w (f x)); lia.
Qed.

Lemma colWidth_eq fmtFloat maxColWidth data k :
  colWidth fmtFloat maxColWidth data k
  = Z.min maxColWidth
      (maxZ (8 :: slen k
               :: ((λ row, slen (sprintv fmtFloat (rowGet row k))) <$> take 5 data))).
Proof.
  unfold colWidth, minColWidth.
  rewrite (foldl_max_step (λ row, slen (sprintv fmtFloat (rowGet row k)))).
  2:{ pose proof (slen_nonneg k). destruct (Z.ltb_spec (slen k) 8); lia. }
  rewrite !maxZ_cons. set (m := maxZ _).
  destruct (Z.ltb_spec (slen k) 8);
    match goal with |- context [?a <? ?b] => destruct (Z.ltb_spec a b) end; lia.
Qed.

Lemma colWidth_bounds fmtFloat maxColWidth data k :
  colWidth fmtFloat maxColWidth data k <= maxColWidth ∧
  Z.min maxColWidth 8 <= colWidth fmtFloat maxColWidth data k.
Proof.
  rewrite colWidth_eq, !maxZ_cons. set (m := maxZ _).
  pose proof (maxZ_nonneg ((λ row, slen (sprintv fmtFloat (rowGet row k))) <$> take 5 data)).
  lia.
Qed.

Lemma cellText_shown fmtFloat w v :
  1 <= w <= max_int → cellText fmtFloat w v = Some (shownText w (sprintv fmtFloat v)).
Proof.
  intros Hw. unfold cellText, shownText.
  destruct (Z.ltb_spec w (slen (sprintv fmtFloat v))); [|done].
  apply truncateString_long; lia.
Qed.

Lemma mapM_total {A B} (f : A → option B) (g : A → B) (l : list A) :
  (∀ x, x ∈ l → f x = Some (g x)) → mapM f l = Some (g <$> l).
Proof.
  intros H. apply mapM_Some. induction l as [|x l IH]; simpl; [constructor|].
  constructor; [apply H; left|]. apply IH. intros y Hy. apply H. by right.
Qed.

(** With a maximum width of at least 1, rendering does not panic, and the
    table is the header followed by one row of cut texts per data row. *)
Lemma renderJSONToTable_cells fmtFloat (first : Row) rest columns cfg :
  1 <= MaxColumnWidth cfg <= max_int →
  let data := first :: rest in
  let W := colWidth fmtFloat (MaxColumnWidth cfg) data in
  renderJSONToTable fmtFloat data columns cfg
  = (tableColumns first,
     Some (((λ k, mkCell k (W k)) <$> tableColumns first)
           :: ((λ row, (λ k, mkCell (shownText (W k) (sprintv fmtFloat (rowGet row k))) (W k))
                       <$> tableColumns first) <$> data))).
Proof.
  intros Hcfg data W. subst data W. unfold renderJSONToTable. f_equal.
  set (W := colWidth fmtFloat (MaxColumnWidth cfg) (first :: rest)).
  rewrite (mapM_total _
    (λ row, (λ k, mkCell (shownText (W k) (sprintv fmtFloat (rowGet row k))) (W k))
            <$> tableColumns first)); [done|].
  intros row _. apply mapM_total. intros k _.
  rewrite cellText_shown; [done|].
  pose proof (colWidth_bounds fmtFloat (MaxColumnWidth cfg) (first :: rest) k) as Hb.
  subst W. lia.
Qed.

(** C5, as the code has it — the width of a column is the smaller of the
    configured maximum and the largest of 8, the length of the column name
    and the lengths of the printed values of the column in the first 5 rows
    (lengths in bytes).  So the width never exceeds the configured maximum,
    and it is at least 8 when that maximum is.  With a configured maximum of
    at least 1, a cell whose printed value is longer than the width shows
    the first [width - 1] bytes of it and one ellipsis, and every other cell
    shows its value whole. *)
Theorem column_width_and_truncation (fmtFloat : string → string)
    (cfg : Config) (first : Row) (rest : list Row) (columns : list string) (k : string) :
  let data := first :: rest in
  let W := colWidth fmtFloat (MaxColumnWidth cfg) data in
  W k = Z.min (MaxColumnWidth cfg)
          (maxZ (8 :: slen k
                   :: ((λ row, slen (sprintv fmtFloat (rowGet row k))) <$> take 5 data))) ∧
  W k <= MaxColumnWidth cfg ∧
  (8 <= MaxColumnWidth cfg → 8 <= W k) ∧
  (1 <= MaxColumnWidth cfg <= max_int →
     (∀ v, W k < slen (sprintv fmtFloat v) →
           cellText fmtFloat (W k) v
           = Some (take_bytes (Z.to_nat (W k - 1)) (sprintv fmtFloat v) +:+ ellipsis) ∧
           slen (take_bytes (Z.to_nat (W k - 1)) (sprintv fmtFloat v)) = W k - 1) ∧
     (∀ v, slen (sprintv fmtFloat v) <= W k →
           cellText fmtFloat (W k) v = Some (sprintv fmtFloat v)) ∧
     renderJSONToTable fmtFloat data columns cfg
     = (tableColumns first,
        Some (((λ k, mkCell k (W k)) <$> tableColumns first)
              :: ((λ row, (λ k, mkCell (shownText (W k) (sprintv fmtFloat (rowGet row k)))
                                       (W k))
                          <$> tableColumns first) <$> data)))).
Proof.
  intros data W.
  pose proof (colWidth_bounds fmtFloat (MaxColumnWidth cfg) data k) as [Hle Hge].
  fold W in Hle, Hge.
  split; [apply colWidth_eq|]. split; [done|]. split; [lia|].
  intros Hcfg. split; [|split].
  - intros v Hv. rewrite cellText_shown by lia. unfold shownText.
    rewrite (proj2 (Z.ltb_lt _ _) Hv). split; [done|].
    unfold slen in *. rewrite length_take_bytes. lia.
  - intros v Hv. rewrite cellText_shown by lia. unfold shownText.
    by rewrite (proj2 (Z.ltb_ge _ _) Hv).
  - by apply renderJSONToTable_cells.
Qed.

Lemma column_width_and_truncation_witness :
  colWidth (λ lit, lit) 40 [sample_row] "name" = 40 ∧
  cellText (λ lit, lit) 40 (rowGet sample_row "name")
  = Some ("a name that is longer than the forty by" +:+ ellipsis) ∧
  8 <= colWidth (λ lit, lit) 40 [sample_row] "id".
Proof.
  destruct (column_width_and_truncation (λ lit, lit) DefaultConfig sample_row [] [] "name")
    as (Heq & _ & _ & Hcells).
  destruct (column_width_and_truncation (λ lit, lit) DefaultConfig sample_row [] [] "id")
    as (_ & _ & H8 & _).
  split; [|split].
  - vm_compute. reflexivity.
  - destruct Hcells as (Hlong & _); [vm_compute; split; discriminate|].
    destruct (Hlong (rowGet sample_row "name")) as [Hcell _]; [vm_compute; reflexivity|].
    exact Hcell.
  - apply H8. vm_compute. discriminate.
Defined.

(** C5, as stated, fails: with a configured maximum below 8 the width is
    below 8, and with a configured maximum of 0 filling the cells panics. *)
Lemma column_width_counterexample :
  colWidth (λ lit, lit) 5 [sample_row] "id" = 5 ∧
  ¬ (8 <= colWidth (λ lit, lit) 5 [sample_row] "id" <= 5) ∧
  (renderJSONToTable (λ lit, lit) [sample_row] [] (mkConfig 3 3 150 10 200 5 5)).2
  = Some [[mkCell "id" 5; mkCell "name" 5];
          [mkCell "10" 5; mkCell ("a na" +:+ ellipsis) 5]] ∧
  (renderJSONToTable (λ lit, lit) [sample_row] [] (mkConfig 3 3 150 10 200 5 0)).2 = None.
Proof.
  split; [vm_compute; reflexivity|]. split; [|split].
  - replace (colWidth (λ lit, lit) 5 [sample_row] "id") with 5 by (vm_compute; reflexivity). lia.
  - vm_compute. reflexivity.
  - vm_compute. reflexivity.
Qed.

(** ** The detail view *)

Lemma index_lookup {A} (l : list A) (i : Z) :
  0 <= i → index l i = l !! Z.to_nat i.
Proof. intros Hi. unfold index. by rewrite (proj2 (Z.ltb_ge _ _) Hi). Qed.

Lemma updateDetailView_frame fmtFloat st :
  ∃ d, updateDetailView fmtFloat st = set_detailText d st.
Proof.
  unfold updateDetailView.
  destruct ((_ <=? 0) || _); [by eexists|].
  destruct (index _ _); [by eexists|]. exists (detailText st). by destruct st.
Qed.

Lemma updateDetailView_selected fmtFloat st row rowData :
  (selection st).1 = row → 1 <= row →
  currentData st !! Z.to_nat (row - 1) = Some rowData →
  updateDetailView fmtFloat st
  = set_detailText (detailOf fmtFloat row (len (currentData st)) rowData) st.
Proof.
  intros Hsel Hrow Hdata. unfold updateDetailView. rewrite Hsel.
  apply lookup_lt_Some in Hdata as Hlt.
  replace ((row <=? 0) || (len (currentData st) <? row)) with false.
  2:{ symmetry. apply orb_false_iff. unfold len.
      split; [apply Z.leb_gt|apply Z.ltb_ge]; lia. }
  rewrite index_lookup by lia. by rewrite Hdata.
Qed.

Lemma detailValue_spec fmtFloat v :
  (slen (sprintv fmtFloat v) <= 200 → detailValue fmtFloat v = sprintv fmtFloat v) ∧
  (200 < slen (sprintv fmtFloat v) →
     detailValue fmtFloat v = take_bytes 200 (sprintv fmtFloat v) +:+ ellipsis ∧
     slen (take_bytes 200 (sprintv fmtFloat v)) = 200).
Proof.
  unfold detailValue. split; intros H.
  - by rewrite (proj2 (Z.ltb_ge _ _) H).
  - rewrite (proj2 (Z.ltb_lt _ _) H). split; [done|].
    unfold slen in *. rewrite length_take_bytes. lia.
Qed.

(** C8, as the code has it — for the selected row, the detail view shows,
    after its heading, one line [key: value] for every key of that row and
    no other, the keys in increasing order, each value cut on its own after
    200 bytes (the ellipsis is added then).  The columns of the table play
    no part: a key of the row that is not a column is shown all the
    same. *)
Theorem detail_projection (fmtFloat : string → string)
    (st : Session) (row : Z) (rowData : Row) :
  (selection st).1 = row → 1 <= row →
  currentData st !! Z.to_nat (row - 1) = Some rowData →
  detailText (updateDetailView fmtFloat st)
  = "[yellow::b]Row " +:+ itoa row +:+ "/" +:+ itoa (len (currentData st))
    +:+ "[white]" +:+ newline
    +:+ String.concat "" (detailLine fmtFloat rowData <$> detailKeys rowData) ∧
  (∀ k, k ∈ detailKeys rowData ↔ is_Some (rowData !! k)) ∧
  NoDup (detailKeys rowData) ∧
  Sorted String.le (detailKeys rowData) ∧
  (∀ ks, ks ≡ₚ rangeKeys rowData → sortStrings ks = detailKeys rowData) ∧
  (∀ k, detailLine fmtFloat rowData k
        = "[yellow]" +:+ k +:+ ":[white] " +:+ detailValue fmtFloat (rowGet rowData k)
          +:+ newline) ∧
  (∀ v, slen (sprintv fmtFloat v) <= 200 → detailValue fmtFloat v = sprintv fmtFloat v) ∧
  (∀ v, 200 < slen (sprintv fmtFloat v) →
        detailValue fmtFloat v = take_bytes 200 (sprintv fmtFloat v) +:+ ellipsis ∧
        slen (take_bytes 200 (sprintv fmtFloat v)) = 200) ∧
  (∀ columns,
     detailText (updateDetailView fmtFloat (set_currentColumns columns st))
     = detailText (updateDetailView fmtFloat st)).
Proof.
  intros Hsel Hrow Hdata.
  destruct (sorted_keys_spec rowData) as (H1 & H2 & H3 & H4).
  split; [|split; [|split; [|split; [|split; [|split; [|split; [|split]]]]]]]; try done.
  - by rewrite (updateDetailView_selected _ _ row rowData).
  - intros v. apply detailValue_spec.
  - intros v. apply detailValue_spec.
  - intros columns.
    rewrite (updateDetailView_selected _ st row rowData) by done.
    by rewrite (updateDetailView_selected _ (set_currentColumns columns st) row rowData).
Qed.

Lemma detail_projection_witness :
  detailText (updateDetailView (λ lit, lit) drift_session)
  = "[yellow::b]Row 2/2[white]" +:+ newline
    +:+ "[yellow]alpha:[white] true" +:+ newline
    +:+ "[yellow]zeta:[white] z" +:+ newline.
Proof.
  destruct (detail_projection (λ lit, lit) drift_session 2 drift_row) as [Htext _];
    [reflexivity|lia|reflexivity|].
  rewrite Htext. vm_compute. reflexivity.
Defined.

(** C8, as stated, fails: a value is cut after 200 bytes, not after 200
    characters.  A value of 150 characters of two bytes each is within 200
    characters and is shown cut to the first 100 of them; and the cut can
    fall inside a character, so that what is shown is not valid UTF-8. *)
Lemma detail_cut_counterexample :
  RuneCountInString (sprintv (λ lit, lit) (VString (copies 150 e_acute))) = 150 ∧
  slen (sprintv (λ lit, lit) (VString (copies 150 e_acute))) = 300 ∧
  detailValue (λ lit, lit) (VString (copies 150 e_acute))
  = copies 100 e_acute +:+ ellipsis ∧
  RuneCountInString (copies 100 e_acute) = 100 ∧
  ValidString (sprintv (λ lit, lit) (VString ("a" +:+ copies 150 e_acute))) = true ∧
  ∃ kept,
    detailValue (λ lit, lit) (VString ("a" +:+ copies 150 e_acute)) = kept +:+ ellipsis ∧
    ValidString kept = false.
Proof.
  split; [vm_compute; reflexivity|]. split; [vm_compute; reflexivity|].
  split; [vm_compute; reflexivity|]. split; [vm_compute; reflexivity|].
  split; [vm_compute; reflexivity|].
  exists (take_bytes 200 ("a" +:+ copies 150 e_acute)).
  split; vm_compute; reflexivity.
Qed.

(** ** The sort handler *)

Lemma ltb_false_le a b : String.ltb b a = false ↔ String.le a b.
Proof.
  unfold String.le, String.ltb, String.leb. rewrite (String.compare_antisym a b).
  destruct (String.compare b a); simpl; naive_solver.
Qed.

Lemma notLessRev_inOrder fmtFloat colName asc a b :
  notLessRev (sortLess fmtFloat colName asc) a b ↔ inOrder fmtFloat colName asc a b.
Proof.
  unfold notLessRev, sortLess, inOrder, sortKey. destruct asc; apply ltb_false_le.
Qed.

Global Instance inOrder_trans fmtFloat colName asc :
  Transitive (inOrder fmtFloat colName asc).
Proof.
  intros a b c. unfold inOrder. destruct asc; intros H1 H2.
  - by transitivity (sortKey fmtFloat colName b).
  - by transitivity (sortKey fmtFloat colName b).
Qed.

Global Instance notLessRev_total fmtFloat colName asc :
  Total (notLessRev (sortLess fmtFloat colName asc)).
Proof.
  intros a b. rewrite !notLessRev_inOrder. unfold inOrder.
  destruct asc; apply (total String.le).
Qed.

Lemma Sorted_weaken {A} (R R' : relation A) l :
  (∀ a b, R a b → R' a b) → Sorted R l → Sorted R' l.
Proof.
  intros HR. induction 1 as [|x l _ IH Hhd]; constructor; [done|].
  destruct Hhd; constructor. by apply HR.
Qed.

Lemma sortSlice_Permutation {A} (less : A → A → bool) l : sortSlice less l ≡ₚ l.
Proof. apply merge_sort_Permutation. Qed.

Lemma sortSlice_sorted fmtFloat colName asc (data : list Row) :
  StronglySorted (inOrder fmtFloat colName asc)
    (sortSlice (sortLess fmtFloat colName asc) data).
Proof.
  apply Sorted_StronglySorted; [apply _|].
  eapply Sorted_weaken; [|apply (Sorted_merge_sort _)].
  intros a b. apply notLessRev_inOrder.
Qed.

Lemma tableSelect_frame fmtFloat row col st :
  ∃ d, tableSelect fmtFloat row col st = set_detailText d (set_selection (row, col) st).
Proof.
  unfold tableSelect. destruct ((0 <? row) && _).
  - apply updateDetailView_frame.
  - exists (detailText st). by destruct st.
Qed.

Lemma selectedFunc_sorts fmtFloat cfg st col colName :
  1 <= MaxColumnWidth cfg <= max_int →
  currentData st ≠ [] → 0 <= col < len (currentColumns st) →
  currentColumns st !! Z.to_nat col = Some colName →
  let asc := if sortColumn st =? col then negb (sortAscending st) else true in
  ∃ st',
    selectedFunc fmtFloat cfg 0 col st = Some st' ∧
    sortColumn st' = col ∧ sortAscending st' = asc ∧
    currentData st' = sortSlice (sortLess fmtFloat colName asc) (currentData st) ∧
    selection st' = (1, 0).
Proof.
  intros Hcfg Hdata Hcol Hname asc. unfold selectedFunc.
  replace ((0 =? 0) && (0 <? len (currentData st)) && (col <? len (currentColumns st)))
    with true.
  2:{ symmetry. rewrite !andb_true_iff. repeat split; [|apply Z.ltb_lt; lia].
      apply Z.ltb_lt. unfold len. destruct (currentData st); [done|]. simpl. lia. }
  rewrite index_lookup by lia. rewrite Hname. simpl.
  set (st1 := if sortColumn st =? col then _ else _).
  assert (Hst1 : sortColumn st1 = col ∧ sortAscending st1 = asc
                 ∧ currentData st1 = currentData st).
  { subst st1 asc. destruct (Z.eqb_spec (sortColumn st) col); simpl; by repeat split. }
  destruct Hst1 as (Hc1 & Ha1 & Hd1). rewrite Ha1, Hd1.
  set (data' := sortSlice _ _).
  assert (Hne : data' ≠ []).
  { intros Hnil. apply Hdata. apply Permutation_nil_r.
    rewrite <- Hnil. symmetry. apply sortSlice_Permutation. }
  unfold renderInto. simpl currentData.
  destruct data' as [|first rest] eqn:Hd'; [done|].
  rewrite renderJSONToTable_cells by done. simpl.
  match goal with |- context [tableSelect fmtFloat 1 0 ?s] =>
    destruct (tableSelect_frame fmtFloat 1 0 s) as [d1 ->] end.
  match goal with |- context [updateDetailView fmtFloat ?s] =>
    destruct (updateDetailView_frame fmtFloat s) as [d2 ->] end.
  eexists. split; [reflexivity|]. simpl. by repeat split.
Qed.

Lemma runQuery_resets formatTime cfg env fs query now st :
  (∀ st' fs', runQuery formatTime cfg env fs query now st = Some (st', fs') →
              sortColumn st' = -1 ∧ sortAscending st' = true) ∧
  (0 <= MaxHistoryEntries cfg → is_Some (runQuery formatTime cfg env fs query now st)).
Proof.
  unfold runQuery. simpl. split.
  - intros st' fs'. destruct (appendHistory _ _ _ _) as [h|]; [|done]. simpl.
    destruct (saveHistory _ _ _ _) as [fs1 [e|]]; intros [= <- <-]; done.
  - intros Hm.
    assert (Happ : is_Some (appendHistory (hist st) query (MaxHistoryEntries cfg) now)).
    { destruct (decide (TrimSpace query = "")) as [Hq|Hq].
      - rewrite appendHistory_blank by done. by eexists.
      - destruct (decide (head (queries (hist st)) = Some (TrimSpace query))) as [Hhd|Hhd].
        + unfold queries in Hhd. destruct (Entries (hist st)) as [|e0 rest] eqn:He; [done|].
          simpl in Hhd. injection Hhd as Hhd.
          rewrite (appendHistory_touch _ _ _ _ e0 rest) by done. by eexists.
        + rewrite appendHistory_prepend, prependHistory_take by done. by eexists. }
    destruct Happ as [h ->]. simpl.
    destruct (saveHistory _ _ _ _) as [fs1 [e|]]; by eexists.
Qed.

(** C4 — on a result with rows, activating the header of a column: when
    that column is the one sorted by, [sortAscending] is flipped, and
    otherwise [sortColumn] becomes the column and [sortAscending] true; the
    rows are rearranged into the order of the column's printed values,
    compared as byte strings (increasing when ascending, decreasing
    otherwise), so a row printing [10] comes before a row printing [9] when
    ascending; the selection is then the first data row.  Activating the
    same column again, when it is still a column, gives the opposite
    direction.  [runQuery] always sets [sortColumn] to -1 (none) and
    [sortAscending] to true.  (The handler re-renders the table, which needs
    a configured column width of at least 1; [runQuery] appends to the
    history, which needs a configured maximum of at least 0.) *)
Theorem sort_policy (fmtFloat : string → string) (formatTime : Time → option string)
    (cfg : Config) :
  (∀ st col,
     1 <= MaxColumnWidth cfg <= max_int →
     currentData st ≠ [] → 0 <= col < len (currentColumns st) →
     ∃ colName st',
       index (currentColumns st) col = Some colName ∧
       selectedFunc fmtFloat cfg 0 col st = Some st' ∧
       sortColumn st' = col ∧
       sortAscending st'
       = (if sortColumn st =? col then negb (sortAscending st) else true) ∧
       currentData st' ≡ₚ currentData st ∧
       StronglySorted (inOrder fmtFloat colName (sortAscending st')) (currentData st') ∧
       selection st' = (1, 0)) ∧
  (∀ st col st' st'',
     1 <= MaxColumnWidth cfg <= max_int →
     currentData st ≠ [] → 0 <= col < len (currentColumns st) →
     selectedFunc fmtFloat cfg 0 col st = Some st' →
     col < len (currentColumns st') →
     selectedFunc fmtFloat cfg 0 col st' = Some st'' →
     sortColumn st'' = col ∧ sortAscending st'' = negb (sortAscending st')) ∧
  (∀ colName r10 r9,
     sortKey fmtFloat colName r10 = "10" → sortKey fmtFloat colName r9 = "9" →
     sortSlice (sortLess fmtFloat colName true) [r9; r10] = [r10; r9] ∧
     sortSlice (sortLess fmtFloat colName true) [r10; r9] = [r10; r9]) ∧
  (∀ env fs query now st,
     (∀ st' fs', runQuery formatTime cfg env fs query now st = Some (st', fs') →
                 sortColumn st' = -1 ∧ sortAscending st' = true) ∧
     (0 <= MaxHistoryEntries cfg →
      is_Some (runQuery formatTime cfg env fs query now st))).
Proof.
  assert (Hone : ∀ st col,
     1 <= MaxColumnWidth cfg <= max_int →
     currentData st ≠ [] → 0 <= col < len (currentColumns st) →
     ∃ colName st',
       index (currentColumns st) col = Some colName ∧
       selectedFunc fmtFloat cfg 0 col st = Some st' ∧
       sortColumn st' = col ∧
       sortAscending st'
       = (if sortColumn st =? col then negb (sortAscending st) else true) ∧
       currentData st' ≡ₚ currentData st ∧
       StronglySorted (inOrder fmtFloat colName (sortAscending st')) (currentData st') ∧
       selection st' = (1, 0)).
  { intros st col Hcfg Hdata Hcol.
    destruct (lookup_lt_is_Some_2 (currentColumns st) (Z.to_nat col)) as [colName Hname].
    { unfold len in Hcol. lia. }
    destruct (selectedFunc_sorts fmtFloat cfg st col colName Hcfg Hdata Hcol Hname)
      as (st' & Hrun & Hc & Ha & Hd & Hsel).
    exists colName, st'. rewrite index_lookup by lia.
    repeat split; try done.
    - rewrite Hd. apply sortSlice_Permutation.
    - rewrite Hd, Ha. apply sortSlice_sorted. }
  split; [exact Hone|]. split; [|split].
  - intros st col st' st'' Hcfg Hdata Hcol Hrun Hcol' Hrun'.
    destruct (Hone st col Hcfg Hdata Hcol) as (c1 & s1 & _ & Hr1 & Hc1 & _ & Hp1 & _).
    rewrite Hrun in Hr1. injection Hr1 as <-.
    assert (Hdata' : currentData st' ≠ []).
    { intros Hnil. apply Hdata. apply Permutation_nil_r. by rewrite <- Hnil. }
    destruct (Hone st' col Hcfg Hdata' ltac:(lia)) as (c2 & s2 & _ & Hr2 & Hc2 & Ha2 & _).
    rewrite Hrun' in Hr2. injection Hr2 as <-.
    split; [done|]. by rewrite Ha2, Hc1, Z.eqb_refl.
  - intros colName r10 r9 H10 H9. unfold sortKey in *.
    assert (Hd2 : ¬ notLessRev (sortLess fmtFloat colName true) r9 r10).
    { unfold notLessRev, sortLess. by rewrite H10, H9. }
    assert (Hfix : ∀ l, l ≡ₚ [r9; r10] →
              sortSlice (sortLess fmtFloat colName true) l = [r10; r9]).
    { intros l Hl.
      pose proof (sortSlice_Permutation (sortLess fmtFloat colName true) l) as Hp.
      assert (Hp' : [r9; r10] ≡ₚ sortSlice (sortLess fmtFloat colName true) l)
        by (by rewrite Hp).
      clear Hp. rename Hp' into Hp. apply Permutation_length_2_inv in Hp.
      pose proof (Sorted_merge_sort (notLessRev (sortLess fmtFloat colName true)) l) as Hs.
      fold (sortSlice (sortLess fmtFloat colName true) l) in Hs.
      destruct Hp as [Hp|Hp]; [|done]. rewrite Hp in Hs.
      apply Sorted_inv in Hs as [_ Hhd]. apply HdRel_inv in Hhd. done. }
    split; apply Hfix; [done|apply Permutation_swap].
  - intros env fs query now st. apply runQuery_resets.
Qed.

Lemma sort_policy_witness :
  ∃ colName st',
    index (currentColumns toggle_session) 0 = Some colName ∧
    selectedFunc (λ lit, lit) DefaultConfig 0 0 toggle_session = Some st' ∧
    sortColumn st' = 0 ∧
    sortAscending st'
    = (if sortColumn toggle_session =? 0 then negb (sortAscending toggle_session) else true) ∧
    currentData st' ≡ₚ currentData toggle_session ∧
    StronglySorted (inOrder (λ lit, lit) colName (sortAscending st')) (currentData st') ∧
    selection st' = (1, 0).
Proof.
  destruct (sort_policy (λ lit, lit) epochFormat DefaultConfig) as (Hsort & _).
  apply (Hsort toggle_session 0).
  - vm_compute. split; discriminate.
  - discriminate.
  - vm_compute. split; [discriminate|reflexivity].
Defined.

(** ** Persistence of the history *)

(** *** Bytes and UTF-8 *)

Lemma byte_val_range c : 0 <= byte_val c < 256.
Proof.
  unfold byte_val. pose proof (nat_ascii_bounded c). lia.
Qed.

Lemma byte_of_val c : byte (Z.to_nat (byte_val c)) = c.
Proof. unfold byte, byte_val. rewrite Nat2Z.id. apply ascii_nat_embedding. Qed.

Lemma val_of_byte z : 0 <= z < 256 → byte_val (byte (Z.to_nat z)) = z.
Proof.
  intros Hz. unfold byte, byte_val. rewrite nat_ascii_embedding by lia. lia.
Qed.

Lemma land_low_bits a n b : 0 <= n → 0 <= b < 2 ^ n → Z.land (a * 2 ^ n) b = 0.
Proof.
  intros Hn Hb. apply Z.bits_inj'. intros k Hk. rewrite Z.land_spec, Z.bits_0.
  destruct (Z.lt_ge_cases k n).
  - by rewrite Z.mul_pow2_bits_low.
  - rewrite <- (Z.mod_small b (2 ^ n)) by lia.
    rewrite Z.mod_pow2_bits_high by lia. apply andb_false_r.
Qed.

Lemma lor_low_bits a n b : 0 <= n → 0 <= b < 2 ^ n → Z.lor (a * 2 ^ n) b = a * 2 ^ n + b.
Proof.
  intros Hn Hb. pose proof (Z.add_lor_land (a * 2 ^ n) b) as H.
  rewrite land_low_bits in H by done. lia.
Qed.

Lemma land_63 x : Z.land x 63 = x mod 64.
Proof. change 63 with (Z.ones 6). by rewrite Z.land_ones. Qed.
Lemma land_31 x : Z.land x 31 = x mod 32.
Proof. change 31 with (Z.ones 5). by rewrite Z.land_ones. Qed.
Lemma land_15 x : Z.land x 15 = x mod 16.
Proof. change 15 with (Z.ones 4). by rewrite Z.land_ones. Qed.
Lemma land_7 x : Z.land x 7 = x mod 8.
Proof. change 7 with (Z.ones 3). by rewrite Z.land_ones. Qed.

Ltac dlia := Z.div_mod_to_equations; lia.

Lemma lor_192 x : 0 <= x < 64 → Z.lor 192 x = 192 + x.
Proof. intros H. change 192 with (3 * 2 ^ 6). by rewrite lor_low_bits. Qed.
Lemma lor_128 x : 0 <= x < 64 → Z.lor 128 x = 128 + x.
Proof. intros H. change 128 with (2 * 2 ^ 6). by rewrite lor_low_bits. Qed.
Lemma lor_224 x : 0 <= x < 16 → Z.lor 224 x = 224 + x.
Proof. intros H. change 224 with (14 * 2 ^ 4). by rewrite lor_low_bits. Qed.
Lemma lor_240 x : 0 <= x < 8 → Z.lor 240 x = 240 + x.
Proof. intros H. change 240 with (30 * 2 ^ 3). by rewrite lor_low_bits. Qed.

Lemma lor_pack6 x y : 0 <= y < 64 → Z.lor (Z.shiftl x 6) y = x * 64 + y.
Proof.
  intros Hy. rewrite Z.shiftl_mul_pow2 by done. change (2 ^ 6) with 64 in *.
  change 64 with (2 ^ 6) at 1. by apply lor_low_bits.
Qed.
Lemma lor_pack12 x y : 0 <= y < 4096 → Z.lor (Z.shiftl x 12) y = x * 4096 + y.
Proof.
  intros Hy. rewrite Z.shiftl_mul_pow2 by done. by apply lor_low_bits.
Qed.
Lemma lor_pack18 x y : 0 <= y < 262144 → Z.lor (Z.shiftl x 18) y = x * 262144 + y.
Proof.
  intros Hy. rewrite Z.shiftl_mul_pow2 by done. by apply lor_low_bits.
Qed.

Lemma rune2_eq b0 b1 :
  Z.lor (Z.shiftl (Z.land b0 31) 6) (Z.land b1 63) = b0 mod 32 * 64 + b1 mod 64.
Proof.
  rewrite land_31, land_63. apply lor_pack6. apply Z.mod_pos_bound. lia.
Qed.

Lemma rune3_eq b0 b1 b2 :
  Z.lor (Z.shiftl (Z.land b0 15) 12) (Z.lor (Z.shiftl (Z.land b1 63) 6) (Z.land b2 63))
  = b0 mod 16 * 4096 + b1 mod 64 * 64 + b2 mod 64.
Proof.
  rewrite land_15, !land_63.
  pose proof (Z.mod_pos_bound b1 64 ltac:(lia)). pose proof (Z.mod_pos_bound b2 64 ltac:(lia)).
  rewrite lor_pack6 by done. rewrite lor_pack12 by lia. lia.
Qed.

Lemma rune4_eq b0 b1 b2 b3 :
  Z.lor (Z.shiftl (Z.land b0 7) 18)
    (Z.lor (Z.shiftl (Z.land b1 63) 12)
       (Z.lor (Z.shiftl (Z.land b2 63) 6) (Z.land b3 63)))
  = b0 mod 8 * 262144 + b1 mod 64 * 4096 + b2 mod 64 * 64 + b3 mod 64.
Proof.
  rewrite land_7, !land_63.
  pose proof (Z.mod_pos_bound b1 64 ltac:(lia)). pose proof (Z.mod_pos_bound b2 64 ltac:(lia)).
  pose proof (Z.mod_pos_bound b3 64 ltac:(lia)).
  rewrite lor_pack6 by done. rewrite lor_pack12 by lia. rewrite lor_pack18 by lia. lia.
Qed.

Lemma EncodeRune_1 r : 0 <= r <= 127 → EncodeRune r = bytes [r].
Proof.
  intros Hr. unfold EncodeRune.
  by replace ((0 <=? r) && (r <=? 127)) with true by (symmetry; apply andb_true_iff; lia).
Qed.

Lemma EncodeRune_2 r :
  128 <= r <= 2047 → EncodeRune r = bytes [192 + r / 64; 128 + r mod 64].
Proof.
  intros Hr. unfold EncodeRune.
  replace ((0 <=? r) && (r <=? 127)) with false by (symmetry; apply andb_false_iff; lia).
  replace ((0 <=? r) && (r <=? 2047)) with true by (symmetry; apply andb_true_iff; lia).
  rewrite Z.shiftr_div_pow2, land_63 by lia. change (2 ^ 6) with 64.
  rewrite lor_192, lor_128; [done|dlia..].
Qed.

Lemma EncodeRune_3 r :
  2048 <= r <= 65535 → ¬ (55296 <= r < 57344) →
  EncodeRune r = bytes [224 + r / 4096; 128 + r / 64 mod 64; 128 + r mod 64].
Proof.
  intros Hr Hs. unfold EncodeRune, IsSurrogate.
  replace ((0 <=? r) && (r <=? 127)) with false by (symmetry; apply andb_false_iff; lia).
  replace ((0 <=? r) && (r <=? 2047)) with false by (symmetry; apply andb_false_iff; lia).
  replace ((r <? 0) || (1114111 <? r) || (55296 <=? r) && (r <? 57344)) with false.
  2:{ symmetry. rewrite !orb_false_iff, andb_false_iff. lia. }
  replace (r <=? 65535) with true by (symmetry; apply Z.leb_le; lia).
  rewrite !Z.shiftr_div_pow2, !land_63 by lia. change (2 ^ 6) with 64. change (2 ^ 12) with 4096.
  rewrite lor_224, !lor_128; [done|dlia..].
Qed.

Lemma EncodeRune_4 r :
  65536 <= r <= 1114111 →
  EncodeRune r = bytes [240 + r / 262144; 128 + r / 4096 mod 64;
                        128 + r / 64 mod 64; 128 + r mod 64].
Proof.
  intros Hr. unfold EncodeRune, IsSurrogate.
  replace ((0 <=? r) && (r <=? 127)) with false by (symmetry; apply andb_false_iff; lia).
  replace ((0 <=? r) && (r <=? 2047)) with false by (symmetry; apply andb_false_iff; lia).
  replace ((r <? 0) || (1114111 <? r) || (55296 <=? r) && (r <? 57344)) with false.
  2:{ symmetry. rewrite !orb_false_iff, andb_false_iff. lia. }
  replace (r <=? 65535) with false by (symmetry; apply Z.leb_gt; lia).
  rewrite !Z.shiftr_div_pow2, !land_63 by lia.
  change (2 ^ 6) with 64. change (2 ^ 12) with 4096. change (2 ^ 18) with 262144.
  rewrite lor_240, !lor_128; [done|dlia..].
Qed.

Lemma first_byte_spec b0 sz lo hi :
  first_byte b0 = Some (sz, lo, hi) →
  (sz = 2%nat ∧ 194 <= b0 <= 223 ∧ lo = 128 ∧ hi = 191) ∨
  (sz = 3%nat ∧ 224 <= b0 <= 239 ∧ 128 <= lo ∧ hi <= 191 ∧
     (b0 = 224 → lo = 160) ∧ (b0 = 237 → hi = 159)) ∨
  (sz = 4%nat ∧ 240 <= b0 <= 244 ∧ 128 <= lo ∧ hi <= 191 ∧
     (b0 = 240 → lo = 144) ∧ (b0 = 244 → hi = 143)).
Proof.
  unfold first_byte.
  repeat match goal with
         | |- context [if ?c then _ else _] => destruct c eqn:?
         end; intros [= <- <- <-];
    repeat match goal with
           | H : (_ && _) = true |- _ => apply andb_true_iff in H as [? ?]
           | H : (_ && _) = false |- _ => apply andb_false_iff in H
           end; lia.
Qed.

Lemma decodeRune_prefix s r size :
  s ≠ "" → decodeRune s = (r, size) → (r =? RuneError) && (size =? 1)%nat = false →
  ∀ t, decodeRune (take_bytes size s +:+ t) = (r, size).
Proof.
  intros Hs Hd Hv t. destruct s as [|c0 s1]; [done|].
  revert Hd. unfold decodeRune.
  destruct (byte_val c0 <? 128) eqn:H0.
  { intros [= <- <-]. simpl. by rewrite H0. }
  destruct (first_byte (byte_val c0)) as [[[sz lo] hi]|] eqn:Hfb.
  2:{ intros [= <- <-]. done. }
  destruct s1 as [|c1 s2]; [intros [= <- <-]; done|].
  destruct ((byte_val c1 <? lo) || (hi <? byte_val c1)) eqn:H1; [intros [= <- <-]; done|].
  destruct (sz <=? 2)%nat eqn:Hsz2.
  { intros [= <- <-]. simpl. by rewrite H0, Hfb, H1, Hsz2. }
  destruct s2 as [|c2 s3]; [intros [= <- <-]; done|].
  destruct (negb (is_cont (byte_val c2))) eqn:H2; [intros [= <- <-]; done|].
  destruct (sz <=? 3)%nat eqn:Hsz3.
  { intros [= <- <-]. simpl. by rewrite H0, Hfb, H1, Hsz2, H2, Hsz3. }
  destruct s3 as [|c3 s4]; [intros [= <- <-]; done|].
  destruct (negb (is_cont (byte_val c3))) eqn:H3; [intros [= <- <-]; done|].
  intros [= <- <-]. simpl. by rewrite H0, Hfb, H1, Hsz2, H2, Hsz3, H3.
Qed.

Lemma bytes_cons b l : bytes (b :: l) = String (byte (Z.to_nat b)) (bytes l).
Proof. reflexivity. Qed.

Lemma decodeRune_encode s r size :
  s ≠ "" → decodeRune s = (r, size) → (r =? RuneError) && (size =? 1)%nat = false →
  take_bytes size s = EncodeRune r.
Proof.
  intros Hs Hd Hv. destruct s as [|c0 s1]; [done|].
  revert Hd. unfold decodeRune.
  pose proof (byte_val_range c0) as R0.
  destruct (Z.ltb_spec (byte_val c0) 128) as [H0|H0].
  { intros [= <- <-]. rewrite EncodeRune_1 by lia. simpl. by rewrite byte_of_val. }
  destruct (first_byte (byte_val c0)) as [[[sz lo] hi]|] eqn:Hfb.
  2:{ intros [= <- <-]. done. }
  apply first_byte_spec in Hfb.
  destruct s1 as [|c1 s2]; [intros [= <- <-]; done|].
  pose proof (byte_val_range c1) as R1.
  destruct ((byte_val c1 <? lo) || (hi <? byte_val c1)) eqn:H1; [intros [= <- <-]; done|].
  apply orb_false_iff in H1 as [H1a H1b]. apply Z.ltb_ge in H1a, H1b.
  destruct (Nat.leb_spec sz 2) as [Hsz2|Hsz2].
  { intros [= <- <-]. rewrite rune2_eq. rewrite EncodeRune_2 by dlia.
    rewrite !bytes_cons. simpl.
    replace (192 + _ / 64) with (byte_val c0) by dlia.
    replace (128 + _ mod 64) with (byte_val c1) by dlia.
    by rewrite !byte_of_val. }
  destruct s2 as [|c2 s3]; [intros [= <- <-]; done|].
  pose proof (byte_val_range c2) as R2.
  destruct (is_cont (byte_val c2)) eqn:H2; simpl; [|intros [= <- <-]; done].
  apply andb_true_iff in H2 as [H2a H2b]. apply Z.leb_le in H2a, H2b.
  destruct (Nat.leb_spec sz 3) as [Hsz3|Hsz3].
  { intros [= <- <-]. rewrite rune3_eq. rewrite EncodeRune_3 by dlia.
    rewrite !bytes_cons. simpl.
    replace (224 + _ / 4096) with (byte_val c0) by dlia.
    replace (128 + _ / 64 mod 64) with (byte_val c1) by dlia.
    replace (128 + _ mod 64) with (byte_val c2) by dlia.
    by rewrite !byte_of_val. }
  destruct s3 as [|c3 s4]; [intros [= <- <-]; done|].
  pose proof (byte_val_range c3) as R3.
  destruct (is_cont (byte_val c3)) eqn:H3; simpl; [|intros [= <- <-]; done].
  apply andb_true_iff in H3 as [H3a H3b]. apply Z.leb_le in H3a, H3b.
  intros [= <- <-]. rewrite rune4_eq. rewrite EncodeRune_4 by dlia.
  rewrite !bytes_cons. simpl.
  replace (240 + _ / 262144) with (byte_val c0) by dlia.
  replace (128 + _ / 4096 mod 64) with (byte_val c1) by dlia.
  replace (128 + _ / 64 mod 64) with (byte_val c2) by dlia.
  replace (128 + _ mod 64) with (byte_val c3) by dlia.
  by rewrite !byte_of_val.
Qed.

Lemma decodeRune_size s r size : decodeRune s = (r, size) → (size <= String.length s)%nat.
Proof.
  destruct s as [|c0 [|c1 [|c2 [|c3 s4]]]]; unfold decodeRune;
    repeat match goal with
           | |- context [if ?c then _ else _] => destruct c
           | |- context [match ?x with _ => _ end] => destruct x
           end; intros [= <- <-]; simpl; lia.
Qed.

Lemma append_cons c a b : String c a +:+ b = String c (a +:+ b).
Proof. reflexivity. Qed.

Lemma append_nil_l a : "" +:+ a = a.
Proof. reflexivity. Qed.

Lemma take_drop_bytes n s : take_bytes n s +:+ drop_bytes n s = s.
Proof.
  revert s. induction n as [|n IH]; intros [|c s]; simpl; try done.
  rewrite append_cons. f_equal. apply IH.
Qed.

Lemma drop_bytes_app p t : drop_bytes (String.length p) (p +:+ t) = t.
Proof.
  induction p as [|c p IH]; [by destruct t|]. rewrite append_cons. simpl. apply IH.
Qed.

Lemma append_assoc a b c : (a +:+ b) +:+ c = a +:+ (b +:+ c).
Proof.
  induction a as [|x a IH]; [done|]. rewrite !append_cons. by rewrite IH.
Qed.

Lemma escapeByte_scan c X :
  (byte_val c <? 128) = true → htmlSafe (byte_val c) = false →
  ∃ tail, escapeByte (byte_val c) = String (byte 92) tail ∧
          (2 <= String.length (escapeByte (byte_val c)))%nat ∧
          scan_escape (tail +:+ X) = Some (String c "", X).
Proof.
  destruct c as [[] [] [] [] [] [] [] []]; intros H1 H2;
    try discriminate H1; try discriminate H2;
    (eexists; split; [reflexivity|split; [simpl; lia|reflexivity]]).
Qed.

Lemma decodeRune_pos s r size : s ≠ "" → decodeRune s = (r, size) → (1 <= size)%nat.
Proof.
  destruct s as [|c0 [|c1 [|c2 [|c3 s4]]]]; [done|..]; intros _; unfold decodeRune;
    repeat match goal with
           | |- context [if ?c then _ else _] => destruct c
           | |- context [match ?x with _ => _ end] => destruct x
           end; intros [= <- <-]; simpl; lia.
Qed.

Lemma length_take_bytes_le n s :
  (n <= String.length s)%nat → String.length (take_bytes n s) = n.
Proof. intros H. rewrite length_take_bytes. lia. Qed.

(** One step of [scan_string], by the kind of the first byte. *)
Lemma scan_string_quote f rest : scan_string (S f) (dquote +:+ rest) = Some ("", rest).
Proof. reflexivity. Qed.

Lemma scan_string_ascii f c s' body rest :
  32 <= byte_val c < 128 → byte_val c ≠ 34 → byte_val c ≠ 92 →
  scan_string f s' = Some (body, rest) →
  scan_string (S f) (String c s') = Some (String c body, rest).
Proof.
  intros Hc H34 H92 Hs. simpl.
  rewrite (proj2 (Z.eqb_neq _ _) H34), (proj2 (Z.eqb_neq _ _) H92).
  replace (byte_val c <? 32) with false by (symmetry; apply Z.ltb_ge; lia).
  replace (byte_val c <? 128) with true by (symmetry; apply Z.ltb_lt; lia).
  by rewrite Hs.
Qed.

Lemma scan_string_backslash f s' piece r body rest :
  scan_escape s' = Some (piece, r) → scan_string f r = Some (body, rest) →
  scan_string (S f) (String (byte 92) s') = Some (piece +:+ body, rest).
Proof. intros He Hs. simpl. rewrite He. simpl. by rewrite Hs. Qed.

Lemma scan_string_rune f c s' r size body rest :
  128 <= byte_val c → decodeRune (String c s') = (r, size) →
  scan_string f (drop_bytes size (String c s')) = Some (body, rest) →
  scan_string (S f) (String c s') = Some (EncodeRune r +:+ body, rest).
Proof.
  intros Hc Hd Hs. cbn [scan_string].
  replace (byte_val c =? 34) with false by (symmetry; apply Z.eqb_neq; lia).
  replace (byte_val c =? 92) with false by (symmetry; apply Z.eqb_neq; lia).
  replace (byte_val c <? 32) with false by (symmetry; apply Z.ltb_ge; lia).
  replace (byte_val c <? 128) with false by (symmetry; apply Z.ltb_ge; lia).
  rewrite Hd, Hs. reflexivity.
Qed.

Lemma htmlSafe_facts b :
  htmlSafe b = true → 32 <= b < 128 ∧ b ≠ 34 ∧ b ≠ 92.
Proof.
  unfold htmlSafe. rewrite !andb_true_iff, negb_true_iff, !orb_false_iff.
  intros [[H1 H2] [[[[H3 H4] _] _] _]].
  apply Z.leb_le in H1. apply Z.ltb_lt in H2. apply Z.eqb_neq in H3, H4. lia.
Qed.

Lemma scan_string_escapeString n :
  ∀ s rest f,
    valid_from n s = true → (String.length (escapeString n s) < f)%nat →
    scan_string f (escapeString n s +:+ dquote +:+ rest) = Some (s, rest).
Proof.
  induction n as [|n IH]; intros s rest f Hv Hf.
  { destruct s; [|done]. destruct f; [simpl in Hf; lia|]. apply scan_string_quote. }
  destruct s as [|c s'].
  { destruct f; [simpl in Hf; lia|]. apply scan_string_quote. }
  revert Hv Hf. cbn [valid_from escapeString].
  destruct (Z.ltb_spec (byte_val c) 128) as [H0|H0].
  - (* an ASCII byte *)
    assert (Hd : decodeRune (String c s') = (byte_val c, 1%nat)).
    { unfold decodeRune. by rewrite (proj2 (Z.ltb_lt _ _) H0). }
    rewrite Hd.
    replace ((byte_val c =? RuneError) && (1 =? 1)%nat) with false.
    2:{ symmetry. apply andb_false_iff. left. apply Z.eqb_neq. unfold RuneError. lia. }
    cbn [drop_bytes]. intros Hv.
    destruct (htmlSafe (byte_val c)) eqn:Hsafe.
    + apply htmlSafe_facts in Hsafe as (Hr & H34 & H92).
      rewrite !append_cons, append_nil_l. intros Hf.
      destruct f as [|f]; [simpl in Hf; lia|].
      apply scan_string_ascii; try done. apply IH; [done|]. simpl in Hf. lia.
    + destruct (escapeByte_scan c (escapeString n s' +:+ dquote +:+ rest))
        as (tail & Heq & Hlen & Hscan); [by apply Z.ltb_lt|done|].
      rewrite length_append. intros Hf.
      rewrite Heq, !append_cons.
      destruct f as [|f]; [lia|].
      rewrite append_assoc.
      change (String c s') with (String c "" +:+ s').
      eapply scan_string_backslash; [exact Hscan|]. apply IH; [done|]. lia.
  - (* a multi-byte character *)
    destruct (decodeRune (String c s')) as [r size] eqn:Hd. cbn beta iota.
    destruct ((r =? RuneError) && (size =? 1)%nat) eqn:Herr; [done|]. intros Hv.
    pose proof (decodeRune_encode (String c s') r size ltac:(done) Hd Herr) as Henc.
    pose proof (decodeRune_size _ _ _ Hd) as Hsize.
    pose proof (decodeRune_pos (String c s') r size ltac:(done) Hd) as Hpos.
    assert (Hwhole : EncodeRune r +:+ drop_bytes size (String c s') = String c s').
    { rewrite <- Henc. apply take_drop_bytes. }
    destruct ((r =? 8232) || (r =? 8233)) eqn:Hsep.
    + rewrite !length_append. intros Hf.
      destruct f as [|f]; [lia|].
      assert (Hesc : ∀ X, scan_escape (bytes [117; 50; 48; 50]
                                +:+ String (hexlower (Z.land r 15)) "" +:+ X)
                          = Some (EncodeRune r, X)).
      { intros X. apply orb_true_iff in Hsep as [E|E]; apply Z.eqb_eq in E; subst r;
          reflexivity. }
      rewrite !append_assoc.
      change (bytes [92; 117; 50; 48; 50]) with (String (byte 92) (bytes [117; 50; 48; 50])).
      rewrite append_cons. rewrite <- Hwhole at 2.
      eapply scan_string_backslash; [apply Hesc|].
      apply IH; [done|]. simpl in Hf. lia.
    + rewrite !length_append, length_take_bytes_le by done. intros Hf.
      destruct f as [|f]; [lia|].
      rewrite append_assoc. rewrite <- Hwhole at 3.
      destruct size as [|k]; [lia|]. cbn [take_bytes]. rewrite append_cons.
      eapply scan_string_rune; [done| |].
      * rewrite <- append_cons.
        change (String c (take_bytes k s')) with (take_bytes (S k) (String c s')).
        by apply decodeRune_prefix.
      * rewrite <- append_cons.
        change (String c (take_bytes k s')) with (take_bytes (S k) (String c s')).
        rewrite <- (length_take_bytes_le (S k) (String c s')) at 1 by done.
        rewrite drop_bytes_app. apply IH; [done|]. lia.
Qed.

Lemma scan_string_plain t rest f :
  all_plain t = true → (String.length t < f)%nat →
  scan_string f (t +:+ dquote +:+ rest) = Some (t, rest).
Proof.
  revert f. induction t as [|c t IH]; intros f Hp Hf.
  - destruct f; [simpl in Hf; lia|]. apply scan_string_quote.
  - simpl in Hp. rewrite !andb_true_iff, !negb_true_iff in Hp.
    destruct Hp as [[[[H1 H2] H3] H4] Hp].
    apply Z.leb_le in H1. apply Z.ltb_lt in H2. apply Z.eqb_neq in H3, H4.
    destruct f as [|f]; [simpl in Hf; lia|]. rewrite append_cons.
    apply scan_string_ascii; try done. apply IH; [done|]. simpl in Hf. lia.
Qed.

Lemma scan_string_quoted s rest :
  ValidString s = true →
  scan_string (String.length (escapeString (String.length s) s +:+ dquote +:+ rest))
    (escapeString (String.length s) s +:+ dquote +:+ rest) = Some (s, rest).
Proof.
  intros Hv. apply scan_string_escapeString; [done|].
  rewrite length_append. unfold dquote. simpl. lia.
Qed.

Lemma scan_string_time t rest :
  all_plain t = true →
  scan_string (String.length (t +:+ dquote +:+ rest)) (t +:+ dquote +:+ rest) = Some (t, rest).
Proof.
  intros Hp. apply scan_string_plain; [done|].
  rewrite length_append. unfold dquote. simpl. lia.
Qed.

Lemma skip_ws_app w s : all_ws w = true → skip_ws (w +:+ s) = skip_ws s.
Proof.
  induction w as [|c w IH]; [done|]. simpl. intros [Hc Hw]%andb_true_iff.
  rewrite Hc. by apply IH.
Qed.

Lemma skip_ws_head c s : is_ws (byte_val c) = false → skip_ws (String c s) = String c s.
Proof. intros H. simpl. by rewrite H. Qed.

Lemma strip_prefix_app p s : strip_prefix p (p +:+ s) = Some s.
Proof.
  induction p as [|c p IH]; [by destruct s|].
  simpl. by rewrite Ascii.eqb_refl.
Qed.

(** A string literal, white space before it. *)
Lemma parse_value_string f d w body str rest :
  all_ws w = true →
  scan_string (String.length body) body = Some (str, rest) →
  parse_value (S f) d (w +:+ dquote +:+ body) = Some (VString str, rest).
Proof.
  intros Hw Hs. cbn [parse_value]. rewrite skip_ws_app by done.
  change (dquote +:+ body) with (String (byte 34) body).
  rewrite skip_ws_head by reflexivity.
  change (byte_val (byte 34)) with 34. cbn [Z.eqb Pos.eqb]. rewrite Hs. reflexivity.
Qed.

(** An object member, up to what follows its value. *)
Lemma parse_members_member f d w key s3 v s4 :
  all_ws w = true → all_plain key = true →
  parse_value f d s3 = Some (v, s4) →
  parse_members (S f) d (w +:+ dquote +:+ key +:+ dquote +:+ ":" +:+ s3)
  = match skip_ws s4 with
    | EmptyString => None
    | String c s5 =>
      if byte_val c =? 44 then
        '(m, s6) ← parse_members f d s5; Some ((key, v) :: m, s6)
      else if byte_val c =? 125 then Some ([(key, v)], s5)
      else None
    end.
Proof.
  intros Hw Hk Hv. cbn [parse_members]. rewrite skip_ws_app by done.
  change (dquote +:+ ?x) with (String (byte 34) x).
  rewrite skip_ws_head by reflexivity.
  change (strip_prefix (bytes [34]) (String (byte 34) ?x)) with (Some x).
  cbn [mbind option_bind].
  rewrite scan_string_plain; [|done|rewrite length_append; simpl; lia].
  cbn [mbind option_bind].
  change (skip_ws (":" +:+ s3)) with (":" +:+ s3).
  change (strip_prefix ":" (":" +:+ s3)) with (Some s3).
  cbn [mbind option_bind]. rewrite Hv. reflexivity.
Qed.

Lemma parse_members_more f d w key s3 v w2 s5 m s6 :
  all_ws w = true → all_plain key = true → all_ws w2 = true →
  parse_value f d s3 = Some (v, w2 +:+ "," +:+ s5) →
  parse_members f d s5 = Some (m, s6) →
  parse_members (S f) d (w +:+ dquote +:+ key +:+ dquote +:+ ":" +:+ s3)
  = Some ((key, v) :: m, s6).
Proof.
  intros Hw Hk Hw2 Hv Hm. rewrite (parse_members_member _ _ _ _ _ _ _ Hw Hk Hv).
  rewrite skip_ws_app by done. change (skip_ws ("," +:+ s5)) with (String "," s5).
  change (byte_val "," =? 44) with true. cbn iota. by rewrite Hm.
Qed.

Lemma parse_members_last f d w key s3 v w2 s5 :
  all_ws w = true → all_plain key = true → all_ws w2 = true →
  parse_value f d s3 = Some (v, w2 +:+ "}" +:+ s5) →
  parse_members (S f) d (w +:+ dquote +:+ key +:+ dquote +:+ ":" +:+ s3)
  = Some ([(key, v)], s5).
Proof.
  intros Hw Hk Hw2 Hv. rewrite (parse_members_member _ _ _ _ _ _ _ Hw Hk Hv).
  rewrite skip_ws_app by done. reflexivity.
Qed.

Lemma parse_value_object f d w s' m r :
  all_ws w = true → strip_prefix "}" (skip_ws s') = None →
  parse_members f d s' = Some (m, r) →
  parse_value (S f) (S d) (w +:+ "{" +:+ s') = Some (VMap m, r).
Proof.
  intros Hw Hne Hm. cbn [parse_value]. rewrite skip_ws_app by done.
  change (skip_ws ("{" +:+ s')) with (String "{" s').
  change (byte_val "{" =? 123) with true. cbn iota. by rewrite Hne, Hm.
Qed.

Lemma parse_value_array f d w s' l r :
  all_ws w = true → strip_prefix "]" (skip_ws s') = None →
  parse_elems f d s' = Some (l, r) →
  parse_value (S f) (S d) (w +:+ "[" +:+ s') = Some (VSlice l, r).
Proof.
  intros Hw Hne Hm. cbn [parse_value]. rewrite skip_ws_app by done.
  change (skip_ws ("[" +:+ s')) with (String "[" s').
  change (byte_val "[" =? 123) with false. change (byte_val "[" =? 91) with true.
  cbn iota. by rewrite Hne, Hm.
Qed.

Lemma parse_value_empty_array f d w r :
  all_ws w = true →
  parse_value (S f) (S d) (w +:+ "[]" +:+ r) = Some (VSlice [], r).
Proof.
  intros Hw. cbn [parse_value]. rewrite skip_ws_app by done. reflexivity.
Qed.

Lemma parse_elems_more f d s v w2 s2 vs s3 :
  all_ws w2 = true →
  parse_value f d s = Some (v, w2 +:+ "," +:+ s2) →
  parse_elems f d s2 = Some (vs, s3) →
  parse_elems (S f) d s = Some (v :: vs, s3).
Proof.
  intros Hw2 Hv Hvs. cbn [parse_elems]. rewrite Hv. cbn [mbind option_bind].
  rewrite skip_ws_app by done. change (skip_ws ("," +:+ s2)) with (String "," s2).
  change (byte_val "," =? 44) with true. cbn iota. by rewrite Hvs.
Qed.

Lemma parse_elems_last f d s v w2 s2 :
  all_ws w2 = true →
  parse_value f d s = Some (v, w2 +:+ "]" +:+ s2) →
  parse_elems (S f) d s = Some ([v], s2).
Proof.
  intros Hw2 Hv. cbn [parse_elems]. rewrite Hv. cbn [mbind option_bind].
  rewrite skip_ws_app by done. reflexivity.
Qed.

(** *** Fuel

    Each recursion on [fuel] is given enough of it: with more, the result is
    the same. *)

Lemma length_drop_bytes n s :
  String.length (drop_bytes n s) = (String.length s - n)%nat.
Proof. revert s. induction n as [|n IH]; intros [|c s]; simpl; auto. Qed.

Lemma String_neq_empty c s : String c s ≠ "".
Proof. done. Qed.

Lemma trimLeft_fuel n m s :
  (String.length s <= n)%nat → (String.length s <= m)%nat → trimLeft n s = trimLeft m s.
Proof.
  revert m s. induction n as [|n IH]; intros m s Hn Hm.
  - destruct s; [|simpl in Hn; lia]. by destruct m.
  - destruct m as [|m]; [destruct s; [done|simpl in Hm; lia]|].
    cbn [trimLeft]. destruct (decodeRune s) as [r size] eqn:Hd.
    destruct (0 <? size)%nat eqn:Hs; [|done]. apply Nat.ltb_lt in Hs.
    cbn [andb]. destruct (IsSpace r); [|done].
    apply IH; rewrite length_drop_bytes; lia.
Qed.

Lemma decodeLastRune_size s r size :
  decodeLastRune s = (r, size) → (size <= String.length s)%nat.
Proof.
  unfold decodeLastRune. destruct (String.length s) as [|e] eqn:Hl; [intros [= <- <-]; lia|].
  destruct (byte_at s e <? 128); [intros [= <- <-]; lia|].
  match goal with |- context [decodeRune (drop_bytes ?st s)] => set (start := st) end.
  destruct (decodeRune (drop_bytes start s)) as [r' size'] eqn:Hd.
  destruct (start + size' =? S e)%nat eqn:He; intros [= <- <-]; [|lia].
  apply Nat.eqb_eq in He. lia.
Qed.

Lemma trimRight_fuel n m s :
  (String.length s <= n)%nat → (String.length s <= m)%nat → trimRight n s = trimRight m s.
Proof.
  revert m s. induction n as [|n IH]; intros m s Hn Hm.
  - destruct s; [|simpl in Hn; lia]. by destruct m.
  - destruct m as [|m]; [destruct s; [done|simpl in Hm; lia]|].
    cbn [trimRight]. destruct (decodeLastRune s) as [r size] eqn:Hd.
    destruct (0 <? size)%nat eqn:Hs; [|done]. apply Nat.ltb_lt in Hs.
    cbn [andb]. destruct (IsSpace r); [|done].
    apply IH; rewrite length_take_bytes; lia.
Qed.

Lemma valid_from_fuel n m s :
  (String.length s <= n)%nat → (String.length s <= m)%nat → valid_from n s = valid_from m s.
Proof.
  revert m s. induction n as [|n IH]; intros m s Hn Hm.
  - destruct s; [|simpl in Hn; lia]. by destruct m.
  - destruct m as [|m]; [destruct s; [done|simpl in Hm; lia]|].
    destruct s as [|c s]; [done|]. cbn [valid_from].
    destruct (decodeRune (String c s)) as [r size] eqn:Hd.
    destruct ((r =? RuneError) && (size =? 1)%nat); [done|].
    pose proof (decodeRune_pos _ _ _ (String_neq_empty _ _) Hd).
    apply IH; rewrite length_drop_bytes; simpl in *; lia.
Qed.

Lemma escapeString_fuel n m s :
  (String.length s <= n)%nat → (String.length s <= m)%nat →
  escapeString n s = escapeString m s.
Proof.
  revert m s. induction n as [|n IH]; intros m s Hn Hm.
  - destruct s; [|simpl in Hn; lia]. by destruct m.
  - destruct m as [|m]; [destruct s; [done|simpl in Hm; lia]|].
    destruct s as [|c s]; [done|]. cbn [escapeString]. simpl in Hn, Hm.
    destruct (byte_val c <? 128).
    { f_equal. apply IH; lia. }
    destruct (decodeRune (String c s)) as [r size] eqn:Hd.
    pose proof (decodeRune_pos _ _ _ (String_neq_empty _ _) Hd).
    assert (escapeString n (drop_bytes size (String c s))
            = escapeString m (drop_bytes size (String c s))) as ->
      by (apply IH; rewrite length_drop_bytes; simpl; lia).
    by rewrite (IH m s) by lia.
Qed.

(** What a scanning function leaves is shorter than what it was given. *)
Lemma skip_ws_length s : (String.length (skip_ws s) <= String.length s)%nat.
Proof.
  induction s as [|c s IH]; [done|]. simpl. destruct (is_ws (byte_val c)); simpl; lia.
Qed.

Lemma strip_prefix_length p s r :
  strip_prefix p s = Some r → (String.length r + String.length p = String.length s)%nat.
Proof.
  revert s. induction p as [|a p IH]; intros [|b s]; simpl; try (intros [= <-]; simpl; lia).
  destruct (Ascii.eqb a b); [|discriminate]. intros H%IH. lia.
Qed.

Lemma span_digits_length s ds r :
  span_digits s = (ds, r) → (String.length ds + String.length r = String.length s)%nat.
Proof.
  revert ds r. induction s as [|c s IH]; intros ds r; simpl; [intros [= <- <-]; done|].
  destruct (is_digit (byte_val c)); [|intros [= <- <-]; done].
  destruct (span_digits s) as [ds' r']. intros [= <- <-]. specialize (IH _ _ eq_refl).
  simpl. lia.
Qed.

Lemma scan_number_length s lit r :
  scan_number s = Some (lit, r) → (String.length r < String.length s)%nat.
Proof.
  unfold scan_number.
  set (p := match s with
            | String c s' => if byte_val c =? 45 then ("-", s') else ("", s)
            | EmptyString => ("", s)
            end).
  assert (String.length p.2 <= String.length s)%nat as Hp.
  { subst p. destruct s as [|c s']; [done|]. destruct (byte_val c =? 45); simpl; lia. }
  destruct p as [sign s1]. simpl in Hp.
  destruct (span_digits s1) as [int s2] eqn:Hint. apply span_digits_length in Hint.
  destruct int as [|d0 int']; [done|]. simpl in Hint.
  destruct ((byte_val d0 =? 48) && negb (String.eqb int' "")); [done|].
  set (f := match s2 with
            | String c s' =>
              if byte_val c =? 46 then
                let '(fd, r) := span_digits s' in
                if String.eqb fd "" then None else Some ("." +:+ fd, r)
              else Some ("", s2)
            | EmptyString => Some ("", s2)
            end).
  assert (∀ x y, f = Some (x, y) → String.length y <= String.length s2)%nat as Hf.
  { subst f. intros x y. destruct s2 as [|c s']; [by intros [= <- <-]|].
    destruct (byte_val c =? 46); [|by intros [= <- <-]].
    destruct (span_digits s') as [fd r'] eqn:Hfd. apply span_digits_length in Hfd.
    destruct (String.eqb fd ""); [done|]. intros [= <- <-]. simpl. lia. }
  destruct f as [[frac s3]|]; [|done]. specialize (Hf _ _ eq_refl). cbn [mbind option_bind].
  set (g := match s3 with
            | String c s' => _
            | EmptyString => Some ("", s3)
            end).
  assert (∀ x y, g = Some (x, y) → String.length y <= String.length s3)%nat as Hg.
  { subst g. intros x y. destruct s3 as [|c s']; [by intros [= <- <-]|].
    destruct ((byte_val c =? 101) || (byte_val c =? 69)); [|by intros [= <- <-]].
    set (q := match s' with
              | String c' r0 =>
                if (byte_val c' =? 43) || (byte_val c' =? 45)
                then (String c' "", r0) else ("", s')
              | EmptyString => ("", s')
              end).
    assert (String.length q.2 <= String.length s')%nat as Hq.
    { subst q. destruct s' as [|c' r0]; [done|].
      destruct ((byte_val c' =? 43) || (byte_val c' =? 45)); simpl; lia. }
    destruct q as [esign s'']. simpl in Hq.
    destruct (span_digits s'') as [ed r'] eqn:Hed. apply span_digits_length in Hed.
    destruct (String.eqb ed ""); [done|]. intros [= <- <-]. simpl. lia. }
  destruct g as [[exp s4]|]; [|done]. specialize (Hg _ _ eq_refl). cbn [mbind option_bind].
  intros [= <- <-]. lia.
Qed.

Lemma getu4_length s x r :
  getu4 s = Some (x, r) → (String.length r + 6 = String.length s)%nat.
Proof.
  destruct s as [|bs [|u [|h1 [|h2 [|h3 [|h4 r']]]]]]; try done. cbn [getu4].
  destruct ((byte_val bs =? 92) && (byte_val u =? 117)); [|done].
  destruct (hexval (byte_val h1)); [|done]. destruct (hexval (byte_val h2)); [|done].
  destruct (hexval (byte_val h3)); [|done]. destruct (hexval (byte_val h4)); [|done].
  intros [= <- <-]. simpl. lia.
Qed.

Lemma scan_escape_length s piece r :
  scan_escape s = Some (piece, r) → (String.length r < String.length s)%nat.
Proof.
  destruct s as [|c s']; [done|]. cbn [scan_escape]. cbv zeta.
  destruct ((byte_val c =? 34) || (byte_val c =? 92) || (byte_val c =? 47));
    [intros [= <- <-]; simpl; lia|].
  destruct (byte_val c =? 98); [intros [= <- <-]; simpl; lia|].
  destruct (byte_val c =? 102); [intros [= <- <-]; simpl; lia|].
  destruct (byte_val c =? 110); [intros [= <- <-]; simpl; lia|].
  destruct (byte_val c =? 114); [intros [= <- <-]; simpl; lia|].
  destruct (byte_val c =? 116); [intros [= <- <-]; simpl; lia|].
  destruct (byte_val c =? 117); [|done].
  destruct (getu4 (String (byte 92) (String c s'))) as [[rr r1]|] eqn:H1; [|done].
  apply getu4_length in H1. simpl in H1. cbn [mbind option_bind].
  destruct (IsSurrogate rr); [|intros [= <- <-]; simpl; lia].
  destruct (getu4 r1) as [[rr1 r2]|] eqn:H2; [|intros [= <- <-]; simpl; lia].
  apply getu4_length in H2.
  destruct (utf16_DecodeRune rr rr1 =? RuneError); intros [= <- <-]; simpl; lia.
Qed.

Lemma scan_string_length n s body r :
  scan_string n s = Some (body, r) → (String.length r < String.length s)%nat.
Proof.
  revert s body r. induction n as [|n IH]; intros s body r; [done|].
  destruct s as [|c s']; [done|]. cbn [scan_string]. cbv zeta.
  destruct (byte_val c =? 34); [intros [= <- <-]; simpl; lia|].
  destruct (byte_val c =? 92).
  { destruct (scan_escape s') as [[piece r1]|] eqn:He; [|done].
    apply scan_escape_length in He. cbn [mbind option_bind].
    destruct (scan_string n r1) as [[b1 r2]|] eqn:Hs; [|done]. apply IH in Hs.
    intros [= <- <-]. simpl. lia. }
  destruct (byte_val c <? 32); [done|].
  destruct (byte_val c <? 128).
  { destruct (scan_string n s') as [[b1 r2]|] eqn:Hs; [|done]. apply IH in Hs.
    intros [= <- <-]. simpl. lia. }
  destruct (decodeRune (String c s')) as [rr size] eqn:Hd.
  destruct (scan_string n (drop_bytes size (String c s'))) as [[b1 r2]|] eqn:Hs; [|done].
  apply IH in Hs. rewrite length_drop_bytes in Hs.
  pose proof (decodeRune_pos _ _ _ (String_neq_empty _ _) Hd).
  intros [= <- <-]. simpl in *. lia.
Qed.

Lemma scan_string_fuel n m s :
  (String.length s <= n)%nat → (String.length s <= m)%nat →
  scan_string n s = scan_string m s.
Proof.
  revert m s. induction n as [|n IH]; intros m s Hn Hm.
  - destruct s; [|simpl in Hn; lia]. by destruct m.
  - destruct m as [|m]; [destruct s; [done|simpl in Hm; lia]|].
    destruct s as [|c s']; [done|]. cbn [scan_string]. cbv zeta. simpl in Hn, Hm.
    destruct (byte_val c =? 34); [done|].
    destruct (byte_val c =? 92).
    { destruct (scan_escape s') as [[piece r1]|] eqn:He; [|done].
      apply scan_escape_length in He. cbn [mbind option_bind].
      by rewrite (IH m r1) by lia. }
    destruct (byte_val c <? 32); [done|].
    destruct (byte_val c <? 128); [by rewrite (IH m s') by lia|].
    destruct (decodeRune (String c s')) as [rr size] eqn:Hd.
    pose proof (decodeRune_pos _ _ _ (String_neq_empty _ _) Hd).
    by rewrite (IH m (drop_bytes size (String c s')))
      by (rewrite length_drop_bytes; simpl; lia).
Qed.

Lemma skip_ws_cons_length s c s' :
  skip_ws s = String c s' → (String.length s' < String.length s)%nat.
Proof. intros H. pose proof (skip_ws_length s) as Hl. rewrite H in Hl. simpl in Hl. lia. Qed.

(** A value, an element list or a member list takes at least one byte. *)
Lemma parse_length n :
  (∀ d s v r, parse_value n d s = Some (v, r) → (String.length r < String.length s)%nat)
  ∧ (∀ d s l r, parse_elems n d s = Some (l, r) → (String.length r < String.length s)%nat)
  ∧ (∀ d s m r, parse_members n d s = Some (m, r) → (String.length r < String.length s)%nat).
Proof.
  induction n as [|n (IHv & IHe & IHm)]; [done|]. split_and!.
  - intros d s v r. cbn [parse_value].
    destruct (skip_ws s) as [|c s'] eqn:Hw; [done|]. apply skip_ws_cons_length in Hw.
    cbv zeta.
    destruct (byte_val c =? 123).
    { destruct d as [|d']; [done|].
      destruct (strip_prefix "}" (skip_ws s')) as [r0|] eqn:Hp.
      - apply strip_prefix_length in Hp. pose proof (skip_ws_length s').
        intros [= <- <-]. simpl in Hp. lia.
      - destruct (parse_members n d' s') as [[m r1]|] eqn:Hm; [|done]. apply IHm in Hm.
        intros [= <- <-]. lia. }
    destruct (byte_val c =? 91).
    { destruct d as [|d']; [done|].
      destruct (strip_prefix "]" (skip_ws s')) as [r0|] eqn:Hp.
      - apply strip_prefix_length in Hp. pose proof (skip_ws_length s').
        intros [= <- <-]. simpl in Hp. lia.
      - destruct (parse_elems n d' s') as [[l r1]|] eqn:Hm; [|done]. apply IHe in Hm.
        intros [= <- <-]. lia. }
    destruct (byte_val c =? 34).
    { destruct (scan_string (String.length s') s') as [[str r1]|] eqn:Hs; [|done].
      apply scan_string_length in Hs. intros [= <- <-]. lia. }
    destruct (byte_val c =? 116).
    { destruct (strip_prefix "rue" s') as [r1|] eqn:Hp; [|done].
      apply strip_prefix_length in Hp. intros [= <- <-]. lia. }
    destruct (byte_val c =? 102).
    { destruct (strip_prefix "alse" s') as [r1|] eqn:Hp; [|done].
      apply strip_prefix_length in Hp. intros [= <- <-]. lia. }
    destruct (byte_val c =? 110).
    { destruct (strip_prefix "ull" s') as [r1|] eqn:Hp; [|done].
      apply strip_prefix_length in Hp. intros [= <- <-]. lia. }
    destruct (scan_number (String c s')) as [[lit r1]|] eqn:Hs; [|done].
    apply scan_number_length in Hs. intros [= <- <-]. simpl in Hs. lia.
  - intros d s l r. cbn [parse_elems].
    destruct (parse_value n d s) as [[v s1]|] eqn:Hv; [|done]. apply IHv in Hv.
    cbn [mbind option_bind].
    destruct (skip_ws s1) as [|c s2] eqn:Hw; [done|]. apply skip_ws_cons_length in Hw.
    destruct (byte_val c =? 44).
    { destruct (parse_elems n d s2) as [[vs s3]|] eqn:He; [|done]. apply IHe in He.
      intros [= <- <-]. lia. }
    destruct (byte_val c =? 93); [|done]. intros [= <- <-]. lia.
  - intros d s m r. cbn [parse_members].
    destruct (strip_prefix (bytes [34]) (skip_ws s)) as [s1|] eqn:H1; [|done].
    apply strip_prefix_length in H1. pose proof (skip_ws_length s). cbn [mbind option_bind].
    destruct (scan_string (String.length s1) s1) as [[k s2]|] eqn:H2; [|done].
    apply scan_string_length in H2. cbn [mbind option_bind].
    destruct (strip_prefix ":" (skip_ws s2)) as [s3|] eqn:H3; [|done].
    apply strip_prefix_length in H3. pose proof (skip_ws_length s2). cbn [mbind option_bind].
    destruct (parse_value n d s3) as [[v s4]|] eqn:Hv; [|done]. apply IHv in Hv.
    cbn [mbind option_bind].
    destruct (skip_ws s4) as [|c s5] eqn:Hw; [done|]. apply skip_ws_cons_length in Hw.
    destruct (byte_val c =? 44).
    { destruct (parse_members n d s5) as [[m' s6]|] eqn:He; [|done]. apply IHm in He.
      intros [= <- <-]. lia. }
    destruct (byte_val c =? 125); [|done]. intros [= <- <-]. lia.
Qed.

(** Fuel [2 * length + 1] is enough for a value, [2 * length + 2] for the
    rest of an array or of an object. *)
Lemma parse_fuel n :
  ∀ m,
  (∀ d s, (2 * String.length s + 1 <= n)%nat → (2 * String.length s + 1 <= m)%nat →
          parse_value n d s = parse_value m d s)
  ∧ (∀ d s, (2 * String.length s + 2 <= n)%nat → (2 * String.length s + 2 <= m)%nat →
            parse_elems n d s = parse_elems m d s)
  ∧ (∀ d s, (2 * String.length s + 2 <= n)%nat → (2 * String.length s + 2 <= m)%nat →
            parse_members n d s = parse_members m d s).
Proof.
  induction n as [|n IH]; intros m; [split_and!; intros; lia|].
  destruct m as [|m]; [split_and!; intros; lia|].
  destruct (IH m) as (IHv & IHe & IHm). destruct (parse_length n) as (Lv & Le & Lm).
  split_and!.
  - intros d s Hn Hm. cbn [parse_value].
    destruct (skip_ws s) as [|c s'] eqn:Hw; [done|]. apply skip_ws_cons_length in Hw.
    cbv zeta.
    destruct (byte_val c =? 123).
    { destruct d as [|d']; [done|]. destruct (strip_prefix "}" (skip_ws s')); [done|].
      by rewrite (IHm d' s') by lia. }
    destruct (byte_val c =? 91); [|done].
    destruct d as [|d']; [done|]. destruct (strip_prefix "]" (skip_ws s')); [done|].
    by rewrite (IHe d' s') by lia.
  - intros d s Hn Hm. cbn [parse_elems]. rewrite (IHv d s) by lia.
    destruct (parse_value m d s) as [[v s1]|] eqn:Hv; [|done].
    rewrite <- (IHv d s) in Hv by lia. apply Lv in Hv. cbn [mbind option_bind].
    destruct (skip_ws s1) as [|c s2] eqn:Hw; [done|]. apply skip_ws_cons_length in Hw.
    destruct (byte_val c =? 44); [|done]. by rewrite (IHe d s2) by lia.
  - intros d s Hn Hm. cbn [parse_members].
    destruct (strip_prefix (bytes [34]) (skip_ws s)) as [s1|] eqn:H1; [|done].
    apply strip_prefix_length in H1. pose proof (skip_ws_length s). cbn [mbind option_bind].
    destruct (scan_string (String.length s1) s1) as [[k s2]|] eqn:H2; [|done].
    apply scan_string_length in H2. cbn [mbind option_bind].
    destruct (strip_prefix ":" (skip_ws s2)) as [s3|] eqn:H3; [|done].
    apply strip_prefix_length in H3. pose proof (skip_ws_length s2). cbn [mbind option_bind].
    simpl in H1, H3.
    rewrite (IHv d s3) by lia.
    destruct (parse_value m d s3) as [[v s4]|] eqn:Hv; [|done].
    rewrite <- (IHv d s3) in Hv by lia. apply Lv in Hv. cbn [mbind option_bind].
    destruct (skip_ws s4) as [|c s5] eqn:Hw; [done|]. apply skip_ws_cons_length in Hw.
    destruct (byte_val c =? 44); [|done]. by rewrite (IHm d s5) by lia.
Qed.

(** The fuel of [parse] is enough. *)
Lemma parse_value_fuel n d s :
  (2 * String.length s + 2 <= n)%nat →
  parse_value n d s = parse_value (2 * String.length s + 2) d s.
Proof. intros H. apply parse_fuel; lia. Qed.

(** *** Reading the layout of a saved history *)
Lemma parse_value_entry F d w q t rest :
  (4 <= F)%nat → all_ws w = true → ValidString q = true → all_plain t = true →
  parse_value F (S d) (w +:+ entryText q t rest) = Some (entryValue (q, t), rest).
Proof.
  intros HF Hw Hq Ht. destruct F as [|[|[|[|F]]]]; try lia. clear HF.
  unfold entryText.
  apply parse_value_object; [done|by rewrite skip_ws_app|].
  eapply (parse_members_more _ _ ws6 "query" _ (VString q) ""); try done.
  - apply (parse_value_string _ _ " "); [done|]. by apply scan_string_quoted.
  - eapply (parse_members_last _ _ ws6 "timestamp" _ (VString t) ws4); try done.
    apply (parse_value_string _ _ " "); [done|]. by apply scan_string_time.
Qed.

Lemma parse_elems_entries d more :
  ∀ q t rest F,
    (4 <= F)%nat → ValidString q = true → all_plain t = true →
    Forall (λ qt, ValidString qt.1 = true ∧ all_plain qt.2 = true) more →
    parse_elems (S (length more + F)) (S d) (elemsText q t more rest)
    = Some (entryValue <$> ((q, t) :: more), rest).
Proof.
  induction more as [|[q' t'] more IH]; intros q t rest F HF Hq Ht Hmore.
  - simpl. eapply (parse_elems_last _ _ _ _ ws2); [done|].
    by apply parse_value_entry.
  - apply Forall_cons in Hmore as [[Hq' Ht'] Hmore].
    cbn [elemsText length]. 
    eapply (parse_elems_more _ _ _ (entryValue (q, t)) ""); [done| |].
    + apply parse_value_entry; try done. simpl. lia.
    + by apply (IH q' t' rest F).
Qed.

Lemma parse_value_doc F d qts :
  (length qts + 7 <= F)%nat →
  Forall (λ qt, ValidString qt.1 = true ∧ all_plain qt.2 = true) qts →
  parse_value F (S (S (S d))) (docText qts) = Some (docValue qts, "").
Proof.
  intros HF Hq. unfold docText, docValue.
  destruct F as [|[|[|F]]]; try lia.
  apply parse_value_object; [done|by rewrite skip_ws_app|].
  eapply (parse_members_last _ _ ws2 "entries" _ _ newline); try done.
  destruct qts as [|[q t] more]; unfold arrText.
  - by apply parse_value_empty_array.
  - apply Forall_cons in Hq as [[Hq Ht] Hmore]. simpl in HF.
    apply parse_value_array;
      [done|by unfold elemsText; destruct more as [|[??]?]; rewrite skip_ws_app|].
    destruct F as [|F]; [lia|].
    replace F with (length more + (F - length more))%nat by lia.
    change (entryValue (q, t) :: (entryValue <$> more))
      with (entryValue <$> ((q, t) :: more)).
    apply parse_elems_entries; try done. lia.
Qed.

Lemma length_entryText q t rest :
  (String.length rest < String.length (entryText q t rest))%nat.
Proof. unfold entryText. rewrite !length_append. simpl. lia. Qed.

Lemma length_elemsText more :
  ∀ q t rest, (length more < String.length (elemsText q t more rest))%nat.
Proof.
  induction more as [|[q' t'] more IH]; intros q t rest; cbn [elemsText length];
    rewrite length_append.
  - pose proof (length_entryText q t (ws2 +:+ "]" +:+ rest)). lia.
  - pose proof (length_entryText q t ("" +:+ "," +:+ elemsText q' t' more rest)) as H1.
    pose proof (IH q' t' rest) as H2.
    rewrite !length_append in H1. lia.
Qed.

Lemma length_docText qts : (length qts + 3 <= String.length (docText qts))%nat.
Proof.
  unfold docText. rewrite !length_append.
  destruct qts as [|[q t] more]; unfold arrText; rewrite ?length_append; simpl.
  - lia.
  - pose proof (length_elemsText more q t (newline +:+ "}" +:+ "")). lia.
Qed.

Lemma maxNestingDepth_3 : maxNestingDepth = S (S (S (Z.to_nat 9997))).
Proof. unfold maxNestingDepth. lia. Qed.

Lemma parse_docText qts :
  Forall (λ qt, ValidString qt.1 = true ∧ all_plain qt.2 = true) qts →
  parse (docText qts) = Some (docValue qts).
Proof.
  intros Hq. unfold parse. rewrite maxNestingDepth_3.
  rewrite parse_value_doc; [done| |done].
  pose proof (length_docText qts). lia.
Qed.

(** *** What [MarshalIndent] writes is that layout *)

Lemma entryString_text q t rest : entryString q t +:+ rest = entryText q t rest.
Proof.
  unfold entryString, entryText, quoteString. rewrite !append_assoc. reflexivity.
Qed.

Lemma marshalEntry_Some formatTime e x :
  marshalEntry formatTime e = Some x →
  ∃ t, formatTime (Timestamp e) = Some t ∧ x = entryString (Query e) t.
Proof.
  unfold marshalEntry. destruct (formatTime (Timestamp e)) as [t|]; [|done].
  intros [= <-]. by exists t.
Qed.

Lemma join_elemsText more :
  ∀ q t rest,
    (newline +:+ "    "
     +:+ join sepText (entryString q t :: ((λ qt, entryString qt.1 qt.2) <$> more))
     +:+ newline +:+ "  ]") +:+ rest
    = elemsText q t more rest.
Proof.
  induction more as [|[q' t'] more IH]; intros q t rest.
  - cbn [fmap list_fmap join elemsText]. rewrite !append_assoc.
    rewrite entryString_text. reflexivity.
  - cbn [fmap list_fmap]. cbn [join elemsText]. rewrite <- IH.
    rewrite !append_assoc. rewrite entryString_text. reflexivity.
Qed.

Lemma MarshalIndent_layout formatTime h b :
  MarshalIndent_history formatTime h = Some b →
  ∃ qts,
    Forall2 (λ e qt, Query e = qt.1 ∧ formatTime (Timestamp e) = Some qt.2)
            (Entries h) qts ∧
    b = docText qts.
Proof.
  unfold MarshalIndent_history.
  destruct (mapM (marshalEntry formatTime) (Entries h)) as [ents|] eqn:Hm; [|done].
  intros [= <-]. apply mapM_Some in Hm.
  assert (Hq : ∃ qts,
    Forall2 (λ e qt, Query e = qt.1 ∧ formatTime (Timestamp e) = Some qt.2)
            (Entries h) qts ∧
    ents = (λ qt, entryString qt.1 qt.2) <$> qts).
  { induction Hm as [|e x es xs Hx _ IH].
    - by exists [].
    - destruct IH as (qts & HF & ->).
      apply marshalEntry_Some in Hx as (t & Ht & ->).
      exists ((Query e, t) :: qts). split; [by constructor|done]. }
  destruct Hq as (qts & HF & ->). exists qts. split; [done|].
  unfold docText. destruct qts as [|[q t] more].
  - reflexivity.
  - cbn [fmap list_fmap arrText].
    rewrite <- (join_elemsText more q t).
    unfold sepText. rewrite !append_assoc. reflexivity.
Qed.

(** *** Reading back *)

Lemma decodeEntry_entryValue parseTime q t ts old :
  parseTime t = Some ts →
  decodeEntry parseTime (entryValue (q, t)) old = Some (mkEntry q ts).
Proof.
  intros Ht. unfold decodeEntry, entryValue. cbn [decodeEntryFields fst snd].
  change (selects "query" "query") with true.
  change (selects "timestamp" "query") with false.
  change (selects "timestamp" "timestamp") with true.
  cbn iota. cbn [Query Timestamp]. rewrite Ht. reflexivity.
Qed.

Lemma decodeEntries_entryValues formatTime parseTime es qts olds :
  (∀ t s, formatTime t = Some s → parseTime s = Some t) →
  Forall2 (λ e qt, Query e = qt.1 ∧ formatTime (Timestamp e) = Some qt.2) es qts →
  decodeEntries parseTime (entryValue <$> qts) olds = Some es.
Proof.
  intros Hrt HF. revert olds.
  induction HF as [|e [q t] es qts [Hq Ht] _ IH]; intros olds; [done|].
  rewrite fmap_cons. cbn [decodeEntries]. simpl in Hq, Ht.
  rewrite (decodeEntry_entryValue parseTime q t (Timestamp e)) by (by apply Hrt).
  cbn [mbind option_bind]. rewrite IH. cbn [mbind option_bind].
  destruct e. simpl in *. by subst.
Qed.

Lemma decode_docValue formatTime parseTime h qts :
  (∀ t s, formatTime t = Some s → parseTime s = Some t) →
  Forall2 (λ e qt, Query e = qt.1 ∧ formatTime (Timestamp e) = Some qt.2)
          (Entries h) qts →
  decodeHistoryFields parseTime [("entries", VSlice (entryValue <$> qts))] (mkHistory []) []
  = Some h.
Proof.
  intros Hrt HF. cbn [decodeHistoryFields].
  change (selects "entries" "entries") with true. cbn iota.
  destruct qts as [|qt qts].
  - apply Forall2_nil_inv_r in HF. destruct h. simpl in *. by subst.
  - rewrite fmap_cons. cbn iota.
    rewrite <- fmap_cons.
    rewrite (decodeEntries_entryValues formatTime parseTime (Entries h) (qt :: qts)) by done.
    cbn [mbind option_bind]. by destruct h.
Qed.

Lemma Unmarshal_Marshal_history formatTime parseTime h b :
  (∀ t s, formatTime t = Some s → parseTime s = Some t ∧ all_plain s = true) →
  Forall (λ e, ValidString (Query e) = true) (Entries h) →
  MarshalIndent_history formatTime h = Some b →
  Unmarshal_history parseTime b = Some h.
Proof.
  intros Htime Hvalid Hb.
  apply MarshalIndent_layout in Hb as (qts & HF & ->).
  unfold Unmarshal_history. rewrite parse_docText.
  - simpl. eapply decode_docValue; [|exact HF]. intros t s Hs. by apply Htime.
  - clear -Htime Hvalid HF. induction HF as [|e [q t] es qts [Hq Ht] _ IH]; [constructor|].
    apply Forall_cons in Hvalid as [Hv Hvalid]. constructor; [|by apply IH].
    simpl in *. subst q. split; [done|]. by apply (Htime (Timestamp e)).
Qed.

Lemma ReadFile_WriteFile fs p b fs' :
  WriteFile fs p b = (fs', None) → ReadFile fs' p = ReadOk b.
Proof.
  unfold WriteFile, ReadFile. destruct (decide (p ∈ fs_denied fs)) as [Hd|Hd]; [done|].
  intros [= <-]. simpl. destruct (decide (p ∈ fs_denied fs)); [done|].
  by rewrite lookup_insert_eq.
Qed.

(** C7 — when the time package reads back the text it writes (and that
    text needs no escaping), a history whose queries are valid UTF-8 and
    that [saveHistory] saved without error is what [loadHistory] returns
    afterwards: the same entries in the same order.  [loadHistory] returns
    the empty history, not an error, when the file does not exist, and
    also when its contents do not unmarshal. *)
Theorem history_round_trip (formatTime : Time → option string)
    (parseTime : string → option Time) :
  (∀ t s, formatTime t = Some s → parseTime s = Some t ∧ all_plain s = true) →
  (∀ env fs h fs',
     Forall (λ e, ValidString (Query e) = true) (Entries h) →
     saveHistory formatTime env fs h = (fs', None) →
     loadHistory parseTime env fs' = ROk h ∧
     ∀ h', loadHistory parseTime env fs' = ROk h' → queries h' = queries h) ∧
  (∀ env fs p,
     historyPath env = ROk p → ReadFile fs p = ReadNotExist →
     loadHistory parseTime env fs = ROk (mkHistory [])) ∧
  (∀ env fs p b,
     historyPath env = ROk p → ReadFile fs p = ReadOk b →
     Unmarshal_history parseTime b = None →
     loadHistory parseTime env fs = ROk (mkHistory [])) ∧
  Unmarshal_history parseTime "not json" = None ∧
  Unmarshal_history parseTime ("{" +:+ dquote +:+ "entries" +:+ dquote +:+ ": 5}") = None.
Proof.
  intros Htime. split; [|split; [|split; [|split]]].
  - intros env fs h fs' Hvalid Hsave.
    assert (Hload : loadHistory parseTime env fs' = ROk h).
    { revert Hsave. unfold saveHistory, loadHistory.
      destruct (historyPath env) as [p|err]; [|done].
      destruct (MkdirAll fs (filepath_Dir p)); [done|].
      destruct (MarshalIndent_history formatTime h) as [b|] eqn:Hb; [|done].
      intros Hw. rewrite (ReadFile_WriteFile _ _ _ _ Hw).
      by rewrite (Unmarshal_Marshal_history formatTime parseTime h b). }
    split; [done|]. intros h'. rewrite Hload. by intros [= <-].
  - intros env fs p Hp Hr. unfold loadHistory. by rewrite Hp, Hr.
  - intros env fs p b Hp Hr Hu. unfold loadHistory. by rewrite Hp, Hr, Hu.
  - reflexivity.
  - reflexivity.
Qed.

Lemma epoch_codec t s :
  epochFormat t = Some s → epochParse s = Some t ∧ all_plain s = true.
Proof.
  unfold epochFormat. destruct (Z.eqb_spec t 0) as [->|]; [|done].
  intros [= <-]. split; reflexivity.
Qed.

Lemma history_round_trip_witness :
  loadHistory epochParse home_env
    (saveHistory epochFormat home_env (mkFS ∅ ∅) saved_history).1
  = ROk saved_history.
Proof.
  destruct (history_round_trip epochFormat epochParse epoch_codec) as (Hrt & _).
  destruct (saveHistory epochFormat home_env (mkFS ∅ ∅) saved_history) as [fs' err] eqn:Hs.
  assert (Herr : err = None).
  { change err with ((fs', err).2). rewrite <- Hs. vm_compute. reflexivity. }
  subst err. simpl.
  apply (Hrt home_env (mkFS ∅ ∅) saved_history fs'); [|exact Hs].
  repeat constructor.
Defined.

(** * Further properties *)

(** ** The request *)

Lemma QueryEscape_cons c s :
  QueryEscape (String c s) = QueryEscape (String c "") +:+ QueryEscape s.
Proof.
  cbn [QueryEscape].
  destruct (_ || _); [done|]. by destruct (byte_val c =? 32).
Qed.

Lemma QueryEscape_byte c :
  all_url_bytes (QueryEscape (String c "")) = true
  ∧ ∀ t, unescape (QueryEscape (String c "") +:+ t) = String c <$> unescape t.
Proof.
  destruct c as [[] [] [] [] [] [] [] []]; split; try (intros t); reflexivity.
Qed.

Lemma all_url_bytes_app a b :
  all_url_bytes (a +:+ b) = all_url_bytes a && all_url_bytes b.
Proof. induction a as [|c a IH]; [done|]. simpl. by rewrite IH, andb_assoc. Qed.

Lemma QueryEscape_url_bytes s : all_url_bytes (QueryEscape s) = true.
Proof.
  induction s as [|c s IH]; [done|].
  rewrite QueryEscape_cons, all_url_bytes_app, IH.
  by rewrite (proj1 (QueryEscape_byte c)).
Qed.

Lemma unescape_QueryEscape s : unescape (QueryEscape s) = Some s.
Proof.
  induction s as [|c s IH]; [done|].
  by rewrite QueryEscape_cons, (proj2 (QueryEscape_byte c)), IH.
Qed.

Lemma append_inv_head a b c : a +:+ b = a +:+ c → b = c.
Proof. induction a as [|x a IH]; [done|]. intros [= H]. by apply IH. Qed.

(** ** The history store, continued *)

Lemma decodeRune_size0 s r : decodeRune s = (r, 0%nat) → r = RuneError.
Proof.
  destruct s as [|c s]; [by intros [= <-]|]. intros H.
  pose proof (decodeRune_pos _ _ _ (String_neq_empty c s) H). lia.
Qed.

Lemma IsSpace_RuneError : IsSpace RuneError = false.
Proof. reflexivity. Qed.

(** The first rune of a prefix is the first rune of the whole, or an
    error. *)
Lemma decodeRune_take k s :
  decodeRune (take_bytes k s) = decodeRune s ∨ (decodeRune (take_bytes k s)).1 = RuneError.
Proof.
  destruct s as [|c0 [|c1 [|c2 [|c3 s]]]]; destruct k as [|[|[|[|k]]]];
    cbn [take_bytes]; unfold decodeRune;
    repeat match goal with
           | |- context [if ?c then _ else _] => destruct c
           | |- context [match ?x with _ => _ end] => destruct x
           end; auto.
Qed.

Lemma trimLeft_head n s :
  (String.length s <= n)%nat → IsSpace (decodeRune (trimLeft n s)).1 = false.
Proof.
  revert s. induction n as [|n IH]; intros s Hn.
  - by destruct s; [|simpl in Hn; lia].
  - cbn [trimLeft]. destruct (decodeRune s) as [r size] eqn:Hd.
    destruct (0 <? size)%nat eqn:Hs.
    + apply Nat.ltb_lt in Hs. cbn [andb]. destruct (IsSpace r) eqn:Hr.
      * apply IH. rewrite length_drop_bytes. lia.
      * by rewrite Hd.
    + apply Nat.ltb_ge in Hs. assert (size = 0%nat) as -> by lia.
      cbn [andb]. rewrite Hd. by rewrite (decodeRune_size0 _ _ Hd).
Qed.

Lemma decodeLastRune_size0 s r : decodeLastRune s = (r, 0%nat) → r = RuneError.
Proof.
  unfold decodeLastRune. destruct (String.length s) as [|e]; [by intros [= <-]|].
  destruct (byte_at s e <? 128); [done|].
  match goal with |- context [decodeRune ?x] => destruct (decodeRune x) as [r' size'] eqn:Hd end.
  destruct (_ =? _)%nat; [|done]. intros [= <- ->]. by eapply decodeRune_size0.
Qed.

Lemma trimRight_last n s :
  (String.length s <= n)%nat → IsSpace (decodeLastRune (trimRight n s)).1 = false.
Proof.
  revert s. induction n as [|n IH]; intros s Hn.
  - by destruct s; [|simpl in Hn; lia].
  - cbn [trimRight]. destruct (decodeLastRune s) as [r size] eqn:Hd.
    destruct (0 <? size)%nat eqn:Hs.
    + apply Nat.ltb_lt in Hs. cbn [andb]. destruct (IsSpace r) eqn:Hr.
      * apply IH. rewrite length_take_bytes. lia.
      * by rewrite Hd.
    + apply Nat.ltb_ge in Hs. assert (size = 0%nat) as -> by lia.
      cbn [andb]. rewrite Hd. by rewrite (decodeLastRune_size0 _ _ Hd).
Qed.

Lemma take_bytes_take_bytes a b s :
  take_bytes a (take_bytes b s) = take_bytes (Nat.min a b) s.
Proof.
  revert b s. induction a as [|a IH]; intros [|b] [|c s]; simpl; try done.
  by rewrite IH.
Qed.

Lemma take_bytes_all n s : (String.length s <= n)%nat → take_bytes n s = s.
Proof.
  revert s. induction n as [|n IH]; intros [|c s] H; simpl in *; try done; [lia|].
  rewrite IH; [done|lia].
Qed.

Lemma trimRight_prefix n s : ∃ k, trimRight n s = take_bytes k s.
Proof.
  revert s. induction n as [|n IH]; intros s.
  - exists (String.length s). by rewrite take_bytes_all.
  - cbn [trimRight]. destruct (decodeLastRune s) as [r size].
    destruct ((0 <? size)%nat && IsSpace r).
    + destruct (IH (take_bytes (String.length s - size) s)) as [k ->].
      eexists. apply take_bytes_take_bytes.
    + exists (String.length s). by rewrite take_bytes_all.
Qed.

Lemma trimRight_head n s :
  IsSpace (decodeRune s).1 = false → IsSpace (decodeRune (trimRight n s)).1 = false.
Proof.
  intros Hs. destruct (trimRight_prefix n s) as [k ->].
  destruct (decodeRune_take k s) as [-> | ->]; done.
Qed.

Lemma TrimSpace_no_outer_space s : no_outer_space (TrimSpace s).
Proof.
  unfold TrimSpace, no_outer_space. split.
  - apply trimRight_head, trimLeft_head. lia.
  - apply trimRight_last. lia.
Qed.

Lemma trimLeft_id n s : IsSpace (decodeRune s).1 = false → trimLeft n s = s.
Proof.
  intros H. destruct n as [|n]; [done|]. cbn [trimLeft].
  destruct (decodeRune s) as [r size]. simpl in H. by rewrite H, andb_false_r.
Qed.

Lemma trimRight_id n s : IsSpace (decodeLastRune s).1 = false → trimRight n s = s.
Proof.
  intros H. destruct n as [|n]; [done|]. cbn [trimRight].
  destruct (decodeLastRune s) as [r size]. simpl in H. by rewrite H, andb_false_r.
Qed.

Lemma TrimSpace_id s : no_outer_space s → TrimSpace s = s.
Proof.
  intros [H1 H2]. unfold TrimSpace. rewrite trimLeft_id by done. by apply trimRight_id.
Qed.

(** Every entry of a history was put there by an append of the run, or was
    there before. *)
Lemma appendHistory_entries h query maxLen now h' e :
  appendHistory h query maxLen now = Some h' → e ∈ Entries h' →
  e ∈ Entries h ∨ (TrimSpace query ≠ "" ∧ e = mkEntry (TrimSpace query) now).
Proof.
  destruct (decide (TrimSpace query = "")) as [Hq|Hq].
  { rewrite appendHistory_blank by done. intros [= <-]. by left. }
  destruct (decide (head (queries h) = Some (TrimSpace query))) as [Hhd|Hhd].
  - unfold queries in Hhd. destruct (Entries h) as [|e0 rest] eqn:He; [done|].
    simpl in Hhd. injection Hhd as Hhd.
    rewrite (appendHistory_touch _ _ _ _ e0 rest) by done. intros [= <-]. simpl.
    intros [->|Hin]%elem_of_cons.
    + by right.
    + left. by right.
  - rewrite appendHistory_prepend by done.
    destruct (Z.lt_ge_cases maxLen 0) as [Hneg|Hm].
    { by rewrite prependHistory_negative. }
    rewrite prependHistory_take by done. intros [= <-]. simpl Entries.
    intros Hin. apply elem_of_take in Hin as (i & Hin & _).
    apply list_elem_of_lookup_2 in Hin. apply elem_of_cons in Hin as [->|Hin]; auto.
Qed.

Lemma deleteHistory_entries h i e : e ∈ Entries (deleteHistory h i) → e ∈ Entries h.
Proof.
  unfold deleteHistory. destruct (_ && _); [|done]. simpl.
  intros [H|H]%elem_of_app.
  - eapply elem_of_sublist; [done|apply sublist_take].
  - eapply elem_of_sublist; [done|apply sublist_drop].
Qed.

Lemma runHistory_entries maxLen ops h0 h e :
  runHistory maxLen h0 ops = Some h → e ∈ Entries h →
  e ∈ Entries h0
  ∨ ∃ q now, OpAppend q now ∈ ops ∧ TrimSpace q ≠ "" ∧ e = mkEntry (TrimSpace q) now.
Proof.
  revert h0. induction ops as [|o ops IH]; intros h0; simpl.
  - intros [= <-]. by left.
  - destruct o as [q now|i]; simpl.
    + destruct (appendHistory h0 q maxLen now) as [h1|] eqn:E; [|done]. simpl.
      intros Hrun He. destruct (IH h1 Hrun He) as [Hin|(q' & now' & Hin & Hq & ->)].
      * destruct (appendHistory_entries _ _ _ _ _ _ E Hin) as [?|[Hq ->]]; [by left|].
        right. exists q, now. split; [left|done].
      * right. exists q', now'. split; [by right|done].
    + intros Hrun He. destruct (IH _ Hrun He) as [Hin|(q' & now' & Hin & Hq & ->)].
      * left. by eapply deleteHistory_entries.
      * right. exists q', now'. split; [by right|done].
Qed.

Lemma Forall_sublist {A} (P : A → Prop) (l1 l2 : list A) :
  l1 `sublist_of` l2 → Forall P l2 → Forall P l1.
Proof.
  intros Hs H. apply Forall_forall. intros x Hx.
  eapply (proj1 (Forall_forall P l2) H). by eapply elem_of_sublist.
Qed.

Lemma StronglySorted_sublist {A} (R : relation A) (l1 l2 : list A) :
  l1 `sublist_of` l2 → StronglySorted R l2 → StronglySorted R l1.
Proof.
  induction 1 as [|x l1 l2 Hs IH|x l1 l2 Hs IH]; [done|..].
  - intros [H1 H2]%StronglySorted_cons. apply StronglySorted_cons.
    split; [by eapply Forall_sublist|auto].
  - intros [H1 H2]%StronglySorted_cons. auto.
Qed.

Lemma deleteHistory_sublist h i : Entries (deleteHistory h i) `sublist_of` Entries h.
Proof.
  unfold deleteHistory. destruct (_ && _); [|done]. simpl.
  rewrite <- (take_drop (Z.to_nat i) (Entries h)) at 3.
  apply sublist_app; [done|].
  replace (S (Z.to_nat i)) with (Z.to_nat i + 1)%nat by lia.
  rewrite <- drop_drop. apply sublist_drop.
Qed.

(** After an append at time [now], no earlier than the entries held, the
    timestamps are still in decreasing order and none is later than [now]. *)
Lemma appendHistory_newest_first h query maxLen now h' :
  StronglySorted Z.ge (timestamps h) → Forall (λ t, t <= now) (timestamps h) →
  appendHistory h query maxLen now = Some h' →
  StronglySorted Z.ge (timestamps h') ∧ Forall (λ t, t <= now) (timestamps h').
Proof.
  intros Hs Hle.
  destruct (decide (TrimSpace query = "")) as [Hq|Hq].
  { rewrite appendHistory_blank by done. by intros [= <-]. }
  destruct (decide (head (queries h) = Some (TrimSpace query))) as [Hhd|Hhd].
  - unfold queries in Hhd. unfold timestamps in *.
    destruct (Entries h) as [|e0 rest] eqn:He; [done|].
    simpl in Hhd. injection Hhd as Hhd.
    rewrite (appendHistory_touch _ _ _ _ e0 rest) by done. intros [= <-]. simpl in *.
    apply StronglySorted_cons in Hs as [H1 H2]. apply Forall_cons in Hle as [H3 H4].
    split.
    + apply StronglySorted_cons. split; [|done].
      eapply Forall_impl; [exact H4|]. simpl. lia.
    + apply Forall_cons. split; [lia|done].
  - rewrite appendHistory_prepend by done.
    destruct (Z.lt_ge_cases maxLen 0) as [Hneg|Hm].
    { by rewrite prependHistory_negative. }
    rewrite prependHistory_take by done. intros [= <-]. unfold timestamps in *.
    simpl Entries. rewrite fmap_take, fmap_cons. cbn [Timestamp].
    assert (Hall : StronglySorted Z.ge (now :: (Timestamp <$> Entries h))
                   ∧ Forall (λ t, t <= now) (now :: (Timestamp <$> Entries h))).
    { split.
      - apply StronglySorted_cons. split; [|done].
        eapply Forall_impl; [exact Hle|]. simpl. lia.
      - apply Forall_cons. split; [lia|done]. }
    destruct Hall as [Ha Hb]. split.
    + eapply StronglySorted_sublist; [apply sublist_take|done].
    + eapply Forall_sublist; [apply sublist_take|done].
Qed.

Lemma runHistory_newest_first maxLen ops h0 h lo :
  StronglySorted Z.ge (timestamps h0) → Forall (λ t, t <= lo) (timestamps h0) →
  Forall (λ t, lo <= t) (opTimes ops) → StronglySorted Z.le (opTimes ops) →
  runHistory maxLen h0 ops = Some h → StronglySorted Z.ge (timestamps h).
Proof.
  revert h0 lo. induction ops as [|o ops IH]; intros h0 lo Hs Hle Hlo Hops; simpl.
  - by intros [= <-].
  - destruct o as [q now|i]; simpl in *.
    + apply Forall_cons in Hlo as [Hnow Hlo].
      apply StronglySorted_cons in Hops as [Hlater Hops].
      destruct (appendHistory h0 q maxLen now) as [h1|] eqn:E; [|done]. simpl.
      destruct (appendHistory_newest_first h0 q maxLen now h1) as [H1 H2]; [done| |done|].
      { eapply Forall_impl; [exact Hle|]. simpl. lia. }
      by apply (IH h1 now).
    + apply (IH _ lo); try done.
      * eapply StronglySorted_sublist; [|exact Hs]. apply fmap_sublist, deleteHistory_sublist.
      * eapply Forall_sublist; [|exact Hle]. apply fmap_sublist, deleteHistory_sublist.
Qed.

(** X1 — every entry of a history built from the empty one by appends and
    deletes was put there by an append of the run, with the trimmed query of
    that append; so its query is not empty, has white space at neither end
    and is left as it is by [strings.TrimSpace]. *)
Theorem history_holds_trimmed_queries (maxLen : Z) (ops : list HistoryOp) (h : History)
    (e : HistoryEntry) :
  runHistory maxLen emptyHistory ops = Some h → e ∈ Entries h →
  (∃ q now, OpAppend q now ∈ ops ∧ e = mkEntry (TrimSpace q) now) ∧
  Query e ≠ "" ∧ no_outer_space (Query e) ∧ TrimSpace (Query e) = Query e.
Proof.
  intros Hrun He.
  destruct (runHistory_entries _ _ _ _ _ Hrun He) as [Hin|(q & now & Hin & Hq & ->)].
  { by apply elem_of_nil in Hin. }
  split; [by exists q, now|]. simpl. split; [done|].
  split; [apply TrimSpace_no_outer_space|].
  apply TrimSpace_id, TrimSpace_no_outer_space.
Qed.

Lemma history_holds_trimmed_queries_witness :
  TrimSpace "select 1" = "select 1" ∧ no_outer_space "select 1".
Proof.
  destruct (history_holds_trimmed_queries 200
              [OpAppend "drop" 1; OpAppend (String (byte 9) " select 1  " +:+ newline) 2;
               OpDelete 1]
              (mkHistory [mkEntry "select 1" 2]) (mkEntry "select 1" 2))
    as (_ & _ & Hs & Hid).
  - reflexivity.
  - left.
  - split; [exact Hid|exact Hs].
Defined.

(** X2 — when the clock does not go back between the appends of a run, the
    history built from the empty one by that run (deletes included) has its
    entries in the order of their timestamps, newest first. *)
Theorem history_newest_first (maxLen : Z) (ops : list HistoryOp) (h : History) :
  StronglySorted Z.le (opTimes ops) →
  runHistory maxLen emptyHistory ops = Some h →
  StronglySorted Z.ge (timestamps h).
Proof.
  intros Hops Hrun.
  destruct (opTimes ops) as [|t0 ts] eqn:Ht.
  - apply (runHistory_newest_first maxLen ops emptyHistory h 0); try done.
    + constructor.
    + rewrite Ht. constructor.
    + rewrite Ht. constructor.
  - apply (runHistory_newest_first maxLen ops emptyHistory h t0); try done.
    + constructor.
    + rewrite Ht. apply StronglySorted_cons in Hops as [H1 H2].
      apply Forall_cons. split; [lia|done].
    + by rewrite Ht.
Qed.

Lemma history_newest_first_witness :
  StronglySorted Z.ge (timestamps (mkHistory [mkEntry "a" 7; mkEntry "c" 5])).
Proof.
  apply (history_newest_first 2 [OpAppend "a" 1; OpAppend "b" 3; OpAppend "c" 5;
                                 OpDelete 1; OpAppend " a" 7]).
  - simpl. repeat (apply SSorted_cons; [|repeat constructor; lia]). constructor.
  - reflexivity.
Defined.

(** X3 — with a maximum of 0 nothing is kept: every run of appends and
    deletes from the empty history ends in the empty history, and an append
    of a new query to a history that holds entries removes them all. *)
Theorem history_max_zero :
  (∀ ops, runHistory 0 emptyHistory ops = Some emptyHistory) ∧
  (∀ h query now,
     TrimSpace query ≠ "" → head (queries h) ≠ Some (TrimSpace query) →
     appendHistory h query 0 now = Some emptyHistory).
Proof.
  assert (Happ : ∀ h query now,
     TrimSpace query ≠ "" → head (queries h) ≠ Some (TrimSpace query) →
     appendHistory h query 0 now = Some emptyHistory).
  { intros h query now Hq Hhd. by rewrite appendHistory_prepend, prependHistory_take. }
  split; [|exact Happ].
  induction ops as [|o ops IH]; [done|]. destruct o as [q now|i]; simpl.
  - destruct (decide (TrimSpace q = "")) as [Hq|Hq].
    + by rewrite appendHistory_blank.
    + by rewrite Happ.
  - replace (deleteHistory emptyHistory i) with emptyHistory; [exact IH|].
    unfold deleteHistory. change (len (Entries emptyHistory)) with 0.
    destruct (Z.leb_spec 0 i), (Z.ltb_spec i 0); simpl; try done; lia.
Qed.

(** X4 — the URL that [fetchQuery] requests is [apiBase] followed by the
    escaped query; the escaped query holds only letters, digits and the
    bytes [-_.~+%]; reading it back ([+] as a space, [%XX] as a byte) gives
    the query, so two different queries never give the same URL. *)
Theorem fetchQuery_request_url (apiBase query : string) :
  (∀ httpGet,
     fetchQuery httpGet apiBase query
     = match httpGet (apiBase +:+ QueryEscape query) with
       | RErr err => RErr err
       | ROk b => ROk (classifyBody b)
       end) ∧
  all_url_bytes (QueryEscape query) = true ∧
  unescape (QueryEscape query) = Some query ∧
  (∀ query', apiBase +:+ QueryEscape query = apiBase +:+ QueryEscape query' →
             query = query').
Proof.
  split; [done|]. split; [apply QueryEscape_url_bytes|].
  split; [apply unescape_QueryEscape|].
  intros query' H%append_inv_head.
  assert (Some query = Some query') as [= ->]; [|done].
  by rewrite <- !unescape_QueryEscape, H.
Qed.

(** ** The configuration file *)

(** *** Integers as text *)

Lemma append_nil_r a : a +:+ "" = a.
Proof. induction a as [|c a IH]; [done|]. rewrite append_cons. by f_equal. Qed.

Lemma pretty_N_go_app x s : pretty_N_go x s = pretty_N_go x "" +:+ s.
Proof.
  revert s. induction (N.lt_wf_0 x) as [x _ IH]; intros s.
  assert (x = 0 ∨ 0 < x)%N as [->|Hx] by lia; [done|].
  rewrite !(pretty_N_go_step x) by done.
  assert (Hlt : (x `div` 10 < x)%N) by (by apply N.div_lt).
  rewrite (IH _ Hlt (String _ s)), (IH _ Hlt (String _ "")).
  by rewrite append_assoc.
Qed.

Lemma pretty_N_go_snoc x :
  (0 < x)%N →
  pretty_N_go x "" = pretty_N_go (x `div` 10) "" +:+ String (pretty_N_char (x `mod` 10)) "".
Proof. intros Hx. by rewrite pretty_N_go_step, pretty_N_go_app. Qed.

Lemma pretty_N_char_val d : (d < 10)%N → byte_val (pretty_N_char d) = 48 + Z.of_N d.
Proof.
  intros Hd.
  assert (d = 0 ∨ d = 1 ∨ d = 2 ∨ d = 3 ∨ d = 4 ∨ d = 5 ∨ d = 6 ∨ d = 7 ∨ d = 8 ∨ d = 9)%N
    as H by lia.
  repeat (destruct H as [->|H]; [reflexivity|]). by subst.
Qed.

Lemma all_digits_app a b : all_digits (a +:+ b) = all_digits a && all_digits b.
Proof. induction a as [|c a IH]; [done|]. simpl. by rewrite IH, andb_assoc. Qed.

Lemma digits_val_snoc s c :
  digits_val (s +:+ String c "") = digits_val s * 10 + (byte_val c - 48).
Proof.
  unfold digits_val. generalize 0. induction s as [|x s IH]; intros acc; [done|].
  simpl. apply IH.
Qed.

Lemma pretty_N_go_digits x :
  all_digits (pretty_N_go x "") = true ∧ digits_val (pretty_N_go x "") = Z.of_N x.
Proof.
  induction (N.lt_wf_0 x) as [x _ IH].
  assert (x = 0 ∨ 0 < x)%N as [->|Hx] by lia; [done|].
  rewrite pretty_N_go_snoc by done.
  destruct (IH (x `div` 10)%N) as [IH1 IH2]; [by apply N.div_lt|].
  assert (Hd : (x `mod` 10 < 10)%N) by (by apply N.mod_lt).
  split.
  - rewrite all_digits_app, IH1. simpl. rewrite andb_true_r.
    unfold is_digit. rewrite pretty_N_char_val by done.
    assert (0 <= Z.of_N (x `mod` 10) < 10)
      by (clear -Hd; generalize dependent (x `mod` 10)%N; intros; lia).
    apply andb_true_iff. split; [apply Z.leb_le|apply Z.leb_le]; lia.
  - rewrite digits_val_snoc, IH2, pretty_N_char_val by done.
    assert (Z.of_N x = Z.of_N (x `div` 10) * 10 + Z.of_N (x `mod` 10)) as ->; [|lia].
    rewrite (N.div_mod x 10) at 1 by done. clear.
    generalize (x `div` 10)%N (x `mod` 10)%N. intros. lia.
Qed.

(** The text of a positive number starts with a digit that is not [0]. *)
Lemma pretty_N_go_head x :
  (0 < x)%N →
  ∃ c rest, pretty_N_go x "" = String c rest ∧ 49 <= byte_val c <= 57.
Proof.
  induction (N.lt_wf_0 x) as [x _ IH]. intros Hx.
  rewrite pretty_N_go_snoc by done.
  assert (Hdm : x = (10 * (x `div` 10) + x `mod` 10)%N) by (by apply N.div_mod).
  assert (Hd : (x `mod` 10 < 10)%N) by (by apply N.mod_lt).
  assert (Hlt : (x `div` 10 < x)%N) by (by apply N.div_lt).
  revert Hdm Hd Hlt. generalize (x `mod` 10)%N (x `div` 10)%N. intros m q Hdm Hd Hlt.
  destruct (N.eq_dec q 0%N) as [->|Hq].
  - simpl. eexists _, _. split; [done|]. rewrite pretty_N_char_val by done. lia.
  - destruct (IH q) as (c & rest & -> & Hc); [done|lia|].
    eexists _, _. split; [by rewrite append_cons|done].
Qed.

(** The text of an integer: a sign and digits. *)
Lemma itoa_shape n :
  ∃ sign ds c rest,
    itoa n = sign +:+ ds ∧ ds = String c rest ∧
    (sign = "" ∧ 0 <= n ∨ sign = "-" ∧ n < 0) ∧
    all_digits ds = true ∧ digits_val ds = Z.abs n ∧
    48 <= byte_val c <= 57 ∧ (byte_val c = 48 → rest = "").
Proof.
  destruct n as [|p|p].
  - exists "", "0", "0"%char, "". repeat split; try done. left. split; [done|lia].
  - destruct (pretty_N_go_head (N.pos p)) as (c & rest & Hs & Hc); [lia|].
    destruct (pretty_N_go_digits (N.pos p)) as [Hd Hv].
    exists "", (pretty_N_go (N.pos p) ""), c, rest.
    repeat split; try done; try lia. left. split; [done|lia].
  - destruct (pretty_N_go_head (N.pos p)) as (c & rest & Hs & Hc); [lia|].
    destruct (pretty_N_go_digits (N.pos p)) as [Hd Hv].
    exists "-", (pretty_N_go (N.pos p) ""), c, rest.
    repeat split; try done; try lia. right. split; [done|lia].
Qed.

Lemma ParseInt_digits c rest :
  all_digits (String c rest) = true → in_int (digits_val (String c rest)) →
  ParseInt (String c rest) = Some (digits_val (String c rest)).
Proof.
  intros Hd Hn. unfold ParseInt.
  assert (Hc : 48 <= byte_val c <= 57).
  { simpl in Hd. apply andb_true_iff in Hd as [Hd _]. unfold is_digit in Hd.
    apply andb_true_iff in Hd as [H1 H2]. apply Z.leb_le in H1, H2. lia. }
  replace (byte_val c =? 45) with false by (symmetry; apply Z.eqb_neq; lia).
  replace (byte_val c =? 43) with false by (symmetry; apply Z.eqb_neq; lia).
  cbn [String.eqb]. rewrite Hd. cbn [negb].
  replace ((min_int <=? _) && (_ <=? max_int)) with true; [done|].
  symmetry. apply andb_true_iff. split; apply Z.leb_le; apply Hn.
Qed.

Lemma ParseInt_minus c rest :
  all_digits (String c rest) = true → in_int (- digits_val (String c rest)) →
  ParseInt (String "-" (String c rest)) = Some (- digits_val (String c rest)).
Proof.
  intros Hd Hn. unfold ParseInt. change (byte_val "-" =? 45) with true. cbn iota.
  cbn [String.eqb]. rewrite Hd. cbn [negb].
  replace ((min_int <=? _) && (_ <=? max_int)) with true; [done|].
  symmetry. apply andb_true_iff. split; apply Z.leb_le; apply Hn.
Qed.

Lemma ParseInt_itoa n : in_int n → ParseInt (itoa n) = Some n.
Proof.
  intros Hn.
  destruct (itoa_shape n) as (sign & ds & c & rest & -> & -> & Hsign & Hd & Hv & Hc & _).
  destruct Hsign as [[-> Hn0]|[-> Hn0]].
  - rewrite Z.abs_eq in Hv by done. rewrite append_nil_l, ParseInt_digits.
    + by rewrite Hv.
    + done.
    + by rewrite Hv.
  - assert (Hv' : - digits_val (String c rest) = n) by lia.
    change ("-" +:+ String c rest) with (String "-" (String c rest)).
    rewrite ParseInt_minus.
    + by rewrite Hv'.
    + done.
    + by rewrite Hv'.
Qed.

(** *** Reading the layout of a saved configuration *)

Lemma span_digits_app ds x r :
  all_digits ds = true → is_digit (byte_val x) = false →
  span_digits (ds +:+ String x r) = (ds, String x r).
Proof.
  intros Hd Hx. induction ds as [|c ds IH].
  - simpl. by rewrite Hx.
  - simpl in Hd. apply andb_true_iff in Hd as [Hc Hd].
    rewrite append_cons. cbn [span_digits]. rewrite Hc, IH by done. done.
Qed.

(** A number with no fraction and no exponent, followed by a byte that
    cannot continue it. *)
Lemma scan_number_digits c ds x r :
  all_digits (String c ds) = true → (byte_val c = 48 → ds = "") →
  is_digit (byte_val x) = false → byte_val x ≠ 46 → byte_val x ≠ 101 → byte_val x ≠ 69 →
  scan_number (String c ds +:+ String x r) = Some (String c ds, String x r)
  ∧ scan_number (String "-" (String c ds) +:+ String x r)
    = Some (String "-" (String c ds), String x r).
Proof.
  intros Hd H0 Hx H46 H101 H69.
  assert (Hc : 48 <= byte_val c <= 57).
  { simpl in Hd. apply andb_true_iff in Hd as [Hd _]. unfold is_digit in Hd.
    apply andb_true_iff in Hd as [H1 H2]. apply Z.leb_le in H1, H2. lia. }
  assert (Hzero : (byte_val c =? 48) && negb (String.eqb ds "") = false).
  { destruct (Z.eqb_spec (byte_val c) 48) as [E|E]; [|done]. by rewrite (H0 E). }
  assert (Htail : ∀ sign,
    (let '(int, s2) := span_digits (String c ds +:+ String x r) in
     match int with
     | EmptyString => None
     | String d0 int' =>
       if (byte_val d0 =? 48) && negb (String.eqb int' "") then None
       else
         '(frac, s3) ←
           match s2 with
           | String c s' =>
             if byte_val c =? 46 then
               let '(fd, r) := span_digits s' in
               if String.eqb fd "" then None else Some ("." +:+ fd, r)
             else Some ("", s2)
           | EmptyString => Some ("", s2)
           end;
         '(exp, s4) ←
           match s3 with
           | String c s' =>
             if (byte_val c =? 101) || (byte_val c =? 69) then
               let '(esign, s'') :=
                 match s' with
                 | String c' r =>
                   if (byte_val c' =? 43) || (byte_val c' =? 45)
                   then (String c' "", r) else ("", s')
                 | EmptyString => ("", s')
                 end in
               let '(ed, r) := span_digits s'' in
               if String.eqb ed "" then None else Some (String c esign +:+ ed, r)
             else Some ("", s3)
           | EmptyString => Some ("", s3)
           end;
         Some (sign +:+ int +:+ frac +:+ exp, s4)
     end) = Some (sign +:+ String c ds, String x r)).
  { intros sign. rewrite span_digits_app by done. rewrite Hzero.
    rewrite (proj2 (Z.eqb_neq _ _) H46). cbn [mbind option_bind].
    rewrite (proj2 (Z.eqb_neq _ _) H101), (proj2 (Z.eqb_neq _ _) H69).
    cbn [orb mbind option_bind]. by rewrite !append_nil_r. }
  split.
  - unfold scan_number. rewrite append_cons.
    replace (byte_val c =? 45) with false by (symmetry; apply Z.eqb_neq; lia).
    rewrite <- append_cons. apply (Htail "").
  - unfold scan_number. rewrite append_cons.
    change (byte_val "-" =? 45) with true. apply (Htail "-").
Qed.

Lemma scan_number_itoa n x r :
  is_digit (byte_val x) = false → byte_val x ≠ 46 → byte_val x ≠ 101 → byte_val x ≠ 69 →
  scan_number (itoa n +:+ String x r) = Some (itoa n, String x r)
  ∧ ∃ c s', itoa n = String c s' ∧ (byte_val c = 45 ∨ 48 <= byte_val c <= 57).
Proof.
  intros Hx H46 H101 H69.
  destruct (itoa_shape n) as (sign & ds & c & rest & -> & -> & Hsign & Hd & Hv & Hc & H0).
  destruct (scan_number_digits c rest x r Hd H0 Hx H46 H101 H69) as [H1 H2].
  destruct Hsign as [[-> _]|[-> _]].
  - rewrite !append_nil_l. split; [done|]. eexists _, _. split; [done|]. by right.
  - split; [exact H2|]. eexists _, _. split; [done|]. by left.
Qed.

(** A number, white space before it. *)
Lemma parse_value_number f d w lit x r :
  all_ws w = true →
  scan_number (lit +:+ String x r) = Some (lit, String x r) →
  (∃ c s', lit = String c s' ∧ (byte_val c = 45 ∨ 48 <= byte_val c <= 57)) →
  parse_value (S f) d (w +:+ lit +:+ String x r) = Some (VFloat lit, String x r).
Proof.
  intros Hw Hs (c & s' & -> & Hc). cbn [parse_value]. rewrite skip_ws_app by done.
  rewrite append_cons in *. rewrite skip_ws_head.
  2:{ unfold is_ws. destruct Hc as [->|Hc]; [done|].
      repeat (apply orb_false_iff; split); apply Z.eqb_neq; lia. }
  cbv zeta.
  replace (byte_val c =? 123) with false by (symmetry; apply Z.eqb_neq; lia).
  replace (byte_val c =? 91) with false by (symmetry; apply Z.eqb_neq; lia).
  replace (byte_val c =? 34) with false by (symmetry; apply Z.eqb_neq; lia).
  replace (byte_val c =? 116) with false by (symmetry; apply Z.eqb_neq; lia).
  replace (byte_val c =? 102) with false by (symmetry; apply Z.eqb_neq; lia).
  replace (byte_val c =? 110) with false by (symmetry; apply Z.eqb_neq; lia).
  by rewrite Hs.
Qed.

Lemma all_ws_ws2 : all_ws ws2 = true.
Proof. reflexivity. Qed.

Lemma parse_members_ints d k n more :
  ∀ rest F, (1 <= F)%nat → all_plain k = true → Forall (λ kn, all_plain kn.1 = true) more →
  parse_members (S (length more) + F) d (membersText k n more rest)
  = Some (memberValue <$> ((k, n) :: more), rest).
Proof.
  revert k n. induction more as [|[k' n'] more IH]; intros k n rest F HF Hk Hmore.
  - cbn [membersText length]. change (1 + F)%nat with (S F).
    destruct F as [|F]; [lia|].
    destruct (scan_number_itoa n (byte 10) ("}" +:+ rest)) as [Hs Hc]; try done.
    eapply (parse_members_last _ _ _ _ _ _ newline); try done.
    change (newline +:+ "}" +:+ rest) with (String (byte 10) ("}" +:+ rest)).
    apply (parse_value_number _ _ " "); done.
  - apply Forall_cons in Hmore as [Hk' Hmore]. cbn [membersText length].
    destruct (scan_number_itoa n "," (membersText k' n' more rest)) as [Hs Hc]; try done.
    change (S (S (length more)) + F)%nat with (S (S (length more) + F)).
    eapply (parse_members_more _ _ _ _ _ _ ""); try done.
    + change ("" +:+ "," +:+ membersText k' n' more rest)
        with (String "," (membersText k' n' more rest)).
      destruct (length more + F)%nat as [|G] eqn:E; [lia|].
      change (S (length more) + F)%nat with (S (length more + F)). rewrite E.
      apply (parse_value_number _ _ " "); done.
    + by apply IH.
Qed.

(** *** What [MarshalIndent] writes is that layout *)

Lemma MarshalIndent_config_layout a r t p h s w :
  MarshalIndent_config (mkConfig a r t p h s w)
  = "{" +:+ membersText "scroll_acceleration" a
              [("scroll_repeat_threshold", r); ("scroll_repeat_timeout_ms", t);
               ("page_scroll_step", p); ("max_history_entries", h);
               ("connection_check_sec", s); ("max_column_width", w)] "".
Proof.
  unfold MarshalIndent_config, configMember. cbn [join membersText].
  cbn [ScrollAcceleration ScrollRepeatThreshold ScrollRepeatTimeoutMs PageScrollStep
       MaxHistoryEntries ConnectionCheckSec MaxColumnWidth].
  rewrite !append_assoc. reflexivity.
Qed.

Lemma length_membersText k n more rest :
  (4 + length more <= String.length (membersText k n more rest))%nat.
Proof.
  revert k n. induction more as [|[k' n'] more IH]; intros k n.
  - cbn [membersText]. rewrite !length_append. simpl. lia.
  - cbn [membersText length]. specialize (IH k' n'). rewrite !length_append. simpl. lia.
Qed.

Lemma parse_MarshalIndent_config c :
  parse (MarshalIndent_config c) = Some (VMap (memberValue <$> configMembers c)).
Proof.
  destruct c as [a r t p h s w]. rewrite MarshalIndent_config_layout.
  set (more := [("scroll_repeat_threshold", r); ("scroll_repeat_timeout_ms", t);
                ("page_scroll_step", p); ("max_history_entries", h);
                ("connection_check_sec", s); ("max_column_width", w)]).
  unfold parse.
  set (doc := "{" +:+ membersText "scroll_acceleration" a more "").
  assert (Hlen : (10 <= String.length doc)%nat).
  { subst doc. pose proof (length_membersText "scroll_acceleration" a more "").
    change ("{" +:+ ?x) with (String "{" x). simpl String.length in *. simpl in H. lia. }
  assert (Hv : parse_value (S (7 + (2 * String.length doc - 6))) maxNestingDepth doc
               = Some (VMap (memberValue <$> ("scroll_acceleration", a) :: more), "")).
  { rewrite maxNestingDepth_3. subst doc.
    apply (parse_value_object _ _ ""); [done|reflexivity|].
    apply (parse_members_ints _ "scroll_acceleration" a more "");
      [lia|done|repeat constructor]. }
  replace (2 * String.length doc + 2)%nat with (S (7 + (2 * String.length doc - 6))) by lia.
  rewrite Hv. reflexivity.
Qed.

Lemma decodeConfigFields_members c :
  config_in_int c →
  decodeConfigFields (memberValue <$> configMembers c) zeroConfig = Some c.
Proof.
  destruct c as [a r t p h s w]. unfold config_in_int, configFields.
  rewrite !Forall_cons. simpl. intros (Ha & Hr & Ht & Hp & Hh & Hs & Hw & _).
  unfold configMembers, configFields, memberValue, zeroConfig. cbn [fmap list_fmap fst snd].
  cbn [ScrollAcceleration ScrollRepeatThreshold ScrollRepeatTimeoutMs PageScrollStep
       MaxHistoryEntries ConnectionCheckSec MaxColumnWidth].
  cbn [decodeConfigFields decodeInt].
  repeat match goal with
         | |- context [selects ?x ?y] =>
           let v := eval vm_compute in (selects x y) in change (selects x y) with v
         end.
  cbn iota. rewrite !ParseInt_itoa by done. reflexivity.
Qed.

Lemma Unmarshal_Marshal_config c :
  config_in_int c → Unmarshal_config (MarshalIndent_config c) = Some c.
Proof.
  intros Hc. unfold Unmarshal_config. rewrite parse_MarshalIndent_config. simpl.
  by apply decodeConfigFields_members.
Qed.

(** *** Reading a configuration *)

Lemma decodeInt_not_an_int v old : not_an_int v → decodeInt v old = None.
Proof. by destruct v. Qed.

(** A member that selects a field and cannot be stored in it makes the
    decoding fail. *)
Lemma decodeConfigFields_bad m c k v f :
  (k, v) ∈ m → f ∈ configFields → selects k f.1 = true → not_an_int v →
  decodeConfigFields m c = None.
Proof.
  intros Hin Hf Hsel Hbad. revert c.
  induction m as [|[k' v'] m IH]; intros c; [by apply elem_of_nil in Hin|].
  destruct c as [a r t p h s w]. cbn [decodeConfigFields].
  apply elem_of_cons in Hin as [[= <- <-]|Hin].
  - unfold configFields in Hf.
    repeat (apply elem_of_cons in Hf as [->|Hf]; [cbn [fst] in Hsel; rewrite Hsel|]);
      try (by apply elem_of_nil in Hf);
      repeat match goal with
             | |- context [if selects k ?x then _ else _] =>
               destruct (selects k x); cbn iota
             end;
      by rewrite decodeInt_not_an_int.
  - repeat (destruct (selects k' _); [destruct (decodeInt v' _); [apply IH|]; done|]).
    by apply IH.
Qed.

(** A field that no member selects keeps its value. *)
Lemma decodeConfigFields_absent m c c' f :
  decodeConfigFields m c = Some c' → f ∈ configFields →
  (∀ k v, (k, v) ∈ m → selects k f.1 = false) → f.2 c' = f.2 c.
Proof.
  intros Hdec Hf. revert c Hdec.
  induction m as [|[k v] m IH]; intros c Hdec Hno; [by injection Hdec as <-|].
  assert (Hk : selects k f.1 = false) by (apply (Hno k v); left).
  assert (Hno' : ∀ k v, (k, v) ∈ m → selects k f.1 = false)
    by (intros k0 v0 H0; apply (Hno k0 v0); by right).
  destruct c as [a r t p h s w]. cbn [decodeConfigFields] in Hdec.
  unfold configFields in Hf.
  repeat (apply elem_of_cons in Hf as [->|Hf]; [cbn [fst snd] in *; rewrite ?Hk in Hdec|]);
    try (by apply elem_of_nil in Hf);
    repeat match type of Hdec with
           | (if selects k ?x then _ else _) = _ =>
             destruct (selects k x);
               [destruct (decodeInt v _); [|done]; simpl in Hdec;
                rewrite (IH _ Hdec Hno'); reflexivity|]
           end;
    by rewrite (IH _ Hdec Hno').
Qed.

Lemma loadConfig_file env fs p b :
  configPath env = ROk p → ReadFile fs p = ReadOk b →
  loadConfig env fs = (default DefaultConfig (Unmarshal_config b), fs).
Proof. intros Hp Hr. unfold loadConfig. rewrite Hp, Hr. by destruct (Unmarshal_config b). Qed.

Lemma saveConfig_written env fs cfg fs' :
  saveConfig env fs cfg = (fs', None) →
  ∃ p, configPath env = ROk p ∧ ReadFile fs' p = ReadOk (MarshalIndent_config cfg).
Proof.
  unfold saveConfig. destruct (configPath env) as [p|err]; [|done].
  destruct (MkdirAll fs (filepath_Dir p)); [done|].
  intros Hw. exists p. split; [done|]. by eapply ReadFile_WriteFile.
Qed.

(** X5 — a configuration that [saveConfig] wrote without error is the one
    that [loadConfig] returns afterwards, whatever the seven numbers are. *)
Theorem config_round_trip (env : Env) (fs fs' : FS) (cfg : Config) :
  config_in_int cfg → saveConfig env fs cfg = (fs', None) →
  loadConfig env fs' = (cfg, fs').
Proof.
  intros Hc Hs. destruct (saveConfig_written _ _ _ _ Hs) as (p & Hp & Hr).
  rewrite (loadConfig_file _ _ _ _ Hp Hr). by rewrite Unmarshal_Marshal_config.
Qed.

Lemma config_round_trip_witness :
  loadConfig home_env (saveConfig home_env (mkFS ∅ ∅) (mkConfig (-3) 0 150 10 200 5 40)).1
  = (mkConfig (-3) 0 150 10 200 5 40,
     (saveConfig home_env (mkFS ∅ ∅) (mkConfig (-3) 0 150 10 200 5 40)).1).
Proof.
  destruct (saveConfig home_env (mkFS ∅ ∅) (mkConfig (-3) 0 150 10 200 5 40))
    as [fs' err] eqn:Hs.
  assert (Herr : err = None).
  { change err with ((fs', err).2). rewrite <- Hs. vm_compute. reflexivity. }
  subst err. simpl.
  apply (config_round_trip home_env (mkFS ∅ ∅) fs'); [|exact Hs].
  unfold config_in_int, configFields, in_int, min_int, max_int.
  repeat constructor; simpl; lia.
Defined.

Lemma DefaultConfig_in_int : config_in_int DefaultConfig.
Proof.
  unfold config_in_int, configFields, in_int, min_int, max_int.
  repeat constructor; simpl; lia.
Qed.

(** X6 — on a first start (no configuration file, and its directory can be
    made) [loadConfig] returns the defaults and writes them to the file, so
    that the next [loadConfig] reads the defaults from it. *)
Theorem loadConfig_first_start (env : Env) (fs : FS) (p : string) :
  configPath env = ROk p → ReadFile fs p = ReadNotExist →
  filepath_Dir p ∉ fs_denied fs →
  (loadConfig env fs).1 = DefaultConfig ∧
  ReadFile (loadConfig env fs).2 p = ReadOk (MarshalIndent_config DefaultConfig) ∧
  loadConfig env (loadConfig env fs).2 = (DefaultConfig, (loadConfig env fs).2).
Proof.
  intros Hp Hr Hdir.
  assert (Hload : loadConfig env fs = (DefaultConfig, (saveConfig env fs DefaultConfig).1)).
  { unfold loadConfig. by rewrite Hp, Hr. }
  assert (Hsave : ∃ fs', saveConfig env fs DefaultConfig = (fs', None)).
  { unfold saveConfig, MkdirAll, WriteFile. rewrite Hp.
    destruct (decide (filepath_Dir p ∈ fs_denied fs)); [done|].
    unfold ReadFile in Hr. destruct (decide (p ∈ fs_denied fs)); [done|]. by eexists. }
  destruct Hsave as [fs' Hsave]. rewrite Hload, Hsave. simpl.
  destruct (saveConfig_written _ _ _ _ Hsave) as (p' & Hp' & Hr').
  rewrite Hp in Hp'. injection Hp' as <-.
  split; [done|]. split; [done|].
  rewrite (loadConfig_file _ _ _ _ Hp Hr').
  by rewrite (Unmarshal_Marshal_config _ DefaultConfig_in_int).
Qed.

Lemma loadConfig_first_start_witness :
  (loadConfig home_env (mkFS ∅ ∅)).1 = DefaultConfig ∧
  loadConfig home_env (loadConfig home_env (mkFS ∅ ∅)).2
  = (DefaultConfig, (loadConfig home_env (mkFS ∅ ∅)).2).
Proof.
  destruct (loadConfig_first_start home_env (mkFS ∅ ∅) "/home/op/.config/dbx/config.json")
    as (H1 & _ & H3).
  - reflexivity.
  - reflexivity.
  - apply not_elem_of_empty.
  - split; [exact H1|exact H3].
Defined.

(** X7 — a key that the configuration file leaves out is read as 0, not as
    its default: when the file unmarshals, [loadConfig] returns what was
    decoded, and every field that no key of the object selects is 0. *)
Theorem config_omitted_keys_are_zero (env : Env) (fs : FS) (p b : string) (cfg : Config) :
  configPath env = ROk p → ReadFile fs p = ReadOk b → Unmarshal_config b = Some cfg →
  loadConfig env fs = (cfg, fs) ∧
  Forall (λ f, (∀ m k v, parse b = Some (VMap m) → (k, v) ∈ m → selects k f.1 = false) →
               f.2 cfg = 0) configFields.
Proof.
  intros Hp Hr Hu. split; [by rewrite (loadConfig_file _ _ _ _ Hp Hr), Hu|].
  apply Forall_forall. intros f Hf Hno. unfold Unmarshal_config in Hu.
  destruct (parse b) as [v|]; [|done]. simpl in Hu.
  assert (Hz : f.2 zeroConfig = 0).
  { unfold configFields in Hf.
    repeat (apply elem_of_cons in Hf as [->|Hf]; [done|]). by apply elem_of_nil in Hf. }
  destruct v as [| | | | |m]; try done.
  - by injection Hu as <-.
  - rewrite (decodeConfigFields_absent m zeroConfig cfg f Hu Hf); [done|].
    intros k v. by apply Hno.
Qed.

Lemma config_omitted_keys_are_zero_witness :
  loadConfig home_env (mkFS {[ "/home/op/.config/dbx/config.json" := "{}" ]} ∅)
  = (zeroConfig, mkFS {[ "/home/op/.config/dbx/config.json" := "{}" ]} ∅).
Proof.
  apply (config_omitted_keys_are_zero home_env _ "/home/op/.config/dbx/config.json" "{}");
    reflexivity.
Defined.

(** X8 — one value of the wrong kind discards the whole file: when a key of
    the object selects a field and its value is a string, a boolean, an
    array, an object, or a number that is not a 64-bit integer written
    without fraction and exponent, [loadConfig] returns the defaults, for
    every field. *)
Theorem config_wrong_value_gives_defaults (env : Env) (fs : FS) (p b : string)
    (m : list (string * value)) (k : string) (v : value) (f : string * (Config → Z)) :
  configPath env = ROk p → ReadFile fs p = ReadOk b → parse b = Some (VMap m) →
  (k, v) ∈ m → f ∈ configFields → selects k f.1 = true → not_an_int v →
  loadConfig env fs = (DefaultConfig, fs) ∧
  ParseInt "40.5" = None ∧ ParseInt "4e1" = None ∧
  ParseInt "9223372036854775808" = None ∧ ParseInt "-9223372036854775808" = Some min_int.
Proof.
  intros Hp Hr Hparse Hin Hf Hsel Hbad. split; [|by repeat split].
  rewrite (loadConfig_file _ _ _ _ Hp Hr). unfold Unmarshal_config. rewrite Hparse. simpl.
  by rewrite (decodeConfigFields_bad m zeroConfig k v f).
Qed.

Lemma config_wrong_value_gives_defaults_witness :
  loadConfig home_env
    (mkFS {[ "/home/op/.config/dbx/config.json" :=
             "{" +:+ dquote +:+ "page_scroll_step" +:+ dquote +:+ ": 20, "
                 +:+ dquote +:+ "Max_Column_Width" +:+ dquote +:+ ": 40.0}" ]} ∅)
  = (DefaultConfig,
     mkFS {[ "/home/op/.config/dbx/config.json" :=
             "{" +:+ dquote +:+ "page_scroll_step" +:+ dquote +:+ ": 20, "
                 +:+ dquote +:+ "Max_Column_Width" +:+ dquote +:+ ": 40.0}" ]} ∅).
Proof.
  eapply (config_wrong_value_gives_defaults home_env _ "/home/op/.config/dbx/config.json" _
            [("page_scroll_step", VFloat "20"); ("Max_Column_Width", VFloat "40.0")]
            "Max_Column_Width" (VFloat "40.0") ("max_column_width", MaxColumnWidth)).
  - reflexivity.
  - reflexivity.
  - vm_compute. reflexivity.
  - right. left.
  - unfold configFields. repeat (first [left|right]).
  - reflexivity.
  - reflexivity.
Defined.

(** ** The table, continued *)

Lemma cellText_zero fmtFloat v :
  cellText fmtFloat 0 v
  = if String.eqb (sprintv fmtFloat v) "" then Some "" else None.
Proof.
  unfold cellText. destruct (sprintv fmtFloat v) as [|c s] eqn:Hs; [done|].
  replace (0 <? slen (String c s)) with true
    by (symmetry; apply Z.ltb_lt; unfold slen; simpl; lia).
  unfold truncateString.
  replace (slen (String c s) <=? 0) with false
    by (symmetry; apply Z.leb_gt; unfold slen; simpl; lia).
  by rewrite slice_to_out_of_range by (left; reflexivity).
Qed.

Lemma colWidth_zero fmtFloat data k : colWidth fmtFloat 0 data k = 0.
Proof. pose proof (colWidth_bounds fmtFloat 0 data k). lia. Qed.

(** X9 — with a maximum column width of 0 (what a configuration file that
    leaves the key out gives), [renderJSONToTable] panics exactly when some
    cell of the table, in a column of the first row, has a text that is not
    empty. *)
Theorem render_with_zero_width (fmtFloat : string → string) (cfg : Config)
    (first : Row) (rest : list Row) (columns : list string) :
  MaxColumnWidth cfg = 0 →
  (renderJSONToTable fmtFloat (first :: rest) columns cfg).2 = None
  ↔ ∃ row k, row ∈ first :: rest ∧ k ∈ tableColumns first
             ∧ sprintv fmtFloat (rowGet row k) ≠ "".
Proof.
  intros Hw. unfold renderJSONToTable. rewrite Hw. cbn [snd].
  rewrite fmap_None, mapM_None, Exists_exists. split.
  - intros (row & Hrow & Hnone). apply mapM_None, Exists_exists in Hnone.
    destruct Hnone as (k & Hk & Hnone). exists row, k. split; [done|]. split; [done|].
    rewrite colWidth_zero, cellText_zero in Hnone.
    intros Hempty. by rewrite Hempty in Hnone.
  - intros (row & k & Hrow & Hk & Hne). exists row. split; [done|].
    apply mapM_None, Exists_exists. exists k. split; [done|].
    rewrite colWidth_zero, cellText_zero.
    destruct (String.eqb_spec (sprintv fmtFloat (rowGet row k)) ""); done.
Qed.

Lemma render_with_zero_width_witness :
  (renderJSONToTable (λ lit, lit) [sample_row] [] zeroConfig).2 = None.
Proof.
  apply (render_with_zero_width (λ lit, lit) zeroConfig sample_row [] []); [reflexivity|].
  exists sample_row, "id". split; [left|]. split; [|vm_compute; discriminate].
  apply (bool_decide_unpack _). vm_compute. reflexivity.
Defined.

Lemma slen_shownText w s : 1 <= w → slen (shownText w s) <= w + 2.
Proof.
  intros Hw. unfold shownText. destruct (Z.ltb_spec w (slen s)); [|lia].
  rewrite slen_append, slen_ellipsis. unfold slen in *. rewrite length_take_bytes. lia.
Qed.

(** The rows of the table, when every row of cells has the same length. *)
Lemma GetRowCount_uniform (n : nat) (t : Table) :
  Forall (λ r, length r = n) t →
  GetRowCount t = match n with O => 0 | S _ => len t end.
Proof.
  induction 1 as [|r t Hr _ IH]; [by destruct n|].
  cbn [GetRowCount]. rewrite IH, len_cons. destruct n as [|n].
  - by destruct r.
  - destruct r; [done|]. by rewrite andb_false_r.
Qed.

Lemma tableRows_uniform (n : nat) (t : Table) :
  Forall (λ r, length r = n) t →
  tableRows t = match n with O => [] | S _ => t end.
Proof.
  intros H. unfold tableRows. rewrite (GetRowCount_uniform n t H). destruct n; [done|].
  unfold len. rewrite Nat2Z.id. by apply take_ge.
Qed.

Lemma rendered_uniform {A} (cols : list string) (hd : string → TableCell)
    (cell : A → string → TableCell) (data : list A) :
  Forall (λ r, length r = length cols)
         ((hd <$> cols) :: ((λ row, cell row <$> cols) <$> data)).
Proof.
  apply Forall_cons. split; [by rewrite length_fmap|].
  apply Forall_fmap, Forall_forall. intros row _. simpl. by rewrite length_fmap.
Qed.

Lemma tableColumns_nil (first : Row) : tableColumns first = [] ↔ first = ∅.
Proof.
  unfold tableColumns, rangeKeys. split.
  - intros H. apply map_to_list_empty_iff.
    pose proof (sortStrings_Permutation (map_to_list first).*1) as Hp.
    rewrite H in Hp. apply Permutation_nil_l in Hp. symmetry in Hp.
    by apply fmap_nil_inv in Hp.
  - intros ->. by rewrite map_to_list_empty.
Qed.

(** X10 — with the column width of the older copy, the constant 40, which
    is also the default of the configuration, rendering never panics.  When
    the first row has no key, no cell is set and the table has no row;
    otherwise the table is a header, which names the sorted keys of the
    first row, and one row per data row; every cell has a maximum width
    from 8 to 40, and the text of a data cell is at most 2 bytes longer
    than that width. *)
Theorem render_with_width_40 (fmtFloat : string → string) (first : Row) (rest : list Row)
    (columns : list string) :
  renderJSONToTable40 fmtFloat (first :: rest) columns
  = renderJSONToTable fmtFloat (first :: rest) columns DefaultConfig ∧
  ∃ cells,
    renderJSONToTable40 fmtFloat (first :: rest) columns
    = (tableColumns first, Some cells) ∧
    (first = ∅ → tableColumns first = [] ∧ tableRows cells = []
                 ∧ GetRowCount cells = 0) ∧
    (first ≠ ∅ →
     ∃ header rows,
       tableRows cells = header :: rows ∧
       GetRowCount cells = len (first :: rest) + 1 ∧
       header ≠ [] ∧
       CellText <$> header = tableColumns first ∧
       length rows = length (first :: rest) ∧
       Forall (λ c, 8 <= CellMaxWidth c <= 40) header ∧
       Forall (λ r, length r = length header
                    ∧ Forall (λ c, 8 <= CellMaxWidth c <= 40
                                   ∧ slen (CellText c) <= CellMaxWidth c + 2) r) rows).
Proof.
  split; [reflexivity|].
  change (renderJSONToTable40 fmtFloat (first :: rest) columns)
    with (renderJSONToTable fmtFloat (first :: rest) columns DefaultConfig).
  rewrite renderJSONToTable_cells by (by vm_compute).
  change (MaxColumnWidth DefaultConfig) with 40.
  assert (HW : ∀ k, 8 <= colWidth fmtFloat 40 (first :: rest) k <= 40).
  { intros k. pose proof (colWidth_bounds fmtFloat 40 (first :: rest) k). lia. }
  eexists. split; [reflexivity|].
  match goal with |- context [tableRows ?c] => set (cells := c) end.
  assert (Hu : Forall (λ r, length r = length (tableColumns first)) cells)
    by apply rendered_uniform.
  pose proof (GetRowCount_uniform _ _ Hu) as Hcount.
  pose proof (tableRows_uniform _ _ Hu) as Hrows.
  split.
  - intros Hempty. apply tableColumns_nil in Hempty. rewrite Hempty in Hcount, Hrows.
    by rewrite Hempty.
  - intros Hne.
    destruct (tableColumns first) as [|k0 ks] eqn:Hcols;
      [by apply tableColumns_nil in Hcols|].
    cbn [length] in Hcount, Hrows. rewrite Hrows, Hcount. subst cells.
    eexists _, _. split; [reflexivity|].
    split; [unfold len; cbn [length]; rewrite length_fmap; cbn [length]; lia|].
    split; [done|]. split; [|split; [|split]].
    + rewrite <- list_fmap_compose. apply list_fmap_id.
    + by rewrite length_fmap.
    + apply Forall_fmap, Forall_forall. intros k _. apply HW.
    + apply Forall_fmap, Forall_forall. intros row _. cbn beta.
      split; [by rewrite !length_fmap|].
      apply Forall_fmap, Forall_forall. intros k _. simpl. split; [apply HW|].
      apply slen_shownText. specialize (HW k). lia.
Qed.

(** ** Scrolling *)

Lemma rowUp_ge_1 row step : 1 <= rowUp row step.
Proof. unfold rowUp. destruct (Z.ltb_spec (wrap_int (row - step)) 1); lia. Qed.

Lemma rowDown_lt row step rowCount : rowDown row step rowCount < rowCount.
Proof. unfold rowDown. destruct (Z.leb_spec rowCount (wrap_int (row + step))); lia. Qed.

Lemma rowUp_le row step : 1 <= row → 0 <= step <= max_int → row <= max_int →
  rowUp row step <= row.
Proof.
  intros Hr Hs Hm. unfold rowUp. rewrite wrap_int_id.
  - destruct (Z.ltb_spec (row - step) 1); lia.
  - unfold in_int, min_int, max_int in *. lia.
Qed.

Lemma rowDown_ge row step rowCount :
  1 <= row < rowCount → 0 <= step → rowCount + step <= max_int →
  1 <= rowDown row step rowCount.
Proof.
  intros Hr Hs Hm. unfold rowDown. rewrite wrap_int_id.
  - destruct (Z.leb_spec rowCount (row + step)); lia.
  - unfold in_int, min_int, max_int in *. lia.
Qed.

Lemma tableSelect_fields fmtFloat row col st :
  selection (tableSelect fmtFloat row col st) = (row, col) ∧
  tableCells (tableSelect fmtFloat row col st) = tableCells st ∧
  currentData (tableSelect fmtFloat row col st) = currentData st ∧
  currentColumns (tableSelect fmtFloat row col st) = currentColumns st ∧
  currentRowCount (tableSelect fmtFloat row col st) = currentRowCount st.
Proof. destruct (tableSelect_frame fmtFloat row col st) as [d ->]. done. Qed.

Lemma repeatStep_step cfg key now kr :
  (repeatStep cfg key now kr).1 = 1
  ∨ (repeatStep cfg key now kr).1 = ScrollAcceleration cfg.
Proof. unfold repeatStep. simpl. destruct (_ && (_ <? _)); auto. Qed.

(** X11 — the four scrolling keys are taken by the handler, keep the column
    and leave the table and the rows as they are; an upward key never
    selects a row before 1 and a downward key never one past the last; and
    when a data row is selected and the configured steps are not negative,
    the row selected afterwards is again a data row.  Any other key is
    passed on with nothing changed. *)
Theorem scroll_keeps_selection_on_data (fmtFloat : string → string) (cfg : Config)
    (key : Key) (now : Time) (kr : KeyRepeat) (st : Session) :
  key ∈ [KeyPgDn; KeyPgUp; KeyDown; KeyUp] →
  let rowCount := GetRowCount (tableCells st) in
  let st' := (scrollCapture fmtFloat cfg key now kr st).1.2 in
  (scrollCapture fmtFloat cfg key now kr st).2 = true ∧
  (selection st').2 = (selection st).2 ∧
  tableCells st' = tableCells st ∧ currentData st' = currentData st ∧
  (key ∈ [KeyPgUp; KeyUp] → 1 <= (selection st').1) ∧
  (key ∈ [KeyPgDn; KeyDown] → (selection st').1 < rowCount) ∧
  (1 <= (selection st).1 < rowCount →
   0 <= PageScrollStep cfg → 0 <= ScrollAcceleration cfg → rowCount < max_int →
   rowCount + PageScrollStep cfg <= max_int →
   rowCount + ScrollAcceleration cfg <= max_int →
   1 <= (selection st').1 < rowCount) ∧
  (∀ other, other ∉ [KeyPgDn; KeyPgUp; KeyDown; KeyUp] →
     scrollCapture fmtFloat cfg other now kr st = (kr, st, false)).
Proof.
  intros Hkey rowCount st'. subst st'.
  set (P := ∀ other, other ∉ [KeyPgDn; KeyPgUp; KeyDown; KeyUp] →
              scrollCapture fmtFloat cfg other now kr st = (kr, st, false)).
  assert (Hother : P).
  { intros other Ho. unfold scrollCapture. destruct (selection st) as [row col].
    destruct other; try done; exfalso; apply Ho; repeat (first [left|right]). }
  clearbody P.
  unfold scrollCapture. destruct (selection st) as [row col] eqn:Hsel.
  fold rowCount. cbn [fst snd].
  pose proof (repeatStep_step cfg key now kr) as Hstep.
  destruct (repeatStep cfg key now kr) as [step kr'] eqn:Hrs. cbn [fst] in Hstep.
  assert (Hsdown : 1 <= row < rowCount → 0 <= ScrollAcceleration cfg →
                   rowCount < max_int → rowCount + ScrollAcceleration cfg <= max_int →
                   1 <= rowDown row step rowCount).
  { intros. apply rowDown_ge; [done|..]; destruct Hstep as [->| ->]; lia. }
  assert (Hsup : 1 <= row < rowCount → 0 <= ScrollAcceleration cfg →
                 rowCount < max_int → rowCount + ScrollAcceleration cfg <= max_int →
                 rowUp row step < rowCount).
  { intros. assert (rowUp row step <= row); [|lia].
    apply rowUp_le; [lia| |lia]. destruct Hstep as [->| ->]; lia. }
  repeat (apply elem_of_cons in Hkey as [->|Hkey]); [..|by apply elem_of_nil in Hkey];
    cbn [fst snd];
    match goal with |- context [tableSelect fmtFloat ?r ?c st] =>
      destruct (tableSelect_fields fmtFloat r c st) as (-> & -> & -> & _) end;
    cbn [fst snd]; repeat split; try done; try exact Hother;
    try (intros; apply rowUp_ge_1); try (intros; apply rowDown_lt);
    try (intros Hin; repeat (apply elem_of_cons in Hin as [[=]|Hin]);
         by apply elem_of_nil in Hin).
  - by apply rowDown_ge.
  - assert (rowUp row (PageScrollStep cfg) <= row); [|lia]. apply rowUp_le; lia.
  - by apply Hsdown.
  - by apply Hsup.
Qed.

Lemma scroll_keeps_selection_on_data_witness :
  1 <= (selection (scrollCapture (λ lit, lit) DefaultConfig KeyPgDn 0 initialKeyRepeat
                     (set_tableCells [[mkCell "id" 8]; [mkCell "1" 8]; [mkCell "2" 8]]
                        (set_selection (1, 0) (initialSession emptyHistory)))).1.2).1
  < 3.
Proof.
  destruct (scroll_keeps_selection_on_data (λ lit, lit) DefaultConfig KeyPgDn 0
              initialKeyRepeat
              (set_tableCells [[mkCell "id" 8]; [mkCell "1" 8]; [mkCell "2" 8]]
                 (set_selection (1, 0) (initialSession emptyHistory))))
    as (_ & _ & _ & _ & _ & _ & Hin & _).
  - left.
  - apply Hin; vm_compute; try split; congruence.
Defined.

Lemma time_Sub_rapid gap prev now :
  gap <= max_int → prev <= now < prev + gap → time_Sub now prev = now - prev.
Proof.
  intros Hg Hn. unfold time_Sub.
  destruct (Z.ltb_spec max_int (now - prev)); [lia|].
  destruct (Z.ltb_spec (now - prev) min_int); [|done]. unfold min_int in *. lia.
Qed.

(** A press of the key of the run, soon enough after the last, counts one
    more repeat. *)
Lemma repeatStep_repeat cfg key now kr :
  lastKey kr = key → 0 <= keyRepeatCount kr < max_int →
  lastKeyTime kr <= now
  < lastKeyTime kr + wrap_int (ScrollRepeatTimeoutMs cfg * Millisecond) →
  repeatStep cfg key now kr
  = (if ScrollRepeatThreshold cfg <? keyRepeatCount kr + 1
     then ScrollAcceleration cfg else 1,
     mkKeyRepeat now key (keyRepeatCount kr + 1)).
Proof.
  intros Hk Hc Hn. unfold repeatStep. rewrite Hk, bool_decide_eq_true_2 by done.
  assert (Hg : wrap_int (ScrollRepeatTimeoutMs cfg * Millisecond) <= max_int).
  { unfold wrap_int, max_int. pose proof (Z.mod_pos_bound
      (ScrollRepeatTimeoutMs cfg * Millisecond + 2 ^ 63) (2 ^ 64) ltac:(lia)). lia. }
  rewrite (time_Sub_rapid _ _ _ Hg Hn).
  replace (now - lastKeyTime kr <? _) with true by (symmetry; apply Z.ltb_lt; lia).
  cbn [andb]. rewrite wrap_int_id; [done|].
  unfold in_int, min_int, max_int in *. lia.
Qed.

Lemma pressRun_repeat cfg key times :
  ∀ kr steps kr',
  lastKey kr = key → 0 <= keyRepeatCount kr → keyRepeatCount kr + len times <= max_int →
  rapid (wrap_int (ScrollRepeatTimeoutMs cfg * Millisecond)) (lastKeyTime kr) times →
  pressRun cfg key times kr = (steps, kr') →
  length steps = length times ∧
  keyRepeatCount kr' = keyRepeatCount kr + len times ∧ lastKey kr' = key ∧
  ∀ i step, steps !! i = Some step →
    step = if ScrollRepeatThreshold cfg <? keyRepeatCount kr + 1 + Z.of_nat i
           then ScrollAcceleration cfg else 1.
Proof.
  induction times as [|now times IH]; intros kr steps kr' Hk Hc Hm Hr.
  - simpl. intros [= <- <-]. unfold len. simpl. repeat split; [lia|done..].
  - cbn [pressRun]. destruct Hr as [Hnow Hr]. rewrite len_cons in Hm.
    pose proof (len_nonneg times).
    rewrite repeatStep_repeat by (done || lia).
    destruct (pressRun cfg key times _) as [steps1 kr1] eqn:Hrun. intros [= <- <-].
    destruct (IH (mkKeyRepeat now key (keyRepeatCount kr + 1)) steps1 kr1 eq_refl
                ltac:(simpl; lia) ltac:(simpl; lia) Hr Hrun)
      as (Hlen & Hcount & Hlast & Hsteps).
    simpl in Hcount. rewrite len_cons. repeat split; [simpl; lia|lia|done|].
    intros [|i] step; simpl.
    + intros [= <-]. by rewrite Z.add_0_r.
    + intros Hi. rewrite (Hsteps i step Hi). simpl.
      by replace (keyRepeatCount kr + 1 + 1 + Z.of_nat i)
        with (keyRepeatCount kr + 1 + Z.pos (Pos.of_succ_nat i)) by lia.
Qed.

(** X12 — in a run of presses of one arrow key, each within the repeat
    timeout of the one before, that starts afresh (another key was pressed
    last, or the timeout has passed): the first press moves by 1, and press
    number [i] after it moves by [ScrollAcceleration] when [i] is above
    [ScrollRepeatThreshold], by 1 otherwise; the repeat count after the run
    is the number of presses that followed the first. *)
Theorem scroll_accelerates_after_threshold (cfg : Config) (key : Key) (t0 : Time)
    (times : list Time) (kr : KeyRepeat) :
  lastKey kr ≠ key
  ∨ wrap_int (ScrollRepeatTimeoutMs cfg * Millisecond) <= time_Sub t0 (lastKeyTime kr) →
  rapid (wrap_int (ScrollRepeatTimeoutMs cfg * Millisecond)) t0 times →
  len times <= max_int →
  let '(steps, kr') := pressRun cfg key (t0 :: times) kr in
  length steps = S (length times) ∧
  keyRepeatCount kr' = len times ∧ lastKey kr' = key ∧
  ∀ i step, steps !! i = Some step →
    step = if (0 <? Z.of_nat i) && (ScrollRepeatThreshold cfg <? Z.of_nat i)
           then ScrollAcceleration cfg else 1.
Proof.
  intros Hfresh Hr Hm. cbn [pressRun].
  assert (Hfirst : repeatStep cfg key t0 kr = (1, mkKeyRepeat t0 key 0)).
  { unfold repeatStep.
    replace (bool_decide (key = lastKey kr) && _) with false; [done|].
    symmetry. apply andb_false_iff. destruct Hfresh as [Hk|Ht].
    - left. apply bool_decide_eq_false_2. congruence.
    - right. apply Z.ltb_ge. lia. }
  rewrite Hfirst.
  destruct (pressRun cfg key times _) as [steps kr'] eqn:Hrun.
  destruct (pressRun_repeat cfg key times (mkKeyRepeat t0 key 0) steps kr' eq_refl
              ltac:(simpl; lia) ltac:(simpl; lia) Hr Hrun)
    as (Hlen & Hcount & Hlast & Hsteps).
  simpl in Hcount. repeat split; [simpl; lia|lia|done|].
  intros [|i] step; simpl.
  - by intros [= <-].
  - intros Hi. rewrite (Hsteps i step Hi). simpl.
    by replace (0 + 1 + Z.of_nat i) with (Z.pos (Pos.of_succ_nat i)) by lia.
Qed.

Lemma scroll_accelerates_after_threshold_witness :
  keyRepeatCount
    (pressRun DefaultConfig KeyDown [0; 100; 200; 300; 400; 500] initialKeyRepeat).2 = 5.
Proof.
  pose proof (scroll_accelerates_after_threshold DefaultConfig KeyDown 0
                [100; 200; 300; 400; 500] initialKeyRepeat) as H.
  specialize (H ltac:(left; discriminate) ltac:(vm_compute; repeat split; discriminate)
                ltac:(vm_compute; discriminate)).
  destruct H as (_ & Hcount & _). exact Hcount.
Defined.

(** ** The session *)

Lemma updateDetailView_fields fmtFloat st :
  selection (updateDetailView fmtFloat st) = selection st ∧
  tableCells (updateDetailView fmtFloat st) = tableCells st ∧
  currentData (updateDetailView fmtFloat st) = currentData st ∧
  currentColumns (updateDetailView fmtFloat st) = currentColumns st ∧
  currentRowCount (updateDetailView fmtFloat st) = currentRowCount st.
Proof. destruct (updateDetailView_frame fmtFloat st) as [d ->]. done. Qed.

(** What [renderJSONToTable] leaves in the table and the columns agrees
    with the rows it was given. *)
Lemma renderInto_agrees fmtFloat cfg data st :
  1 <= MaxColumnWidth cfg <= max_int →
  ∃ cols cells,
    renderInto fmtFloat cfg data st
    = Some (set_tableCells cells (set_currentColumns cols st)) ∧
    ∀ st', currentData st' = data → currentRowCount st' = len data →
           currentColumns st' = cols → tableCells st' = cells → table_agrees st'.
Proof.
  intros Hcfg. unfold renderInto. destruct data as [|first rest].
  - exists (currentColumns st), []. split; [done|].
    intros st' Hd Hc _ Ht. unfold table_agrees. by rewrite Hd, Hc, Ht.
  - rewrite renderJSONToTable_cells by done. cbn [mbind option_bind].
    eexists _, _. split; [reflexivity|].
    intros st' Hd Hc Hcols Ht. unfold table_agrees. rewrite Hd, Hc, Hcols, Ht.
    split; [done|]. split; [done|].
    match goal with |- context [tableRows ?c] => set (cells := c) end.
    assert (Hu : Forall (λ r, length r = length (tableColumns first)) cells)
      by apply rendered_uniform.
    rewrite (GetRowCount_uniform _ _ Hu), (tableRows_uniform _ _ Hu).
    destruct (tableColumns first) as [|k0 ks]; [done|]. cbn [length].
    split; [|exact Hu].
    subst cells. unfold len. cbn [length]. rewrite length_fmap. cbn [length]. lia.
Qed.

Lemma showRows_agrees fmtFloat cfg rows st :
  1 <= MaxColumnWidth cfg <= max_int →
  ∃ st', showRows fmtFloat cfg rows st = Some st' ∧ table_agrees st' ∧
         currentData st' = rows ∧ currentRowCount st' = len rows ∧
         rawText st' = rawText st ∧ hist st' = hist st.
Proof.
  intros Hcfg. unfold showRows.
  destruct (renderInto_agrees fmtFloat cfg rows (set_currentData rows st) Hcfg)
    as (cols & cells & -> & Hagree).
  cbn [mbind option_bind]. eexists. split; [reflexivity|].
  split; [by apply Hagree|]. done.
Qed.

Lemma select_update_fields fmtFloat row col st :
  tableCells (updateDetailView fmtFloat (tableSelect fmtFloat row col st)) = tableCells st ∧
  currentData (updateDetailView fmtFloat (tableSelect fmtFloat row col st))
  = currentData st ∧
  currentColumns (updateDetailView fmtFloat (tableSelect fmtFloat row col st))
  = currentColumns st ∧
  currentRowCount (updateDetailView fmtFloat (tableSelect fmtFloat row col st))
  = currentRowCount st.
Proof.
  destruct (tableSelect_frame fmtFloat row col st) as [d1 ->].
  destruct (updateDetailView_frame fmtFloat (set_detailText d1 (set_selection (row, col) st)))
    as [d2 ->]. done.
Qed.

Lemma table_agrees_same st st' :
  currentRowCount st' = currentRowCount st → currentData st' = currentData st →
  currentColumns st' = currentColumns st → tableCells st' = tableCells st →
  table_agrees st → table_agrees st'.
Proof. unfold table_agrees. by intros -> -> -> ->. Qed.

Lemma clearResult_agrees detail status st : table_agrees (clearResult detail status st).
Proof. done. Qed.

Lemma applyResult_agrees fmtFloat cfg res kind raw st :
  1 <= MaxColumnWidth cfg <= max_int →
  ∃ st', applyResult fmtFloat cfg (ROk (res, kind, raw)) st = Some st' ∧
         table_agrees st' ∧ rawText st' = raw ∧ hist st' = hist st.
Proof.
  intros Hcfg. unfold applyResult.
  destruct (String.eqb kind "json"); [|by eexists].
  destruct res as [v|gen|text]; [| |by eexists].
  - destruct (showRows_agrees fmtFloat cfg v (set_rawText raw st) Hcfg)
      as (st1 & -> & Hagree & Hd & Hc & Hraw & Hh).
    cbn [mbind option_bind]. eexists. split; [reflexivity|].
    destruct (0 <? currentRowCount st1).
    + destruct (tableSelect_fields fmtFloat 1 0 st1) as (_ & T1 & T2 & T3 & T4).
      destruct (updateDetailView_fields fmtFloat (tableSelect fmtFloat 1 0 st1))
        as (_ & U1 & U2 & U3 & U4).
      destruct (tableSelect_frame fmtFloat 1 0 st1) as [d1 E1].
      destruct (updateDetailView_frame fmtFloat (tableSelect fmtFloat 1 0 st1)) as [d2 E2].
      split; [|by rewrite E2, E1].
      eapply table_agrees_same; [..|exact Hagree]; simpl; congruence.
    + split; [|done]. by eapply table_agrees_same; [..|exact Hagree].
  - destruct gen as [| | | |items|]; try by eexists.
    destruct (0 <? len (mapsOf items)); [|by eexists].
    destruct (showRows_agrees fmtFloat cfg (mapsOf items) (set_rawText raw st) Hcfg)
      as (st1 & -> & Hagree & Hd & Hc & Hraw & Hh).
    cbn [mbind option_bind]. eexists. split; [reflexivity|].
    destruct (tableSelect_fields fmtFloat 1 0 st1) as (_ & T1 & T2 & T3 & T4).
    destruct (updateDetailView_fields fmtFloat (tableSelect fmtFloat 1 0 st1))
      as (_ & U1 & U2 & U3 & U4).
    destruct (tableSelect_frame fmtFloat 1 0 st1) as [d1 E1].
    destruct (updateDetailView_frame fmtFloat (tableSelect fmtFloat 1 0 st1)) as [d2 E2].
    split; [|by rewrite E2, E1].
    eapply table_agrees_same; [..|exact Hagree]; simpl; congruence.
Qed.

Lemma selectedFunc_agrees fmtFloat cfg row col st st' :
  1 <= MaxColumnWidth cfg <= max_int → table_agrees st →
  selectedFunc fmtFloat cfg row col st = Some st' → table_agrees st'.
Proof.
  intros Hcfg Hst. unfold selectedFunc.
  destruct ((row =? 0) && _ && _); [|by intros [= <-]].
  destruct (index (currentColumns st) col) as [colName|]; [|done].
  cbn [mbind option_bind].
  set (st1 := if sortColumn st =? col then _ else _).
  assert (H1 : currentData st1 = currentData st ∧ currentRowCount st1 = currentRowCount st).
  { subst st1. by destruct (sortColumn st =? col). }
  destruct H1 as [Hd1 Hc1].
  set (data' := sortSlice _ (currentData st1)).
  assert (Hlen : len data' = len (currentData st)).
  { subst data'. rewrite Hd1. unfold len. f_equal. apply Permutation_length.
    apply sortSlice_Permutation. }
  cbn [currentData set_currentData].
  destruct (renderInto_agrees fmtFloat cfg data' (set_currentData data' st1) Hcfg)
    as (cols & cells & -> & Hagree).
  cbn [mbind option_bind].
  intros [= <-].
  apply Hagree;
    match goal with |- context [updateDetailView fmtFloat (tableSelect fmtFloat 1 0 ?s)] =>
      destruct (select_update_fields fmtFloat 1 0 s) as (V1 & V2 & V3 & V4) end;
    rewrite ?V1, ?V2, ?V3, ?V4; try done.
  simpl. rewrite Hc1, Hlen. apply Hst.
Qed.

(** X13 — after the result of a query has been applied (with a column width
    of at least 1, so that rendering does not panic) the table agrees with
    the rows: the row count is their number, the columns are those of the
    first row, and the table has no row when there is no column (the first
    row has no key), otherwise a header and one row per data row, each with
    one cell per column; the raw view holds the body and the history is
    untouched.  Sorting by a header and scrolling keep that agreement. *)
Theorem results_table_agrees (fmtFloat : string → string) (cfg : Config) :
  1 <= MaxColumnWidth cfg <= max_int →
  (∀ res kind raw st,
     ∃ st', applyResult fmtFloat cfg (ROk (res, kind, raw)) st = Some st' ∧
            table_agrees st' ∧ rawText st' = raw ∧ hist st' = hist st) ∧
  (∀ row col st st',
     table_agrees st → selectedFunc fmtFloat cfg row col st = Some st' →
     table_agrees st') ∧
  (∀ key now kr st,
     table_agrees st → table_agrees (scrollCapture fmtFloat cfg key now kr st).1.2).
Proof.
  intros Hcfg. split; [|split].
  - intros. by apply applyResult_agrees.
  - intros row col st st' Hst. by apply selectedFunc_agrees.
  - intros key now kr st Hst. unfold scrollCapture.
    destruct (selection st) as [row col].
    destruct (repeatStep cfg key now kr) as [step kr'].
    destruct key; cbn [fst snd]; try done;
      match goal with |- context [tableSelect fmtFloat ?r ?c st] =>
        destruct (tableSelect_fields fmtFloat r c st) as (_ & T1 & T2 & T3 & T4) end;
      by eapply table_agrees_same; [..|exact Hst].
Qed.

Lemma results_table_agrees_witness :
  ∃ st', applyResult (λ lit, lit) DefaultConfig
           (ROk (classifyBody body_rows)) (initialSession emptyHistory) = Some st' ∧
         table_agrees st' ∧ rawText st' = body_rows ∧ hist st' = emptyHistory.
Proof.
  destruct (results_table_agrees (λ lit, lit) DefaultConfig) as (Happly & _).
  - vm_compute. split; discriminate.
  - pose proof (Happly (classifyBody body_rows).1.1 (classifyBody body_rows).1.2
                  (classifyBody body_rows).2 (initialSession emptyHistory)) as H.
    exact H.
Defined.

(** X14 — [runQuery] clears the table and the row count but not the rows:
    when the query then fails, the table is empty while the rows, the
    columns, the title of the table and the detail view are still those of
    the result before, so that the table no longer agrees with the rows
    when there were any. *)
Theorem failed_query_keeps_previous_rows (fmtFloat : string → string)
    (formatTime : Time → option string) (cfg : Config) (env : Env) (fs fs1 : FS)
    (query err : string) (now : Time) (st st1 : Session) :
  runQuery formatTime cfg env fs query now st = Some (st1, fs1) →
  ∃ st2, applyResult fmtFloat cfg (RErr err) st1 = Some st2 ∧
    tableCells st2 = [] ∧ currentRowCount st2 = 0 ∧
    currentData st2 = currentData st ∧ currentColumns st2 = currentColumns st ∧
    tableTitle st2 = tableTitle st ∧ detailText st2 = detailText st ∧
    rawText st2 = "Error: " +:+ err ∧ statusText st2 = "[red]Error: " +:+ err ∧
    (currentData st ≠ [] → ¬ table_agrees st2).
Proof.
  unfold runQuery. destruct (appendHistory _ _ _ _) as [h|]; [|done].
  cbn [mbind option_bind]. destruct (saveHistory _ _ _ _) as [fs' [e|]];
    intros [= <- <-]; (eexists; split; [reflexivity|]); simpl;
    (repeat split; try done);
    intros Hne [Hcount _]; simpl in Hcount;
    (destruct (currentData st) as [|x l]; [done|]);
    unfold len in Hcount; simpl in Hcount; lia.
Qed.

Lemma failed_query_keeps_previous_rows_witness :
  ∃ st2,
    applyResult (λ lit, lit) DefaultConfig (RErr "connection refused")
      (set_tableCells []
         (set_currentRowCount 0
            (set_focus Results
               (set_hist (mkHistory [mkEntry "select 2" 0])
                  (set_sortAscending true
                     (set_sortColumn (-1)
                        (set_statusText "[yellow]Running query..." toggle_session)))))))
    = Some st2 ∧ tableCells st2 = [] ∧ currentRowCount st2 = 0 ∧
    currentData st2 = currentData toggle_session.
Proof.
  destruct (failed_query_keeps_previous_rows (λ lit, lit) epochFormat DefaultConfig
              home_env (mkFS ∅ ∅)
              (saveHistory epochFormat home_env (mkFS ∅ ∅) (mkHistory [mkEntry "select 2" 0])).1
              "select 2" "connection refused" 0 toggle_session
              (set_tableCells []
                 (set_currentRowCount 0
                    (set_focus Results
                       (set_hist (mkHistory [mkEntry "select 2" 0])
                          (set_sortAscending true
                             (set_sortColumn (-1)
                                (set_statusText "[yellow]Running query..."
                                   toggle_session))))))))
    as (st2 & H1 & H2 & H3 & H4 & _).
  - vm_compute. reflexivity.
  - exists st2. by repeat split.
Defined.








(** ** Focus *)

Lemma updateFocusColors_highlights p b : highlights (updateFocusColors (PaneWidget p) b) p.
Proof. intros q. destruct p, q; simpl; split; intros H; done. Qed.


Lemma runQuery_focus formatTime cfg env fs query now st st' fs' :
  runQuery formatTime cfg env fs query now st = Some (st', fs') →
  focus st' = Results ∧ hist st' = default (hist st)
    (appendHistory (hist st) query (MaxHistoryEntries cfg) now) ∧
  fs' = (saveHistory formatTime env fs (hist st')).1 ∧
  statusText st'
  = match (saveHistory formatTime env fs (hist st')).2 with
    | Some e => "[red]Failed to save history: " +:+ e
    | None => "[yellow]Running query..."
    end.
Proof.
  unfold runQuery. destruct (appendHistory _ _ _ _) as [h|]; [|done].
  cbn [mbind option_bind]. simpl hist.
  destruct (saveHistory formatTime env fs h) as [fs1 [e|]] eqn:Hs;
    intros [= <- <-]; simpl; by rewrite Hs.
Qed.

(** X17 — [Enter] in the editor runs the query and moves the focus to the
    results table without repainting the borders: when the green border
    was on the editor it stays there, so that the border no longer shows
    the pane that has the focus; the next [Tab] moves on to the detail view
    and puts the border right again. *)
Theorem enter_leaves_border_on_editor (formatTime : Time → option string)
    (formatStamp : Time → string) (cfg : Config) (env : Env) (fs fs' : FS) (now : Time)
    (app app' : App) :
  focus (session app) = Editor → highlights (borders app) Editor →
  enterKey formatTime formatStamp cfg env fs now app = Some (app', fs') →
  focus (session app') = Results ∧ borders app' = borders app ∧
  highlights (borders app') Editor ∧
  ¬ highlights (borders app') (focus (session app')) ∧
  editorText app' = editorText app ∧
  focus (session (tabKey (PaneWidget (focus (session app'))) app')) = Detail ∧
  highlights (borders (tabKey (PaneWidget (focus (session app'))) app')) Detail.
Proof.
  intros Hf Hb. unfold enterKey, runQueryApp.
  destruct (runQuery formatTime cfg env fs (editorText app) now (session app))
    as [[st fs1]|] eqn:Hrun; [|done].
  cbn [mbind option_bind]. intros [= <- <-]. cbn [session borders editorText].
  destruct (runQuery_focus _ _ _ _ _ _ _ _ _ Hrun) as (Hfocus & _).
  rewrite Hfocus. split; [done|]. split; [done|]. split; [done|]. split.
  { intros Hr. pose proof (proj2 (Hr Results) eq_refl) as H1.
    by pose proof (proj1 (Hb Results) H1). }
  split; [done|]. unfold tabKey. cbn [session borders nextFocus]. split; [done|].
  apply updateFocusColors_highlights.
Qed.

Lemma enter_leaves_border_on_editor_witness :
  ∃ app' fs',
    enterKey epochFormat (λ _, "1970-01-01 00:00:00") DefaultConfig home_env (mkFS ∅ ∅) 0
      (mkApp (initialSession emptyHistory)
             (updateFocusColors (PaneWidget Editor)
                (mkBorders ColorWhite ColorWhite ColorWhite ColorWhite ColorWhite))
             "select 1" [])
    = Some (app', fs') ∧
    focus (session app') = Results ∧ highlights (borders app') Editor.
Proof.
  set (A := mkApp (initialSession emptyHistory)
              (updateFocusColors (PaneWidget Editor)
                 (mkBorders ColorWhite ColorWhite ColorWhite ColorWhite ColorWhite))
              "select 1" []).
  destruct (enterKey epochFormat (λ _, "1970-01-01 00:00:00") DefaultConfig home_env
              (mkFS ∅ ∅) 0 A) as [[app' fs']|] eqn:Hrun.
  - exists app', fs'. split; [done|].
    destruct (enter_leaves_border_on_editor epochFormat (λ _, "1970-01-01 00:00:00")
                DefaultConfig home_env (mkFS ∅ ∅) fs' 0 A app' eq_refl
                (updateFocusColors_highlights Editor _) Hrun) as (H1 & _ & H3 & _).
    by split.
  - exfalso. revert Hrun. vm_compute. discriminate.
Defined.

(** ** The history list *)

Lemma refreshFrom_lookup formatStamp es :
  ∀ i j, 0 <= i →
  refreshFrom formatStamp i es !! j
  = if (j =? 0)%nat || (i + Z.of_nat j <=? 100)
    then (λ e, mkItem (historyLabel formatStamp e) (i + Z.of_nat j)) <$> es !! j
    else None.
Proof.
  induction es as [|e es IH]; intros i j Hi.
  - cbn [refreshFrom]. rewrite !lookup_nil. by destruct (_ || _).
  - destruct j as [|j]; cbn [refreshFrom].
    + cbn [Nat.eqb orb]. change ((?x :: ?l) !! 0%nat) with (Some x).
      cbn [fmap option_fmap option_map]. by rewrite Z.add_0_r.
    + change ((?x :: ?l) !! S j) with (l !! j). cbn [Nat.eqb orb].
      destruct (Z.leb_spec 100 i) as [Hbig|Hsmall].
      * rewrite lookup_nil.
        by replace (i + Z.of_nat (S j) <=? 100) with false
          by (symmetry; apply Z.leb_gt; lia).
      * rewrite IH by lia.
        replace (i + 1 + Z.of_nat j) with (i + Z.of_nat (S j)) by lia.
        replace ((j =? 0)%nat || (i + Z.of_nat (S j) <=? 100))
          with (i + Z.of_nat (S j) <=? 100); [done|].
        destruct j as [|j]; [|done]. cbn [Nat.eqb orb]. apply Z.leb_le. lia.
Qed.

Lemma refreshHistoryList_lookup formatStamp h j :
  refreshHistoryList formatStamp h !! j
  = if (j <=? 100)%nat
    then (λ e, mkItem (historyLabel formatStamp e) (Z.of_nat j)) <$> Entries h !! j
    else None.
Proof.
  unfold refreshHistoryList. rewrite refreshFrom_lookup by lia.
  rewrite !Z.add_0_l.
  destruct (Nat.leb_spec j 100) as [Hle|Hgt].
  - replace ((j =? 0)%nat || _) with true; [done|].
    symmetry. apply orb_true_iff. right. apply Z.leb_le. lia.
  - replace ((j =? 0)%nat || _) with false; [done|].
    symmetry. apply orb_false_iff. split; [apply Nat.eqb_neq; lia|apply Z.leb_gt; lia].
Qed.

Lemma refreshHistoryList_length formatStamp h :
  length (refreshHistoryList formatStamp h) = Nat.min (length (Entries h)) 101.
Proof.
  set (items := refreshHistoryList formatStamp h).
  set (n := Nat.min (length (Entries h)) 101).
  destruct (Nat.lt_trichotomy (length items) n) as [Hlt|[Heq|Hgt]]; [|done|].
  - exfalso. assert (Hnone : items !! length items = None) by (by apply lookup_ge_None_2).
    subst items. rewrite refreshHistoryList_lookup in Hnone.
    replace (_ <=? 100)%nat with true in Hnone by (symmetry; apply Nat.leb_le; lia).
    destruct (lookup_lt_is_Some_2 (Entries h) (length (refreshHistoryList formatStamp h)))
      as [e He]; [lia|]. by rewrite He in Hnone.
  - exfalso. destruct (lookup_lt_is_Some_2 items n Hgt) as [item Hitem].
    subst items. rewrite refreshHistoryList_lookup in Hitem.
    destruct (Nat.leb_spec n 100); [|done].
    rewrite (lookup_ge_None_2 (Entries h) n) in Hitem by lia. done.
Qed.

(** X18 — the history list shows the entries in their order, the first 101
    of them at most (the loop stops after the item of index 100); the item
    at position [i] carries the time and the query of entry [i], and
    activating it puts the query of entry [i] in the editor, moves the
    focus to the editor and the green border with it. *)
Theorem history_list_items (formatStamp : Time → string) (app : App) :
  let h := hist (session app) in
  let items := refreshHistoryList formatStamp h in
  length items = Nat.min (length (Entries h)) 101 ∧
  (∀ i item, items !! i = Some item →
     ∃ e, Entries h !! i = Some e ∧ (i <= 100)%nat ∧
          item = mkItem (historyLabel formatStamp e) (Z.of_nat i) ∧
          itemSelected (itemIndex item) app
          = Some (mkApp (set_focus Editor (session app))
                        (updateFocusColors (PaneWidget Editor) (borders app))
                        (Query e) (listItems app)) ∧
          highlights (updateFocusColors (PaneWidget Editor) (borders app)) Editor) ∧
  (∀ i e, (i <= 100)%nat → Entries h !! i = Some e →
          items !! i = Some (mkItem (historyLabel formatStamp e) (Z.of_nat i))) ∧
  (∀ i, (100 < i)%nat → items !! i = None).
Proof.
  intros h items. split; [apply refreshHistoryList_length|]. split; [|split].
  - intros i item Hitem. subst items. rewrite refreshHistoryList_lookup in Hitem.
    destruct (Nat.leb_spec i 100) as [Hle|]; [|done].
    destruct (Entries h !! i) as [e|] eqn:He; [|done]. injection Hitem as <-.
    exists e. split; [done|]. split; [done|]. split; [done|]. split.
    + unfold itemSelected. cbn [itemIndex]. fold h. rewrite index_lookup by lia.
      by rewrite Nat2Z.id, He.
    + apply updateFocusColors_highlights.
  - intros i e Hi He. subst items. rewrite refreshHistoryList_lookup.
    replace (i <=? 100)%nat with true by (symmetry; apply Nat.leb_le; lia).
    by rewrite He.
  - intros i Hi. subst items. rewrite refreshHistoryList_lookup.
    by replace (i <=? 100)%nat with false by (symmetry; apply Nat.leb_gt; lia).
Qed.

(** ** The history on the screen and on disk *)

Lemma loadHistory_saved formatTime parseTime env fs h fs' :
  (∀ t s, formatTime t = Some s → parseTime s = Some t ∧ all_plain s = true) →
  Forall (λ e, ValidString (Query e) = true) (Entries h) →
  saveHistory formatTime env fs h = (fs', None) →
  loadHistory parseTime env fs' = ROk h.
Proof.
  intros Htime Hvalid. unfold saveHistory, loadHistory.
  destruct (historyPath env) as [p|err]; [|done].
  destruct (MkdirAll fs (filepath_Dir p)); [done|].
  destruct (MarshalIndent_history formatTime h) as [b|] eqn:Hb; [|done].
  intros Hw. rewrite (ReadFile_WriteFile _ _ _ _ Hw).
  by rewrite (Unmarshal_Marshal_history formatTime parseTime h b).
Qed.

Lemma deleteHistory_in_range h i :
  0 <= i < len (Entries h) →
  Entries (deleteHistory h i)
  = take (Z.to_nat i) (Entries h) ++ drop (S (Z.to_nat i)) (Entries h) ∧
  len (Entries (deleteHistory h i)) = len (Entries h) - 1.
Proof.
  intros Hi. unfold deleteHistory, len in *.
  rewrite (proj2 (Z.leb_le 0 i)) by lia.
  rewrite (proj2 (Z.ltb_lt i _)) by lia. cbn [andb Entries]. split; [done|].
  rewrite length_app, length_take, length_drop. lia.
Qed.

Lemma deleteHistory_lookup h i j :
  0 <= i < len (Entries h) →
  Entries (deleteHistory h i) !! j
  = if decide (j < Z.to_nat i)%nat then Entries h !! j else Entries h !! S j.
Proof.
  intros Hi. rewrite (proj1 (deleteHistory_in_range h i Hi)). unfold len in Hi.
  destruct (decide (j < Z.to_nat i)%nat) as [Hj|Hj].
  - rewrite lookup_app_l by (rewrite length_take; lia). apply lookup_take_lt. lia.
  - rewrite lookup_app_r by (rewrite length_take; lia).
    rewrite length_take, lookup_drop. f_equal. lia.
Qed.

Lemma deleteKey_in_range formatTime formatStamp env fs i app :
  0 <= i < len (Entries (hist (session app))) →
  deleteKey formatTime formatStamp env fs i app
  = let h := deleteHistory (hist (session app)) i in
    let st := set_hist h (session app) in
    match (saveHistory formatTime env fs h).2 with
    | Some e =>
      (mkApp (set_statusText ("[red]Failed to save history: " +:+ e) st)
             (borders app) (editorText app) (listItems app),
       (saveHistory formatTime env fs h).1, None)
    | None =>
      (mkApp (set_statusText "[green]History entry deleted" st)
             (borders app) (editorText app) (refreshHistoryList formatStamp h),
       (saveHistory formatTime env fs h).1,
       if 0 <? len (refreshHistoryList formatStamp h)
       then Some (if len (refreshHistoryList formatStamp h) <=? i
                  then len (refreshHistoryList formatStamp h) - 1 else i)
       else None)
    end.
Proof.
  intros Hi. unfold deleteKey.
  rewrite (proj2 (Z.leb_le 0 i)) by lia.
  rewrite (proj2 (Z.ltb_lt i _)) by lia. cbn [andb]. cbv zeta.
  change (hist (set_hist ?h ?st)) with h.
  by destruct (saveHistory formatTime env fs (deleteHistory (hist (session app)) i))
    as [fs1 [e|]].
Qed.

(** X19 — deleting an entry of the history with [d], when the history is
    saved: the entry at the current position goes and the others keep
    their order, the file holds the new history (a restart loads it), the
    list shows it, and the position selected afterwards is the same one,
    or the last one when the last item was deleted; nothing is selected
    when the history is empty. *)
Theorem delete_entry_saved (formatTime : Time → option string)
    (parseTime : string → option Time) (formatStamp : Time → string)
    (env : Env) (fs fs' : FS) (i : Z) (app app' : App) (sel : option Z) :
  (∀ t s, formatTime t = Some s → parseTime s = Some t ∧ all_plain s = true) →
  Forall (λ e, ValidString (Query e) = true) (Entries (hist (session app))) →
  0 <= i < len (Entries (hist (session app))) →
  deleteKey formatTime formatStamp env fs i app = (app', fs', sel) →
  statusText (session app') = "[green]History entry deleted" →
  let es := Entries (hist (session app)) in
  let es' := Entries (hist (session app')) in
  es' = take (Z.to_nat i) es ++ drop (S (Z.to_nat i)) es ∧
  len es' = len es - 1 ∧
  loadHistory parseTime env fs' = ROk (hist (session app')) ∧
  listItems app' = refreshHistoryList formatStamp (hist (session app')) ∧
  sel = (if decide (es' = []) then None
         else Some (Z.min i (Z.min (len es') 101 - 1))) ∧
  (∀ j, sel = Some j →
        0 <= j ∧
        ∃ e, es' !! Z.to_nat j = Some e ∧
             listItems app' !! Z.to_nat j
             = Some (mkItem (historyLabel formatStamp e) j)).
Proof.
  intros Htime Hvalid Hi Hdel Hstatus es es'.
  rewrite (deleteKey_in_range _ _ _ _ _ _ Hi) in Hdel. cbv zeta in Hdel.
  destruct (saveHistory formatTime env fs (deleteHistory (hist (session app)) i))
    as [fs1 [e|]] eqn:Hsave; cbn [fst snd] in Hdel.
  { injection Hdel as <- <- <-. by cbn in Hstatus. }
  injection Hdel as <- <- <-. subst es'. cbn [session listItems].
  change (hist (set_statusText ?s (set_hist ?h ?st))) with h.
  set (h' := deleteHistory (hist (session app)) i) in *.
  destruct (deleteHistory_in_range (hist (session app)) i Hi) as [Hes Hlen].
  fold h' in Hes, Hlen.
  assert (Hsel :
    (if 0 <? len (refreshHistoryList formatStamp h')
     then Some (if len (refreshHistoryList formatStamp h') <=? i
                then len (refreshHistoryList formatStamp h') - 1
                else i)
     else None)
    = if decide (Entries h' = []) then None
      else Some (Z.min i (Z.min (len (Entries h')) 101 - 1))).
  { unfold len. rewrite refreshHistoryList_length.
    destruct (Entries h') as [|e0 rest].
    - reflexivity.
    - destruct (decide (e0 :: rest = [])) as [|_]; [done|].
      rewrite (proj2 (Z.ltb_lt 0 _)) by (cbn [length]; lia). f_equal.
      destruct (Z.leb_spec (Z.of_nat (Nat.min (length (e0 :: rest)) 101)) i); lia. }
  split; [done|]. split; [done|].
  split; [apply (loadHistory_saved formatTime parseTime env fs _ _ Htime); [|done]|].
  { eapply Forall_sublist; [apply deleteHistory_sublist|done]. }
  split; [done|]. split; [exact Hsel|].
  intros j. rewrite Hsel.
  destruct (decide (Entries h' = [])) as [|Hne]; [done|].
  intros [= <-].
  assert (Hpos : 0 < len (Entries h')).
  { unfold len. destruct (Entries h'); [done|]. cbn [length]. lia. }
  set (j := Z.min i (Z.min (len (Entries h')) 101 - 1)).
  assert (Hj : 0 <= j ∧ j < len (Entries h') ∧ j <= 100) by (subst j; lia).
  split; [lia|].
  destruct (lookup_lt_is_Some_2 (Entries h') (Z.to_nat j)) as [e He];
    [unfold len in Hj; lia|].
  exists e. split; [done|].
  rewrite refreshHistoryList_lookup.
  replace (Z.to_nat j <=? 100)%nat with true by (symmetry; apply Nat.leb_le; lia).
  rewrite He. cbn. by rewrite Z2Nat.id by lia.
Qed.

Lemma delete_entry_saved_witness :
  Entries (hist (session (deleteKey epochFormat stamp home_env (mkFS ∅ ∅) 1 two_entries).1.1))
  = [mkEntry "select 2" 0] ∧
  (deleteKey epochFormat stamp home_env (mkFS ∅ ∅) 1 two_entries).2 = Some 0.
Proof.
  destruct (deleteKey epochFormat stamp home_env (mkFS ∅ ∅) 1 two_entries)
    as [[app' fs'] sel] eqn:Hdel.
  assert (Hstatus : statusText (session app') = "[green]History entry deleted").
  { change app' with ((app', fs', sel).1.1). rewrite <- Hdel. vm_compute. reflexivity. }
  destruct (delete_entry_saved epochFormat epochParse stamp home_env (mkFS ∅ ∅) fs' 1
              two_entries app' sel epoch_codec) as (Hes & _ & _ & _ & Hsel & _).
  - repeat constructor.
  - vm_compute. split; [by intros [=]|reflexivity].
  - exact Hdel.
  - exact Hstatus.
  - cbn [fst snd]. split; [exact Hes|]. rewrite Hsel, Hes. reflexivity.
Defined.

(** X20 — when the history cannot be saved after a deletion, the entry is
    gone from the history in memory but the list is not refreshed: it has
    one item more than the history has entries, and no item is selected
    anew.  An item above the deleted one still loads its own query; an item
    at or below it loads the query of the entry that followed, and
    activating the last item indexes the history out of range. *)
Theorem delete_unsaved_entry (formatTime : Time → option string)
    (formatStamp : Time → string)
    (env : Env) (fs fs' : FS) (i : Z) (app app' : App) (sel : option Z) :
  listItems app = refreshHistoryList formatStamp (hist (session app)) →
  0 <= i < len (Entries (hist (session app))) →
  len (Entries (hist (session app))) <= 101 →
  deleteKey formatTime formatStamp env fs i app = (app', fs', sel) →
  statusText (session app') ≠ "[green]History entry deleted" →
  let es := Entries (hist (session app)) in
  sel = None ∧
  Entries (hist (session app')) = take (Z.to_nat i) es ++ drop (S (Z.to_nat i)) es ∧
  listItems app' = listItems app ∧
  length (listItems app') = S (length (Entries (hist (session app')))) ∧
  (∀ j item, listItems app' !! j = Some item →
     editorText <$> itemSelected (itemIndex item) app'
     = Query <$> (if decide (j < Z.to_nat i)%nat then es !! j else es !! S j)) ∧
  (∀ item, last (listItems app') = Some item →
     itemSelected (itemIndex item) app' = None).
Proof.
  intros Hlist Hi Hmax Hdel Hstatus es.
  rewrite (deleteKey_in_range _ _ _ _ _ _ Hi) in Hdel. cbv zeta in Hdel.
  destruct (saveHistory formatTime env fs (deleteHistory (hist (session app)) i))
    as [fs1 [e|]] eqn:Hsave; cbn [fst snd] in Hdel.
  2: { injection Hdel as <- <- <-. by cbn in Hstatus. }
  injection Hdel as <- <- <-. cbn [session listItems].
  change (hist (set_statusText ?s (set_hist ?h ?st))) with h.
  set (h' := deleteHistory (hist (session app)) i) in *.
  destruct (deleteHistory_in_range (hist (session app)) i Hi) as [Hes Hlen].
  fold h' in Hes, Hlen.
  set (app' := mkApp _ _ _ _).
  assert (Hitems : ∀ j item, listItems app !! j = Some item →
     editorText <$> itemSelected (itemIndex item) app'
     = Query <$> (if decide (j < Z.to_nat i)%nat then es !! j else es !! S j)).
  { intros j item. rewrite Hlist, refreshHistoryList_lookup.
    destruct (Nat.leb_spec j 100) as [Hj|]; [|done].
    destruct (Entries (hist (session app)) !! j) as [ej|] eqn:Hej; [|done].
    intros [= <-]. unfold itemSelected, app'. cbn [itemIndex session].
    change (hist (set_statusText ?s (set_hist ?h ?st))) with h.
    rewrite index_lookup by lia. rewrite Nat2Z.id. subst h'.
    rewrite (deleteHistory_lookup _ _ _ Hi). fold es.
    by destruct (if decide (j < Z.to_nat i)%nat then es !! j else es !! S j). }
  split; [done|]. split; [done|]. split; [done|].
  assert (Hcount : length (listItems app) = S (length (Entries h'))).
  { rewrite Hlist, refreshHistoryList_length. unfold len in *. lia. }
  split; [done|]. split; [exact Hitems|].
  intros item Hlast. rewrite last_lookup in Hlast.
  pose proof (Hitems _ _ Hlast) as H. rewrite Hcount in H. cbn [Nat.pred] in H.
  rewrite (proj2 (lookup_ge_None es (S (length (Entries h'))))) in H
    by (subst es; unfold len in *; lia).
  destruct (decide _) as [Hlt|_]; [unfold len in *; lia|].
  by destruct (itemSelected _ _).
Qed.

Lemma delete_unsaved_entry_witness :
  length (listItems (deleteKey epochFormat stamp home_env denied_fs 0 two_entries).1.1)
  = 2%nat ∧
  queries (hist (session (deleteKey epochFormat stamp home_env denied_fs 0 two_entries).1.1))
  = ["select 1"].
Proof.
  destruct (deleteKey epochFormat stamp home_env denied_fs 0 two_entries)
    as [[app' fs'] sel] eqn:Hdel.
  assert (Hstatus : statusText (session app') ≠ "[green]History entry deleted").
  { change app' with ((app', fs', sel).1.1). rewrite <- Hdel. vm_compute. by intros [=]. }
  destruct (delete_unsaved_entry epochFormat stamp home_env denied_fs fs' 0
              two_entries app' sel) as (_ & Hes & _ & Hlen & _).
  - reflexivity.
  - vm_compute. split; [by intros [=]|reflexivity].
  - vm_compute. by intros [=].
  - exact Hdel.
  - exact Hstatus.
  - cbn [fst snd]. split; [by rewrite Hlen, Hes|]. unfold queries. by rewrite Hes.
Defined.

Lemma appendHistory_valid h query maxLen now h' :
  Forall (λ e, ValidString (Query e) = true) (Entries h) →
  ValidString (TrimSpace query) = true →
  appendHistory h query maxLen now = Some h' →
  Forall (λ e, ValidString (Query e) = true) (Entries h').
Proof.
  intros Hvalid Hq Happ. apply Forall_forall. intros e He.
  destruct (appendHistory_entries _ _ _ _ _ _ Happ He) as [Hin|[_ ->]]; [|done].
  by apply (proj1 (Forall_forall _ _) Hvalid).
Qed.

(** X21 — running a query whose text is not blank, with room for at least
    one entry, when the history is saved (the status still reads
    [Running query...]): the history starts with the trimmed query at the
    time of the run, the file holds that history (a restart loads it), and
    the list shows it, the query first.  The focus is on the results. *)
Theorem run_query_saves_history (formatTime : Time → option string)
    (parseTime : string → option Time) (formatStamp : Time → string)
    (cfg : Config) (env : Env) (fs fs' : FS) (query : string) (now : Time)
    (app app' : App) :
  (∀ t s, formatTime t = Some s → parseTime s = Some t ∧ all_plain s = true) →
  Forall (λ e, ValidString (Query e) = true) (Entries (hist (session app))) →
  ValidString (TrimSpace query) = true →
  TrimSpace query ≠ "" →
  1 <= MaxHistoryEntries cfg →
  runQueryApp formatTime formatStamp cfg env fs query now app = Some (app', fs') →
  statusText (session app') = "[yellow]Running query..." →
  head (Entries (hist (session app'))) = Some (mkEntry (TrimSpace query) now) ∧
  loadHistory parseTime env fs' = ROk (hist (session app')) ∧
  listItems app' = refreshHistoryList formatStamp (hist (session app')) ∧
  head (listItems app')
  = Some (mkItem (historyLabel formatStamp (mkEntry (TrimSpace query) now)) 0) ∧
  focus (session app') = Results.
Proof.
  intros Htime Hvalid Hq Hne Hmax Hrun Hstatus.
  unfold runQueryApp in Hrun.
  destruct (runQuery formatTime cfg env fs query now (session app)) as [[st fs1]|] eqn:Hr;
    [|done].
  cbn in Hrun.
  destruct (runQuery_focus _ _ _ _ _ _ _ _ _ Hr) as (Hfocus & Hhist & Hfs & Hst).
  destruct (appendHistory_head (hist (session app)) query (MaxHistoryEntries cfg) now
              Hmax Hne) as [rest Happ].
  rewrite Happ in Hhist. cbn [default] in Hhist.
  destruct (saveHistory formatTime env fs (hist st)) as [fs2 [e|]] eqn:Hsave;
    cbn [fst snd] in *.
  { injection Hrun as <- <-. cbn [session] in Hstatus. rewrite Hst in Hstatus.
    by cbn in Hstatus. }
  injection Hrun as <- <-. cbn [session listItems]. subst fs1.
  split; [by rewrite Hhist|].
  split.
  { apply (loadHistory_saved formatTime parseTime env fs _ _ Htime); [|done].
    rewrite Hhist. eapply appendHistory_valid; [exact Hvalid|exact Hq|exact Happ]. }
  split; [done|]. split; [|done].
  by rewrite Hhist.
Qed.

Lemma run_query_saves_history_witness :
  ∃ app' fs',
    runQueryApp epochFormat stamp DefaultConfig home_env (mkFS ∅ ∅) " select 3 " 0 two_entries
    = Some (app', fs') ∧
    queries (hist (session app')) = ["select 3"; "select 2"; "select 1"] ∧
    loadHistory epochParse home_env fs' = ROk (hist (session app')).
Proof.
  destruct (runQueryApp epochFormat stamp DefaultConfig home_env (mkFS ∅ ∅) " select 3 " 0
              two_entries) as [[app' fs']|] eqn:Hrun; [|by vm_compute in Hrun].
  exists app', fs'. split; [done|].
  assert (Hstatus : statusText (session app') = "[yellow]Running query...").
  { change app' with ((app', fs').1).
    change (app', fs') with (default (app', fs') (Some (app', fs'))). rewrite <- Hrun.
    vm_compute. reflexivity. }
  assert (Hq : queries (hist (session app')) = ["select 3"; "select 2"; "select 1"]).
  { change app' with ((app', fs').1).
    change (app', fs') with (default (app', fs') (Some (app', fs'))). rewrite <- Hrun.
    vm_compute. reflexivity. }
  split; [exact Hq|].
  destruct (run_query_saves_history epochFormat epochParse stamp DefaultConfig home_env
              (mkFS ∅ ∅) fs' " select 3 " 0 two_entries app' epoch_codec)
    as (_ & Hload & _).
  - repeat constructor.
  - vm_compute. reflexivity.
  - vm_compute. by intros [=].
  - vm_compute. by intros [=].
  - exact Hrun.
  - exact Hstatus.
  - exact Hload.
Defined.

(** ** The two files *)

Lemma history_config_paths env ph pc :
  historyPath env = ROk ph → configPath env = ROk pc → ph ≠ pc.
Proof.
  unfold historyPath, configPath, filepath_Join.
  destruct (negb _).
  - intros [= <-] [= <-]. rewrite !filter_cons.
    destruct (decide (XDG_CONFIG_HOME env ≠ "")); cbn; [|done].
    intros H. apply append_inv_head in H. done.
  - destruct (HomeDir env) as [home|]; [|done].
    intros [= <-] [= <-]. rewrite !filter_cons.
    destruct (decide (home ≠ "")); cbn; [|done].
    intros H. apply append_inv_head in H. done.
Qed.

Lemma ReadFile_WriteFile_other fs p b p' :
  p' ≠ p → ReadFile (WriteFile fs p b).1 p' = ReadFile fs p'.
Proof.
  intros Hp. unfold WriteFile, ReadFile.
  destruct (decide (p ∈ fs_denied fs)); [done|]. cbn.
  by rewrite lookup_insert_ne.
Qed.

Lemma saveConfig_other env fs cfg pc p' :
  configPath env = ROk pc → p' ≠ pc →
  ReadFile (saveConfig env fs cfg).1 p' = ReadFile fs p'.
Proof.
  intros Hpc Hp. unfold saveConfig. rewrite Hpc.
  destruct (MkdirAll fs (filepath_Dir pc)); [done|].
  by apply ReadFile_WriteFile_other.
Qed.

Lemma saveHistory_other formatTime env fs h ph p' :
  historyPath env = ROk ph → p' ≠ ph →
  ReadFile (saveHistory formatTime env fs h).1 p' = ReadFile fs p'.
Proof.
  intros Hph Hp. unfold saveHistory. rewrite Hph.
  destruct (MkdirAll fs (filepath_Dir ph)); [done|].
  destruct (MarshalIndent_history formatTime h); [|done].
  by apply ReadFile_WriteFile_other.
Qed.

Lemma loadHistory_reads parseTime env fs1 fs2 :
  (∀ ph, historyPath env = ROk ph → ReadFile fs1 ph = ReadFile fs2 ph) →
  loadHistory parseTime env fs1 = loadHistory parseTime env fs2.
Proof.
  intros H. unfold loadHistory. destruct (historyPath env) as [ph|]; [|done].
  by rewrite (H ph).
Qed.

(** X22 — the configuration and the history are kept in two files that the
    program never mixes up: saving the configuration, or loading it (which
    writes the defaults on a first start), leaves the history that
    [loadHistory] returns as it was, and saving a history leaves the
    configuration that [loadConfig] returns as it was. *)
Theorem config_and_history_files_apart (formatTime : Time → option string)
    (parseTime : string → option Time) (env : Env) (fs : FS) :
  (∀ cfg, loadHistory parseTime env (saveConfig env fs cfg).1
          = loadHistory parseTime env fs) ∧
  loadHistory parseTime env (loadConfig env fs).2 = loadHistory parseTime env fs ∧
  (∀ h, (loadConfig env (saveHistory formatTime env fs h).1).1 = (loadConfig env fs).1).
Proof.
  assert (Hsave : ∀ cfg, loadHistory parseTime env (saveConfig env fs cfg).1
                         = loadHistory parseTime env fs).
  { intros cfg. apply loadHistory_reads. intros ph Hph.
    destruct (configPath env) as [pc|err] eqn:Hpc.
    - apply (saveConfig_other env fs cfg pc ph Hpc).
      by apply (history_config_paths env ph pc).
    - unfold saveConfig. by rewrite Hpc. }
  split; [exact Hsave|]. split.
  - unfold loadConfig. destruct (configPath env) as [pc|err]; [|done].
    destruct (ReadFile fs pc); [by destruct (Unmarshal_config b)|apply Hsave|done].
  - intros h. unfold loadConfig. destruct (configPath env) as [pc|err] eqn:Hpc; [|done].
    assert (Hread : ReadFile (saveHistory formatTime env fs h).1 pc = ReadFile fs pc).
    { destruct (historyPath env) as [ph|err] eqn:Hph.
      - apply (saveHistory_other formatTime env fs h ph pc Hph).
        intros ->. by apply (history_config_paths env ph ph).
      - unfold saveHistory. by rewrite Hph. }
    rewrite Hread. destruct (ReadFile fs pc); [by destruct (Unmarshal_config b)|done|done].
Qed.

(** ** The detail view of the older copy *)

Lemma updateDetailView_range_sorted fmtFloat st :
  updateDetailView_range fmtFloat detailKeys st = updateDetailView fmtFloat st.
Proof. reflexivity. Qed.

(** X23 — the older copy of the detail view does not sort the keys: it
    shows the fields of the selected row in the order in which the map
    yields them.  The current detail view is what the older one shows when
    that order is sorted, whatever the order was; the older one depends on
    it, and with [zeta] before [alpha] its text is another one than the
    current text. *)
Theorem detail_view_without_sort (fmtFloat : string → string)
    (visit : Row → list string) (st : Session) :
  (∀ r, visit r ≡ₚ rangeKeys r) →
  updateDetailView fmtFloat st
  = updateDetailView_range fmtFloat (λ r, sortStrings (visit r)) st ∧
  (∀ rowData,
     0 < (selection st).1 →
     index (currentData st) ((selection st).1 - 1) = Some rowData →
     detailText (updateDetailView_range fmtFloat visit st)
     = "[yellow::b]Row " +:+ itoa (selection st).1 +:+ "/" +:+ itoa (len (currentData st))
       +:+ "[white]" +:+ newline
       +:+ String.concat "" (detailLine fmtFloat rowData <$> visit rowData) ∧
     detailLine fmtFloat rowData <$> visit rowData
     ≡ₚ detailLine fmtFloat rowData <$> detailKeys rowData) ∧
  (visit drift_row = ["zeta"; "alpha"] →
   detailText (updateDetailView_range fmtFloat visit drift_session)
   ≠ detailText (updateDetailView fmtFloat drift_session)).
Proof.
  intros Hvisit. split; [|split].
  - rewrite <- updateDetailView_range_sorted. unfold updateDetailView_range.
    destruct ((_ <=? 0) || _); [done|].
    destruct (index _ _) as [rowData|]; [|done].
    unfold detailKeys. by rewrite (sortStrings_perm _ _ (Hvisit rowData)).
  - intros rowData Hrow Hidx. split.
    + unfold updateDetailView_range.
      assert (Hlen : (selection st).1 - 1 < len (currentData st)).
      { unfold index in Hidx. destruct (_ <? 0); [done|].
        apply lookup_lt_Some in Hidx. unfold len. lia. }
      replace (((selection st).1 <=? 0) || (len (currentData st) <? (selection st).1))
        with false.
      * by rewrite Hidx.
      * symmetry. apply orb_false_iff. split; [apply Z.leb_gt; lia|apply Z.ltb_ge; lia].
    + apply fmap_Permutation. rewrite (Hvisit rowData). unfold detailKeys.
      by rewrite sortStrings_Permutation.
  - intros Hz.
    assert (Hold : detailText (updateDetailView_range fmtFloat visit drift_session)
                   = "[yellow::b]Row " +:+ itoa 2 +:+ "/" +:+ itoa 2 +:+ "[white]" +:+ newline
                     +:+ String.concat "" (detailLine fmtFloat drift_row <$> visit drift_row))
      by reflexivity.
    rewrite Hold, Hz. vm_compute. by intros [=].
Qed.

Lemma detail_view_without_sort_witness :
  detailText (updateDetailView_range (λ lit, lit) (λ r, reverse (detailKeys r)) drift_session)
  ≠ detailText (updateDetailView (λ lit, lit) drift_session).
Proof.
  apply (detail_view_without_sort (λ lit, lit) (λ r, reverse (detailKeys r)) drift_session).
  - intros r. rewrite reverse_Permutation. apply sortStrings_Permutation.
  - vm_compute. reflexivity.
Defined.
